(** * agent-session-parser: chunking, line parsing and token accounting

    A shallow embedding of the parts of the TypeScript library that split
    and reassemble transcripts ([chunking.ts]), parse line-delimited
    transcripts ([parsers/claude/parse.ts]) and aggregate token usage
    ([parsers/claude/extract.ts], [parsers/gemini/extract.ts]).

    Conventions of the embedding:
    - a JavaScript string is a [string]; its characters stand for code
      units (the model covers code units below 256) and [.length] is
      [len], an integer;
    - a JavaScript number that the code uses as a size, an index or a
      token count is a [Z];
    - a function that can throw returns an [outcome] or an [option];
    - [JSON.parse] and [JSON.stringify] belong to the host, not to the
      library: the library functions take them as parameters, and a small
      reference codec ([RefJSON]) instantiates them in the examples. *)

From Stdlib Require Import String Ascii List ZArith Lia Bool Arith.
From Stdlib Require Import DecimalString DecimalPos DecimalZ.
From Stdlib Require Import Permutation Sorted.
Import ListNotations.

Local Open Scope string_scope.
Local Open Scope Z_scope.

(* ------------------------------------------------------------------ *)
(** ** Host strings *)

Module JS.

(** The result of a call that may throw. *)
Inductive outcome (E A : Type) : Type :=
| Returned (a : A)
| Thrown (e : E).
Arguments Returned {E A} a.
Arguments Thrown {E A} e.

(** What a call throws: the host's [SyntaxError] and [TypeError], or
    an [Error] made by the library with [new Error(text)]. *)
Inductive exception : Type :=
| SyntaxError
| TypeError
| Error (text : string).

Definition LF : ascii := "010"%char.
Definition LFs : string := String LF EmptyString.

(** [s.length] *)
Definition len (s : string) : Z := Z.of_nat (String.length s).

(** [s.split("\n")]: always at least one piece. *)
Fixpoint split_LF (s : string) : list string :=
  match s with
  | EmptyString => [EmptyString]
  | String c s' =>
      if Ascii.eqb c LF then EmptyString :: split_LF s'
      else match split_LF s' with
           | [] => [String c EmptyString]
           | l :: ls => String c l :: ls
           end
  end.

(** [pieces.join("\n")] *)
Definition join_LF (pieces : list string) : string :=
  String.concat LFs pieces.

(** [s.replace(/\n$/, "")]: without the [m] flag [$] is the end of the
    input, so only a final line feed is removed. *)
Fixpoint strip_final_LF (s : string) : string :=
  match s with
  | EmptyString => EmptyString
  | String c EmptyString => if Ascii.eqb c LF then EmptyString else s
  | String c s' => String c (strip_final_LF s')
  end.

(** [String(n)] for an integer [n] of absolute value below 10^21: plain
    decimal digits, a leading minus sign for negatives. From 10^21 on
    JavaScript prints a number in exponent notation ([String(1e21)] is
    [1e+21]), which this definition does not follow: the properties
    that read the digits of a number the caller chooses keep it below
    10^21. *)
Definition numToString (n : Z) : string :=
  NilZero.string_of_int (Z.to_int n).

(** [s.padStart(width, "0")] *)
Fixpoint zeros (n : nat) : string :=
  match n with
  | O => EmptyString
  | S k => String "0"%char (zeros k)
  end.

Definition padStart0 (width : nat) (s : string) : string :=
  zeros (width - String.length s) ++ s.

(** [s.startsWith(p)] *)
Definition startsWith (s p : string) : bool := String.prefix p s.

(** [s.slice(n)] for [0 <= n] *)
Fixpoint slice_from (n : nat) (s : string) : string :=
  match n, s with
  | O, _ => s
  | S k, EmptyString => EmptyString
  | S k, String _ s' => slice_from k s'
  end.

(** White space and line terminators among the modelled code units:
    TAB, LF, VT, FF, CR, SP and NBSP. *)
Definition isWhiteSpace (c : ascii) : bool :=
  let n := nat_of_ascii c in
  ((9 <=? n)%nat && (n <=? 13)%nat) || (n =? 32)%nat || (n =? 160)%nat.

(** [s.trimStart()] *)
Fixpoint trimStart (s : string) : string :=
  match s with
  | EmptyString => EmptyString
  | String c s' => if isWhiteSpace c then trimStart s' else s
  end.

(** [s.trimEnd()] *)
Fixpoint trimEnd (s : string) : string :=
  match s with
  | EmptyString => EmptyString
  | String c s' =>
      match trimEnd s' with
      | EmptyString => if isWhiteSpace c then EmptyString else String c EmptyString
      | t => String c t
      end
  end.

(** [s.trim()] *)
Definition trim (s : string) : string := trimEnd (trimStart s).

Definition isDigit (c : ascii) : bool :=
  let n := nat_of_ascii c in (48 <=? n)%nat && (n <=? 57)%nat.

Definition digitValue (c : ascii) : Z := Z.of_nat (nat_of_ascii c) - 48.

(** The digits at the head of [s], read in base ten on top of [acc]. *)
Fixpoint readDigits (acc : Z) (s : string) : Z :=
  match s with
  | EmptyString => acc
  | String c s' =>
      if isDigit c then readDigits (10 * acc + digitValue c) s' else acc
  end.

Definition headIsDigit (s : string) : bool :=
  match s with
  | String c _ => isDigit c
  | EmptyString => false
  end.

(** [parseInt(s, 10)]: skip leading white space, read an optional sign,
    then the longest run of decimal digits; [None] is [NaN] (no digit
    where one is expected). Whatever follows the digits is ignored. *)
Definition parseInt10 (s : string) : option Z :=
  match trimStart s with
  | String "-"%char t => if headIsDigit t then Some (- readDigits 0 t) else None
  | String "+"%char t => if headIsDigit t then Some (readDigits 0 t) else None
  | t => if headIsDigit t then Some (readDigits 0 t) else None
  end.

Definition DQ : ascii := "034"%char.
Definition DQs : string := String DQ EmptyString.

Unset Elimination Schemes.
(** The values [JSON.parse] produces. An object is the list of its
    members in property order, with distinct keys. Numbers are the
    integers. *)
Inductive json : Type :=
| JNull
| JBool (b : bool)
| JNumber (n : Z)
| JString (s : string)
| JArray (items : list json)
| JObject (members : list (string * json)).
Set Elimination Schemes.

(** [v[k]] for a value that is not [null]: [None] is [undefined]. *)
Fixpoint lookup (k : string) (members : list (string * json)) : option json :=
  match members with
  | [] => None
  | (k', v) :: rest => if String.eqb k k' then Some v else lookup k rest
  end.

Definition member (k : string) (v : json) : option json :=
  match v with
  | JObject members => lookup k members
  | _ => None
  end.

(** What [for (const x of v)] and [...v] run through; [None] when [v]
    is not iterable (a [TypeError]). A string iterates over its
    characters. *)
Fixpoint characters (s : string) : list json :=
  match s with
  | EmptyString => []
  | String c s' => JString (String c EmptyString) :: characters s'
  end.

Definition iterate (v : json) : option (list json) :=
  match v with
  | JArray items => Some items
  | JString s => Some (characters s)
  | _ => None
  end.

(** [[...items].sort(compare)]. The host's sort is stable, and with a
    comparator that orders the items consistently its result is the one
    stable sorted arrangement, whatever algorithm the host runs. Here it
    is computed by insertion from the right: an item goes in front of
    the first item it does not come after. *)
Fixpoint sortInsert (compare : string -> string -> Z) (a : string)
    (sorted : list string) : list string :=
  match sorted with
  | [] => [a]
  | b :: rest =>
      if compare a b <=? 0 then a :: sorted
      else b :: sortInsert compare a rest
  end.

Definition sortWith (compare : string -> string -> Z) (items : list string)
    : list string :=
  fold_right (sortInsert compare) [] items.

(** Whether a value is truthy: what [if (v)] and [v || w] test. *)
Definition truthy (v : json) : bool :=
  match v with
  | JNull => false
  | JBool b => b
  | JNumber n => negb (n =? 0)
  | JString s => negb (String.eqb s EmptyString)
  | JArray _ => true
  | JObject _ => true
  end.

(** [String(v)], the conversion that [join] applies to the elements of
    an array: an array is its elements joined by commas, [null] among
    them giving nothing, and an object is [[object Object]]. *)
Fixpoint toString (v : json) : string :=
  match v with
  | JNull => "null"
  | JBool true => "true"
  | JBool false => "false"
  | JNumber n => numToString n
  | JString s => s
  | JArray items =>
      String.concat ","
        (map (fun item => match item with
                          | JNull => EmptyString
                          | _ => toString item
                          end)
           items)
  | JObject _ => "[object Object]"
  end.

(** A member of an object literal [{ k: v }]: when [v] is [undefined]
    the member reads as [undefined] and [JSON.stringify] leaves it out,
    as if it were absent. *)
Definition definedMember (k : string) (v : option json)
    : list (string * json) :=
  match v with
  | Some value => [(k, value)]
  | None => []
  end.

End JS.

Import JS.

(* ------------------------------------------------------------------ *)
(** ** chunking.ts *)

Module Chunking.

(** [AgentType] of [types.ts] *)
Inductive AgentType : Type := ClaudeCode | GeminiCLI.

(** [MAX_CHUNK_SIZE] *)
Definition MAX_CHUNK_SIZE : Z := 50 * 1024 * 1024.

(** [CHUNK_SUFFIX_FORMAT] *)
Definition CHUNK_SUFFIX_FORMAT (index : Z) : string :=
  "." ++ padStart0 3 (numToString index).

(** The text of the [Error] of [chunkJSONL], a template over the line
    number [i + 1], [lineWithNewline.length] and [maxSize]. *)
Definition lineTooLong (lineNumber lineSize maxSize : Z) : string :=
  "JSONL line " ++ numToString lineNumber
    ++ " exceeds maximum chunk size (" ++ numToString lineSize
    ++ " bytes > " ++ numToString maxSize
    ++ " bytes); cannot split a single JSON object".

(** The [for] loop of [chunkJSONL]: [i] is the loop index, [chunks]
    and [currentChunk] the two accumulators. *)
Fixpoint chunkJSONL_loop (maxSize : Z) (lines : list string) (i : Z)
    (chunks : list string) (currentChunk : string)
    : outcome exception (list string) :=
  match lines with
  | [] =>
      if 0 <? len currentChunk
      then Returned (chunks ++ [strip_final_LF currentChunk])%list
      else Returned chunks
  | line :: rest =>
      let lineWithNewline := line ++ LFs in
      if maxSize <? len lineWithNewline then
        Thrown (Error (lineTooLong (i + 1) (len lineWithNewline) maxSize))
      else if (maxSize <? len currentChunk + len lineWithNewline)
                && (0 <? len currentChunk)
      then chunkJSONL_loop maxSize rest (i + 1)
             (chunks ++ [strip_final_LF currentChunk])%list lineWithNewline
      else chunkJSONL_loop maxSize rest (i + 1)
             chunks (currentChunk ++ lineWithNewline)
  end.

Definition chunkJSONL (content : string) (maxSize : Z)
    : outcome exception (list string) :=
  match content with
  | EmptyString => Returned []
  | _ => chunkJSONL_loop maxSize (split_LF content) 0 [] EmptyString
  end.

Definition reassembleJSONL (chunks : list string) : string :=
  join_LF chunks.

(** [{ messages: ms }] *)
Definition wrapper (ms : list json) : json :=
  JObject [("messages", JArray ms)].

(** ['{"messages":[]}'.length] *)
Definition emptyWrapperLength : Z :=
  len ("{" ++ DQs ++ "messages" ++ DQs ++ ":[]}").

Definition chunkFileName (baseName : string) (index : Z) : string :=
  if index =? 0 then baseName
  else baseName ++ CHUNK_SUFFIX_FORMAT index.

Definition parseChunkIndex (filename baseName : string) : Z :=
  if String.eqb filename baseName then 0
  else if negb (startsWith filename (baseName ++ ".")) then -1
  else
    let suffix := slice_from (String.length baseName + 1) filename in
    match parseInt10 suffix with
    | None => -1
    | Some index => index
    end.

Section Host.

(** [JSON.parse]: [None] when it throws a [SyntaxError]. *)
Variable JSON_parse : string -> option json.
(** [JSON.stringify] *)
Variable JSON_stringify : json -> string.

Definition detectAgentTypeFromContent (content : string)
    : option AgentType :=
  let trimmed := trimStart content in
  if negb (startsWith trimmed "{") then None
  else
    match JSON_parse trimmed with
    | Some parsed =>
        match member "messages" parsed with
        | Some (JArray (_ :: _)) => Some GeminiCLI
        | _ => None
        end
    | None => None
    end.

(** The [for ... of] loop of [chunkGeminiJSON]. [addedSize] is
    computed before the accumulator is reset, as in the source. *)
Fixpoint chunkGeminiJSON_loop (maxSize : Z) (messages : list json)
    (chunks : list string) (currentMessages : list json)
    (currentSize : Z) : list string :=
  match messages with
  | [] =>
      if (0 <? length currentMessages)%nat
      then (chunks ++ [JSON_stringify (wrapper currentMessages)])%list
      else chunks
  | msg :: rest =>
      let msgStr := JSON_stringify msg in
      let addedSize :=
        len msgStr + (if (0 <? length currentMessages)%nat then 1 else 0) in
      if (maxSize <? currentSize + addedSize)
           && (0 <? length currentMessages)%nat
      then chunkGeminiJSON_loop maxSize rest
             (chunks ++ [JSON_stringify (wrapper currentMessages)])%list
             [msg] (emptyWrapperLength + addedSize)
      else chunkGeminiJSON_loop maxSize rest
             chunks (currentMessages ++ [msg])%list (currentSize + addedSize)
  end.

Definition chunkGeminiJSON (content : string) (maxSize : Z)
    : outcome exception (list string) :=
  if len content <=? maxSize then Returned [content]
  else
    match JSON_parse content with
    | None => Thrown SyntaxError
    | Some parsed =>
        match member "messages" parsed with
        | None => Thrown TypeError
        | Some messages =>
            match iterate messages with
            | None => Thrown TypeError
            | Some msgs =>
                Returned (chunkGeminiJSON_loop maxSize msgs [] []
                            emptyWrapperLength)
            end
        end
    end.

(** The loop of [reassembleGeminiJSON]. *)
Fixpoint reassembleGeminiJSON_loop (chunks : list string)
    (allMessages : list json) : outcome exception (list json) :=
  match chunks with
  | [] => Returned allMessages
  | chunk :: rest =>
      match JSON_parse chunk with
      | None => Thrown SyntaxError
      | Some parsed =>
          match member "messages" parsed with
          | None => Thrown TypeError
          | Some messages =>
              match iterate messages with
              | None => Thrown TypeError
              | Some msgs =>
                  reassembleGeminiJSON_loop rest (allMessages ++ msgs)%list
              end
          end
      end
  end.

Definition reassembleGeminiJSON (chunks : list string)
    : outcome exception string :=
  match chunks with
  | [] => Returned (JSON_stringify (wrapper []))
  | [chunk] => Returned chunk
  | _ =>
      match reassembleGeminiJSON_loop chunks [] with
      | Thrown e => Thrown e
      | Returned allMessages =>
          Returned (JSON_stringify (wrapper allMessages))
      end
  end.

(** [agentType || detectAgentTypeFromContent(content)] *)
Definition detectedType (agentType : option AgentType) (content : string)
    : option AgentType :=
  match agentType with
  | Some t => Some t
  | None => detectAgentTypeFromContent content
  end.

Definition chunkTranscript (content : string)
    (agentType : option AgentType) (maxSize : Z)
    : outcome exception (list string) :=
  if len content <=? maxSize then Returned [content]
  else
    match detectedType agentType content with
    | Some GeminiCLI => chunkGeminiJSON content maxSize
    | _ => chunkJSONL content maxSize
    end.

Definition reassembleTranscript (chunks : list string)
    (agentType : option AgentType) : outcome exception string :=
  match chunks with
  | [] => Returned EmptyString
  | [chunk] => Returned chunk
  | first :: _ =>
      match detectedType agentType first with
      | Some GeminiCLI => reassembleGeminiJSON chunks
      | _ => Returned (reassembleJSONL chunks)
      end
  end.

End Host.

Definition sortChunkFiles (files : list string) (baseName : string)
    : list string :=
  sortWith
    (fun a b =>
       let idxA := parseChunkIndex a baseName in
       let idxB := parseChunkIndex b baseName in
       idxA - idxB)
    files.

End Chunking.

Import Chunking.

(* ------------------------------------------------------------------ *)
(** ** types.ts *)

Module Types.

Unset Elimination Schemes.
(** [TokenUsage]; [subagentTokens] is the optional nested usage. *)
Inductive TokenUsage : Type := mkTokenUsage {
  inputTokens : Z;
  cacheCreationTokens : Z;
  cacheReadTokens : Z;
  outputTokens : Z;
  apiCallCount : Z;
  subagentTokens : option TokenUsage
}.
Set Elimination Schemes.

Definition emptyTokenUsage : TokenUsage :=
  mkTokenUsage 0 0 0 0 0 None.

End Types.

Import Types.

(** A JavaScript [Map] with string keys: the entries in insertion order.
    [set] on a key already present replaces the value in place. *)
Module StringMap.

Definition t (V : Type) : Type := list (string * V).

Fixpoint get {V : Type} (k : string) (m : t V) : option V :=
  match m with
  | [] => None
  | (k', v) :: rest => if String.eqb k k' then Some v else get k rest
  end.

Fixpoint set {V : Type} (k : string) (v : V) (m : t V) : t V :=
  match m with
  | [] => [(k, v)]
  | (k', v') :: rest =>
      if String.eqb k k' then (k, v) :: rest else (k', v') :: set k v rest
  end.

Definition size {V : Type} (m : t V) : Z := Z.of_nat (length m).
Definition keys {V : Type} (m : t V) : list string := map fst m.
Definition values {V : Type} (m : t V) : list V := map snd m.

End StringMap.

(* ------------------------------------------------------------------ *)
(** ** utils.ts *)

Module Utils.

(** The regular expressions of [utils.ts] all have one of two shapes,
    over two literal texts OPEN and CLOSE:
    [/OPEN[^>]*>[\s\S]*?CLOSE/g] when [closeTail] is [false], and
    [/OPEN[^>]*>[\s\S]*?CLOSE[^>]*>/g] when it is [true]. *)
Record TagRegex : Type := mkTagRegex {
  openText : string;
  closeText : string;
  closeTail : bool
}.

(** [/<ide_[^>]*>[\s\S]*?<\/ide_[^>]*>/g] *)
Definition IDE_CONTEXT_TAG_RE : TagRegex :=
  mkTagRegex "<ide_" "</ide_" true.

Definition SYSTEM_TAG_REGEXES : list TagRegex :=
  [ mkTagRegex "<local-command-caveat" "</local-command-caveat>" false;
    mkTagRegex "<system-reminder" "</system-reminder>" false;
    mkTagRegex "<command-name" "</command-name>" false;
    mkTagRegex "<command-message" "</command-message>" false;
    mkTagRegex "<command-args" "</command-args>" false;
    mkTagRegex "<local-command-stdout" "</local-command-stdout>" false ].

(** The match of [re] that starts at the head of [s], as its length.
    After OPEN, [[^>]*>] can only end at the first [>]; the lazy
    [[\s\S]*?] then stops at the first place from which the rest of the
    expression matches: the first CLOSE after that [>], followed, with a
    tail, by the first [>] after it. *)
Definition matchAtHead (re : TagRegex) (s : string) : option nat :=
  if negb (startsWith s (openText re)) then None
  else
    match String.index (String.length (openText re)) ">" s with
    | None => None
    | Some openEnd =>
        match String.index (S openEnd) (closeText re) s with
        | None => None
        | Some close =>
            let afterClose := (close + String.length (closeText re))%nat in
            if closeTail re then
              match String.index afterClose ">" s with
              | None => None
              | Some closeEnd => Some (S closeEnd)
              end
            else Some afterClose
        end
    end.

(** [s.replace(re, empty)] with the [g] flag: the matches are looked for
    from left to right, each search starting where the previous match
    ended. [skip] counts the characters still to drop of the match being
    removed. *)
Fixpoint removeMatches (re : TagRegex) (skip : nat) (s : string) : string :=
  match s with
  | EmptyString => EmptyString
  | String c s' =>
      match skip with
      | S k => removeMatches re k s'
      | O =>
          match matchAtHead re s with
          | Some (S k) => removeMatches re k s'
          | _ => String c (removeMatches re 0 s')
          end
      end
  end.

Definition replaceWithEmpty (re : TagRegex) (s : string) : string :=
  removeMatches re 0 s.

Definition stripIDEContextTags (text : string) : string :=
  let result := replaceWithEmpty IDE_CONTEXT_TAG_RE text in
  let result :=
    fold_left (fun result re => replaceWithEmpty re result)
      SYSTEM_TAG_REGEXES result in
  trim result.

(** The body of the loop of [deduplicateStrings] on the pair
    [(seen, result)]; the [Set] is the list of its members. *)
Definition deduplicateStep (state : list string * list string)
    (item : string) : list string * list string :=
  let (seen, result) := state in
  if existsb (String.eqb item) seen then state
  else ((seen ++ [item])%list, (result ++ [item])%list).

Definition deduplicateStrings (items : list string) : list string :=
  snd (fold_left deduplicateStep items ([], [])).

End Utils.

(* ------------------------------------------------------------------ *)
(** ** parsers/claude: types.ts, parse.ts, extract.ts *)

Module Claude.

Module MessageType.
Definition User : string := "user".
Definition Assistant : string := "assistant".
End MessageType.

Module ContentType.
Definition Text : string := "text".
Definition ToolUse : string := "tool_use".
Definition ToolResult : string := "tool_result".
End ContentType.

(** [MessageUsage] *)
Record MessageUsage : Type := mkMessageUsage {
  input_tokens : Z;
  cache_creation_input_tokens : Z;
  cache_read_input_tokens : Z;
  output_tokens : Z
}.

(** A text block inside the content of a tool result:
    [{ type: string; text?: string }]. *)
Record TextBlock : Type := mkTextBlock {
  tb_type : string;
  tb_text : option string
}.

(** [block.content] of a tool result: an array of text blocks, a
    string, or anything else (absent included). *)
Inductive ResultContent : Type :=
| ResultBlocks (blocks : list TextBlock)
| ResultString (s : string)
| ResultOther.

(** [ContentBlock], with the members the modelled functions read. *)
Record ContentBlock : Type := mkContentBlock {
  block_type : string;
  block_text : option string;
  tool_use_id : option string;
  block_content : ResultContent
}.

(** [message.content]: a string, an array of blocks, or anything else
    (absent included). *)
Inductive MessageContent : Type :=
| ContentString (s : string)
| ContentBlocks (blocks : list ContentBlock)
| ContentOther.

(** [line.message] seen as [UserMessage], [AssistantMessage] or
    [MessageWithUsage]; every member may be missing. *)
Record Message : Type := mkMessage {
  msg_id : option string;
  msg_usage : option MessageUsage;
  msg_content : MessageContent
}.

(** [TranscriptLine]; a missing or [null] message is [None]. *)
Record TranscriptLine : Type := mkTranscriptLine {
  line_type : string;
  line_uuid : string;
  line_message : option Message
}.

(** The body of the first loop of [calculateTokenUsage]. *)
Definition recordUsage (usageByMessageId : StringMap.t MessageUsage)
    (line : TranscriptLine) : StringMap.t MessageUsage :=
  if negb (String.eqb (line_type line) MessageType.Assistant)
  then usageByMessageId
  else
    match line_message line with
    | None => usageByMessageId
    | Some msg =>
        match msg_id msg, msg_usage msg with
        | Some id, Some usage =>
            if String.eqb id EmptyString then usageByMessageId
            else
              match StringMap.get id usageByMessageId with
              | None => StringMap.set id usage usageByMessageId
              | Some existing =>
                  if output_tokens existing <? output_tokens usage
                  then StringMap.set id usage usageByMessageId
                  else usageByMessageId
              end
        | _, _ => usageByMessageId
        end
    end.

(** The body of the second loop of [calculateTokenUsage]. *)
Definition addMessageUsage (usage : TokenUsage) (u : MessageUsage)
    : TokenUsage :=
  mkTokenUsage
    (inputTokens usage + input_tokens u)
    (cacheCreationTokens usage + cache_creation_input_tokens u)
    (cacheReadTokens usage + cache_read_input_tokens u)
    (outputTokens usage + output_tokens u)
    (apiCallCount usage)
    (subagentTokens usage).

Definition calculateTokenUsage (lines : list TranscriptLine) : TokenUsage :=
  let usageByMessageId := fold_left recordUsage lines [] in
  let usage :=
    mkTokenUsage 0 0 0 0 (StringMap.size usageByMessageId) None in
  fold_left addMessageUsage (StringMap.values usageByMessageId) usage.

(** [/[a-zA-Z0-9]/.test(c)] *)
Definition isAlphaNumeric (c : ascii) : bool :=
  let n := nat_of_ascii c in
  ((97 <=? n)%nat && (n <=? 122)%nat)
  || ((65 <=? n)%nat && (n <=? 90)%nat)
  || ((48 <=? n)%nat && (n <=? 57)%nat).

(** The [while] loop of [extractAgentIdFromText] together with the
    final [slice]: the characters from [start] up to the first one that
    is not alphanumeric. *)
Fixpoint alphaNumericRun (s : string) : string :=
  match s with
  | EmptyString => EmptyString
  | String c s' =>
      if isAlphaNumeric c then String c (alphaNumericRun s') else EmptyString
  end.

Definition extractAgentIdFromText (text : string) : option string :=
  let prefix := "agentId: " in
  match String.index 0 prefix text with
  | None => None
  | Some idx =>
      let start := (idx + String.length prefix)%nat in
      match alphaNumericRun (slice_from start text) with
      | EmptyString => None
      | agentId => Some agentId
      end
  end.

(** The text gathered from an array of text blocks. *)
Fixpoint textOfBlocks (textContent : string) (blocks : list TextBlock)
    : string :=
  match blocks with
  | [] => textContent
  | tb :: rest =>
      match tb_text tb with
      | Some text =>
          if String.eqb (tb_type tb) "text" && negb (String.eqb text EmptyString)
          then textOfBlocks (textContent ++ text ++ LFs) rest
          else textOfBlocks textContent rest
      | None => textOfBlocks textContent rest
      end
  end.

(** The body of the inner loop of [extractSpawnedAgentIds]. *)
Definition recordAgentId (agentIds : StringMap.t string)
    (block : ContentBlock) : StringMap.t string :=
  if negb (String.eqb (block_type block) ContentType.ToolResult)
  then agentIds
  else
    let textContent :=
      match block_content block with
      | ResultBlocks blocks => textOfBlocks EmptyString blocks
      | ResultString s => s
      | ResultOther => EmptyString
      end in
    match extractAgentIdFromText textContent, tool_use_id block with
    | Some agentId, Some toolUseId =>
        if String.eqb toolUseId EmptyString then agentIds
        else StringMap.set agentId toolUseId agentIds
    | _, _ => agentIds
    end.

(** The body of the outer loop of [extractSpawnedAgentIds]. *)
Definition recordAgentIds (agentIds : StringMap.t string)
    (line : TranscriptLine) : StringMap.t string :=
  if negb (String.eqb (line_type line) MessageType.User) then agentIds
  else
    match line_message line with
    | Some msg =>
        match msg_content msg with
        | ContentBlocks blocks => fold_left recordAgentId blocks agentIds
        | _ => agentIds
        end
    | None => agentIds
    end.

Definition extractSpawnedAgentIds (lines : list TranscriptLine)
    : StringMap.t string :=
  fold_left recordAgentIds lines [].

(** [content.split("\n")] run through with [i] and [lineCount], which go
    together: [allLines] is what is left from index [i] on, so that
    [allLines.slice(i).join("\n")] is the join of [allLines]. *)
Fixpoint sliceFromLine_loop (startLine : Z) (allLines : list string)
    (lineCount : Z) : string :=
  match allLines with
  | [] => EmptyString
  | _ :: rest =>
      if lineCount =? startLine then join_LF allLines
      else sliceFromLine_loop startLine rest (lineCount + 1)
  end.

Definition sliceFromLine (content : string) (startLine : Z) : string :=
  match content with
  | EmptyString => content
  | _ =>
      if startLine <=? 0 then content
      else sliceFromLine_loop startLine (split_LF content) 0
  end.

(** [if (block.type === ContentType.Text && block.text) texts.push(block.text)],
    the body of the loops of [extractUserContent] and of
    [extractAssistantResponses] over the blocks. *)
Definition pushText (texts : list string) (block : ContentBlock)
    : list string :=
  if String.eqb (block_type block) ContentType.Text then
    match block_text block with
    | Some text =>
        if String.eqb text EmptyString then texts else (texts ++ [text])%list
    | None => texts
    end
  else texts.

(** [extractUserContent]; a message that is missing or not an object is
    [None]. *)
Definition extractUserContent (message : option Message) : string :=
  match message with
  | None => EmptyString
  | Some msg =>
      match msg_content msg with
      | ContentString s => Utils.stripIDEContextTags s
      | ContentBlocks blocks =>
          let texts := fold_left pushText blocks [] in
          if (0 <? length texts)%nat
          then Utils.stripIDEContextTags (String.concat (LFs ++ LFs) texts)
          else EmptyString
      | ContentOther => EmptyString
      end
  end.

(** The loop of [extractLastUserPrompt], which runs from the last line
    to the first: [reversed] is the lines from the current one back. *)
Fixpoint extractLastUserPrompt_loop (reversed : list TranscriptLine)
    : string :=
  match reversed with
  | [] => EmptyString
  | line :: earlier =>
      if negb (String.eqb (line_type line) MessageType.User)
      then extractLastUserPrompt_loop earlier
      else
        match extractUserContent (line_message line) with
        | EmptyString => extractLastUserPrompt_loop earlier
        | content => content
        end
  end.

Definition extractLastUserPrompt (lines : list TranscriptLine) : string :=
  extractLastUserPrompt_loop (rev lines).

(** The body of the loop of [extractAllUserPrompts]. *)
Definition pushPrompt (prompts : list string) (line : TranscriptLine)
    : list string :=
  if negb (String.eqb (line_type line) MessageType.User) then prompts
  else
    match extractUserContent (line_message line) with
    | EmptyString => prompts
    | content => (prompts ++ [content])%list
    end.

Definition extractAllUserPrompts (lines : list TranscriptLine)
    : list string :=
  fold_left pushPrompt lines [].

(** The body of the outer loop of [extractAssistantResponses]. *)
Definition pushResponses (texts : list string) (line : TranscriptLine)
    : list string :=
  if negb (String.eqb (line_type line) MessageType.Assistant) then texts
  else
    match line_message line with
    | Some msg =>
        match msg_content msg with
        | ContentBlocks blocks => fold_left pushText blocks texts
        | _ => texts
        end
    | None => texts
    end.

Definition extractAssistantResponses (lines : list TranscriptLine)
    : list string :=
  fold_left pushResponses lines [].

(** The loop of [truncateAtUUID]: [rest] is the lines from index [i]
    on. *)
Fixpoint truncateAtUUID_loop (lines rest : list TranscriptLine)
    (uuid : string) (i : nat) : list TranscriptLine :=
  match rest with
  | [] => lines
  | line :: rest' =>
      if String.eqb (line_uuid line) uuid then firstn (i + 1) lines
      else truncateAtUUID_loop lines rest' uuid (i + 1)
  end.

Definition truncateAtUUID (lines : list TranscriptLine) (uuid : string)
    : list TranscriptLine :=
  if String.eqb uuid EmptyString then lines
  else truncateAtUUID_loop lines lines uuid 0.

(** The loop of [filterAfterUUID]. *)
Fixpoint filterAfterUUID_loop (lines rest : list TranscriptLine)
    (uuid : string) (i : nat) : list TranscriptLine :=
  match rest with
  | [] => lines
  | line :: rest' =>
      if String.eqb (line_uuid line) uuid then skipn (i + 1) lines
      else filterAfterUUID_loop lines rest' uuid (i + 1)
  end.

Definition filterAfterUUID (lines : list TranscriptLine) (uuid : string)
    : list TranscriptLine :=
  if String.eqb uuid EmptyString then lines
  else filterAfterUUID_loop lines lines uuid 0.

(** The test of the inner loop of [findCheckpointUUID]:
    [block.type === ContentType.ToolResult && block.tool_use_id === toolUseId]. *)
Definition isResultOf (toolUseId : string) (block : ContentBlock) : bool :=
  String.eqb (block_type block) ContentType.ToolResult
  && match tool_use_id block with
     | Some id => String.eqb id toolUseId
     | None => false
     end.

(** [findCheckpointUUID]: [None] is [null]. The inner loop returns at
    the first block that passes the test. *)
Fixpoint findCheckpointUUID (lines : list TranscriptLine)
    (toolUseId : string) : option string :=
  match lines with
  | [] => None
  | line :: rest =>
      if negb (String.eqb (line_type line) MessageType.User)
      then findCheckpointUUID rest toolUseId
      else
        match line_message line with
        | Some msg =>
            match msg_content msg with
            | ContentBlocks blocks =>
                if existsb (isResultOf toolUseId) blocks
                then Some (line_uuid line)
                else findCheckpointUUID rest toolUseId
            | _ => findCheckpointUUID rest toolUseId
            end
        | None => findCheckpointUUID rest toolUseId
        end
  end.

(** [TranscriptPosition] as [getTranscriptPosition] returns it. *)
Record TranscriptPosition : Type := mkTranscriptPosition {
  lastUUID : string;
  lineCount : Z
}.

Section Host.

(** [JSON.parse(trimmed) as TranscriptLine]: [None] when the parse
    throws. *)
Variable JSON_parse : string -> option TranscriptLine.

(** The body of the loop of [parseFromString]. *)
Definition parseLine (lines : list TranscriptLine) (rawLine : string)
    : list TranscriptLine :=
  match trim rawLine with
  | EmptyString => lines
  | trimmed =>
      match JSON_parse trimmed with
      | Some parsed => (lines ++ [parsed])%list
      | None => lines
      end
  end.

Definition parseFromString (content : string) : list TranscriptLine :=
  fold_left parseLine (split_LF content) [].

(** The body of the loop of [parseFromStringAtLine] on the pair
    [(lines, totalLines)]. *)
Definition parseLineAt (startLine : Z)
    (state : list TranscriptLine * Z) (rawLine : string)
    : list TranscriptLine * Z :=
  let (lines, totalLines) := state in
  match trim rawLine with
  | EmptyString => (lines, totalLines)
  | trimmed =>
      if startLine <=? totalLines then
        match JSON_parse trimmed with
        | Some parsed => ((lines ++ [parsed])%list, totalLines + 1)
        | None => (lines, totalLines + 1)
        end
      else (lines, totalLines + 1)
  end.

Definition parseFromStringAtLine (content : string) (startLine : Z)
    : list TranscriptLine * Z :=
  fold_left (parseLineAt startLine) (split_LF content) ([], 0).

(** The body of the loop of [getTranscriptPosition]. *)
Definition recordPosition (position : TranscriptPosition) (rawLine : string)
    : TranscriptPosition :=
  match trim rawLine with
  | EmptyString => position
  | trimmed =>
      let counted :=
        mkTranscriptPosition (lastUUID position) (lineCount position + 1) in
      match JSON_parse trimmed with
      | Some line =>
          if String.eqb (line_uuid line) EmptyString then counted
          else mkTranscriptPosition (line_uuid line) (lineCount counted)
      | None => counted
      end
  end.

Definition getTranscriptPosition (content : string) : TranscriptPosition :=
  fold_left recordPosition (split_LF content)
    (mkTranscriptPosition EmptyString 0).

End Host.

Section Serialize.

(** [JSON.stringify(line)] *)
Variable JSON_stringify : TranscriptLine -> string.

Definition serializeTranscript (lines : list TranscriptLine) : string :=
  join_LF (map JSON_stringify lines) ++ LFs.

End Serialize.

(** *** Subagent transcripts

    [calculateTotalTokenUsage] parses the text that the loader brings
    from outside. The cast [as TranscriptLine] of [parseFromString]
    checks nothing: a line that holds the JSON value [null] is pushed as
    [null], and [calculateTokenUsage] then throws a [TypeError] when it
    reads [line.type]. Any other JSON value has members to read, the
    absent ones as [undefined], and goes through as a [TranscriptLine]. *)
Module Unchecked.

Section Host.

(** [JSON.parse(trimmed)]: [None] when the parse throws, [Some None]
    when it returns [null], [Some (Some line)] when it returns any other
    value. *)
Variable JSON_parse : string -> option (option TranscriptLine).

(** The body of the loop of [parseFromString]. *)
Definition parseLine (lines : list (option TranscriptLine))
    (rawLine : string) : list (option TranscriptLine) :=
  match trim rawLine with
  | EmptyString => lines
  | trimmed =>
      match JSON_parse trimmed with
      | Some parsed => (lines ++ [parsed])%list
      | None => lines
      end
  end.

Definition parseFromString (content : string)
    : list (option TranscriptLine) :=
  fold_left parseLine (split_LF content) [].

End Host.

(** The first loop of [calculateTokenUsage]: [line.type] of a line that
    is [null] throws. *)
Fixpoint recordUsages (usageByMessageId : StringMap.t MessageUsage)
    (lines : list (option TranscriptLine))
    : outcome exception (StringMap.t MessageUsage) :=
  match lines with
  | [] => Returned usageByMessageId
  | None :: _ => Thrown TypeError
  | Some line :: rest => recordUsages (recordUsage usageByMessageId line) rest
  end.

Definition calculateTokenUsage (lines : list (option TranscriptLine))
    : outcome exception TokenUsage :=
  match recordUsages [] lines with
  | Thrown e => Thrown e
  | Returned usageByMessageId =>
      let usage :=
        mkTokenUsage 0 0 0 0 (StringMap.size usageByMessageId) None in
      Returned
        (fold_left addMessageUsage (StringMap.values usageByMessageId) usage)
  end.

End Unchecked.

Section Subagents.

Variable JSON_parse : string -> option (option TranscriptLine).

(** The body of the loop of [calculateTotalTokenUsage] on the pair
    [(subagentUsage, hasSubagentData)]. *)
Definition addSubagent (loadSubagentTranscript : string -> option string)
    (state : TokenUsage * bool) (agentId : string)
    : outcome exception (TokenUsage * bool) :=
  let (subagentUsage, hasSubagentData) := state in
  match loadSubagentTranscript agentId with
  | None => Returned state
  | Some EmptyString => Returned state
  | Some content =>
      let subLines := Unchecked.parseFromString JSON_parse content in
      match Unchecked.calculateTokenUsage subLines with
      | Thrown e => Thrown e
      | Returned agentUsage =>
          Returned
            (mkTokenUsage
               (inputTokens subagentUsage + inputTokens agentUsage)
               (cacheCreationTokens subagentUsage
                + cacheCreationTokens agentUsage)
               (cacheReadTokens subagentUsage + cacheReadTokens agentUsage)
               (outputTokens subagentUsage + outputTokens agentUsage)
               (apiCallCount subagentUsage + apiCallCount agentUsage)
               (subagentTokens subagentUsage),
             true)
      end
  end.

(** The loop of [calculateTotalTokenUsage] over [agentIds.keys()]: a
    throw ends it. *)
Fixpoint addSubagents (loadSubagentTranscript : string -> option string)
    (agentIds : list string) (state : TokenUsage * bool)
    : outcome exception (TokenUsage * bool) :=
  match agentIds with
  | [] => Returned state
  | agentId :: rest =>
      match addSubagent loadSubagentTranscript state agentId with
      | Thrown e => Thrown e
      | Returned state' => addSubagents loadSubagentTranscript rest state'
      end
  end.

Definition calculateTotalTokenUsage (lines : list TranscriptLine)
    (loadSubagentTranscript : string -> option string)
    : outcome exception TokenUsage :=
  let mainUsage := calculateTokenUsage lines in
  let agentIds := extractSpawnedAgentIds lines in
  if 0 <? StringMap.size agentIds then
    match addSubagents loadSubagentTranscript (StringMap.keys agentIds)
            (emptyTokenUsage, false) with
    | Thrown e => Thrown e
    | Returned (subagentUsage, hasSubagentData) =>
        if hasSubagentData then
          Returned
            (mkTokenUsage (inputTokens mainUsage)
               (cacheCreationTokens mainUsage) (cacheReadTokens mainUsage)
               (outputTokens mainUsage) (apiCallCount mainUsage)
               (Some subagentUsage))
        else Returned mainUsage
    end
  else Returned mainUsage.

End Subagents.

End Claude.

(* ------------------------------------------------------------------ *)
(** ** parsers/gemini: types.ts, extract.ts *)

Module Gemini.

Module MessageType.
Definition User : string := "user".
Definition Gemini : string := "gemini".
End MessageType.

(** [GeminiMessageTokens] *)
Record GeminiMessageTokens : Type := mkGeminiMessageTokens {
  input : Z;
  output : Z;
  cached : Z;
  thoughts : Z;
  tool : Z;
  total : Z
}.

(** [GeminiToolCall] *)
Record GeminiToolCall : Type := mkGeminiToolCall {
  call_id : string;
  call_name : string;
  call_args : list (string * json);
  call_status : option string
}.

(** [GeminiMessage] *)
Record GeminiMessage : Type := mkGeminiMessage {
  msg_id : option string;
  msg_type : string;
  msg_content : string;
  toolCalls : option (list GeminiToolCall);
  tokens : option GeminiMessageTokens
}.

(** [GeminiTranscript] *)
Record GeminiTranscript : Type := mkGeminiTranscript {
  messages : list GeminiMessage
}.

(** The body of the loop of [calculateTokenUsage]. *)
Definition addMessage (usage : TokenUsage) (msg : GeminiMessage)
    : TokenUsage :=
  if negb (String.eqb (msg_type msg) MessageType.Gemini) then usage
  else
    match tokens msg with
    | None => usage
    | Some t =>
        mkTokenUsage
          (inputTokens usage + input t)
          (cacheCreationTokens usage)
          (cacheReadTokens usage + cached t)
          (outputTokens usage + output t)
          (apiCallCount usage + 1)
          (subagentTokens usage)
    end.

(** The loop starts at [i = startMessageIndex]; a negative index passes
    the test [i < messages.length], reads [undefined] and the access to
    its [type] throws. *)
Definition calculateTokenUsage (transcript : GeminiTranscript)
    (startMessageIndex : Z) : outcome exception TokenUsage :=
  if startMessageIndex <? 0 then Thrown TypeError
  else
    Returned
      (fold_left addMessage
         (skipn (Z.to_nat startMessageIndex) (messages transcript))
         emptyTokenUsage).

(** [FileModificationTools] of [parsers/gemini/types.ts] *)
Definition FileModificationTools : list string :=
  ["write_file"; "edit_file"; "save_file"; "replace"].

(** [toolCall.args.k as string]: the member read as the string the cast
    declares. A member that is missing reads as the empty string, which
    [||] treats alike; a member that is not a string is outside what the
    cast declares and reads the same way. *)
Definition stringArg (k : string) (args : list (string * json)) : string :=
  match lookup k args with
  | Some (JString s) => s
  | _ => EmptyString
  end.

(** [args.file_path || args.path || args.filename], or the empty string. *)
Definition fileOf (toolCall : GeminiToolCall) : string :=
  let args := call_args toolCall in
  match stringArg "file_path" args with
  | EmptyString =>
      match stringArg "path" args with
      | EmptyString => stringArg "filename" args
      | file => file
      end
  | file => file
  end.

(** The body of the inner loop of [extractModifiedFiles] on the pair
    [(fileSet, files)]; the [Set] is the list of its members. *)
Definition recordFile (state : list string * list string)
    (toolCall : GeminiToolCall) : list string * list string :=
  let (fileSet, files) := state in
  if negb (existsb (String.eqb (call_name toolCall)) FileModificationTools)
  then state
  else
    let file := fileOf toolCall in
    if negb (String.eqb file EmptyString)
       && negb (existsb (String.eqb file) fileSet)
    then ((fileSet ++ [file])%list, (files ++ [file])%list)
    else state.

(** The body of the outer loop of [extractModifiedFiles]. *)
Definition recordFiles (state : list string * list string)
    (msg : GeminiMessage) : list string * list string :=
  if negb (String.eqb (msg_type msg) MessageType.Gemini) then state
  else
    match toolCalls msg with
    | None => state
    | Some calls => fold_left recordFile calls state
    end.

Definition extractModifiedFiles (transcript : GeminiTranscript)
    : list string :=
  snd (fold_left recordFiles (messages transcript) ([], [])).

(** The loops of [extractLastUserPrompt] and
    [extractLastAssistantMessage], which run from the last message to
    the first, looking for a message of type [wanted] with a content:
    [reversed] is the messages from the current one back. *)
Fixpoint lastContent_loop (wanted : string) (reversed : list GeminiMessage)
    : string :=
  match reversed with
  | [] => EmptyString
  | msg :: earlier =>
      if String.eqb (msg_type msg) wanted
         && negb (String.eqb (msg_content msg) EmptyString)
      then msg_content msg
      else lastContent_loop wanted earlier
  end.

Definition extractLastUserPrompt (transcript : GeminiTranscript) : string :=
  lastContent_loop MessageType.User (rev (messages transcript)).

(** The body of the loop of [extractAllUserPrompts]. *)
Definition pushPrompt (prompts : list string) (msg : GeminiMessage)
    : list string :=
  if String.eqb (msg_type msg) MessageType.User
     && negb (String.eqb (msg_content msg) EmptyString)
  then (prompts ++ [msg_content msg])%list
  else prompts.

Definition extractAllUserPrompts (transcript : GeminiTranscript)
    : list string :=
  fold_left pushPrompt (messages transcript) [].

Definition extractLastAssistantMessage (transcript : GeminiTranscript)
    : string :=
  lastContent_loop MessageType.Gemini (rev (messages transcript)).

(** *** parsers/gemini/parse.ts

    Here a message is the JavaScript object itself, and a transcript
    [{ messages }] is given by the list of its messages. *)

(** The body of the loop of [parseTranscript] over the parts of an
    array content: what it pushes for one part. *)
Definition textOfPart (part : json) : list json :=
  match part with
  | JObject members =>
      match lookup "text" members with
      | Some text => if truthy text then [text] else []
      | None => []
      end
  | _ => []
  end.

(** [msg.content] as [parseTranscript] sets it from [rawMsg.content]. *)
Definition contentOf (rawContent : option json) : string :=
  match rawContent with
  | Some (JString content) => content
  | Some (JArray parts) =>
      String.concat LFs (map toString (flat_map textOfPart parts))
  | _ => EmptyString
  end.

(** The callback of [map] in [parseTranscript]; reading a member of
    [null] throws. *)
Definition convertMessage (rawMsg : json) : outcome exception json :=
  match rawMsg with
  | JNull => Thrown TypeError
  | _ =>
      Returned
        (JObject
           (definedMember "id" (member "id" rawMsg)
            ++ definedMember "type" (member "type" rawMsg)
            ++ [("content", JString (contentOf (member "content" rawMsg)))]
            ++ definedMember "toolCalls" (member "toolCalls" rawMsg)
            ++ definedMember "tokens" (member "tokens" rawMsg))%list)
  end.

(** [rawMsgs.map(callback)] with a callback that can throw. *)
Fixpoint convertMessages (rawMsgs : list json)
    : outcome exception (list json) :=
  match rawMsgs with
  | [] => Returned []
  | rawMsg :: rest =>
      match convertMessage rawMsg with
      | Thrown e => Thrown e
      | Returned msg =>
          match convertMessages rest with
          | Thrown e => Thrown e
          | Returned msgs => Returned (msg :: msgs)
          end
      end
  end.

Section Host.

(** [JSON.parse]: [None] when it throws a [SyntaxError]. *)
Variable JSON_parse : string -> option json.
(** [JSON.stringify] *)
Variable JSON_stringify : json -> string.

(** [(raw.messages || []).map(...)]: a [messages] member that is truthy
    and not an array has no [map]. *)
Definition parseTranscript (data : string) : outcome exception (list json) :=
  match JSON_parse data with
  | None => Thrown SyntaxError
  | Some JNull => Thrown TypeError
  | Some raw =>
      match member "messages" raw with
      | Some rawMessages =>
          if truthy rawMessages then
            match rawMessages with
            | JArray rawMsgs => convertMessages rawMsgs
            | _ => Thrown TypeError
            end
          else Returned []
      | None => Returned []
      end
  end.

Definition sliceFromMessage (data : string) (startMessageIndex : Z)
    : outcome exception string :=
  match data with
  | EmptyString => Returned data
  | _ =>
      if startMessageIndex <=? 0 then Returned data
      else
        match parseTranscript data with
        | Thrown e => Thrown e
        | Returned messages =>
            if Z.of_nat (length messages) <=? startMessageIndex
            then Returned (JSON_stringify (JObject [("messages", JArray [])]))
            else
              Returned
                (JSON_stringify
                   (JObject
                      [("messages",
                        JArray (skipn (Z.to_nat startMessageIndex) messages))]))
        end
  end.

Definition serializeTranscript (messages : list json) : string :=
  JSON_stringify (JObject [("messages", JArray messages)]).

End Host.

End Gemini.

(* ------------------------------------------------------------------ *)
(** ** A reference codec for the host's JSON

    [RefJSON.parse] and [RefJSON.stringify] stand for [JSON.parse] and
    [JSON.stringify] in the examples. They cover the JSON texts whose
    numbers are integer literals and whose characters are code units
    below 256; [stringify] prints without white space, as
    [JSON.stringify] does with one argument. *)

Module RefJSON.

Definition BS : ascii := "092"%char.
Definition BSs : string := String BS EmptyString.

Definition hexDigit (n : nat) : ascii :=
  if (n <? 10)%nat then ascii_of_nat (48 + n) else ascii_of_nat (87 + n).

(** One character inside a string literal. *)
Definition escapeChar (c : ascii) : string :=
  let n := nat_of_ascii c in
  if (n =? 34)%nat then BSs ++ DQs
  else if (n =? 92)%nat then BSs ++ BSs
  else if (n =? 8)%nat then BSs ++ "b"
  else if (n =? 9)%nat then BSs ++ "t"
  else if (n =? 10)%nat then BSs ++ "n"
  else if (n =? 12)%nat then BSs ++ "f"
  else if (n =? 13)%nat then BSs ++ "r"
  else if (n <? 32)%nat then
    BSs ++ "u00" ++ String (hexDigit (n / 16)) (String (hexDigit (n mod 16)) EmptyString)
  else String c EmptyString.

Fixpoint quoteBody (s : string) : string :=
  match s with
  | EmptyString => EmptyString
  | String c s' => escapeChar c ++ quoteBody s'
  end.

Definition quote (s : string) : string := DQs ++ quoteBody s ++ DQs.

Fixpoint stringify (v : json) : string :=
  match v with
  | JNull => "null"
  | JBool true => "true"
  | JBool false => "false"
  | JNumber n => numToString n
  | JString s => quote s
  | JArray items =>
      "[" ++ (fix elements (l : list json) : string :=
                match l with
                | [] => EmptyString
                | x :: r =>
                    match r with
                    | [] => stringify x
                    | _ => stringify x ++ "," ++ elements r
                    end
                end) items ++ "]"
  | JObject members =>
      "{" ++ (fix pairs (l : list (string * json)) : string :=
                match l with
                | [] => EmptyString
                | (k, x) :: r =>
                    match r with
                    | [] => quote k ++ ":" ++ stringify x
                    | _ => quote k ++ ":" ++ stringify x ++ "," ++ pairs r
                    end
                end) members ++ "}"
  end.

Definition isJSONSpace (c : ascii) : bool :=
  let n := nat_of_ascii c in
  (n =? 32)%nat || (n =? 9)%nat || (n =? 10)%nat || (n =? 13)%nat.

Fixpoint skipWS (s : string) : string :=
  match s with
  | EmptyString => EmptyString
  | String c s' => if isJSONSpace c then skipWS s' else s
  end.

Definition hexValue (c : ascii) : option nat :=
  let n := nat_of_ascii c in
  if (48 <=? n)%nat && (n <=? 57)%nat then Some (n - 48)%nat
  else if (97 <=? n)%nat && (n <=? 102)%nat then Some (n - 87)%nat
  else if (65 <=? n)%nat && (n <=? 70)%nat then Some (n - 55)%nat
  else None.

Definition hex4 (a b c d : ascii) : option nat :=
  match hexValue a, hexValue b, hexValue c, hexValue d with
  | Some x, Some y, Some z, Some w => Some (((x * 16 + y) * 16 + z) * 16 + w)%nat
  | _, _, _, _ => None
  end.

(** The character a one-letter escape stands for. *)
Definition unescape (e : ascii) : option ascii :=
  let n := nat_of_ascii e in
  if (n =? 34)%nat then Some DQ
  else if (n =? 92)%nat then Some BS
  else if (n =? 47)%nat then Some "/"%char
  else if (n =? 98)%nat then Some "008"%char
  else if (n =? 116)%nat then Some "009"%char
  else if (n =? 110)%nat then Some "010"%char
  else if (n =? 102)%nat then Some "012"%char
  else if (n =? 114)%nat then Some "013"%char
  else None.

Definition consChar (c : ascii) (r : option (string * string))
    : option (string * string) :=
  match r with
  | Some (body, rest) => Some (String c body, rest)
  | None => None
  end.

(** A string literal after its opening quote: the decoded text and
    what follows the closing quote. *)
Fixpoint parseStringBody (s : string) : option (string * string) :=
  match s with
  | EmptyString => None
  | String c s' =>
      if Ascii.eqb c DQ then Some (EmptyString, s')
      else if Ascii.eqb c BS then
        match s' with
        | EmptyString => None
        | String e s'' =>
            if Ascii.eqb e "u"%char then
              match s'' with
              | String h1 (String h2 (String h3 (String h4 t))) =>
                  match hex4 h1 h2 h3 h4 with
                  | Some n =>
                      if (n <? 256)%nat
                      then consChar (ascii_of_nat n) (parseStringBody t)
                      else None
                  | None => None
                  end
              | _ => None
              end
            else
              match unescape e with
              | Some ch => consChar ch (parseStringBody s'')
              | None => None
              end
        end
      else if (nat_of_ascii c <? 32)%nat then None
      else consChar c (parseStringBody s')
  end.

Fixpoint dropDigits (s : string) : string :=
  match s with
  | EmptyString => EmptyString
  | String c s' => if isDigit c then dropDigits s' else s
  end.

Definition startsFraction (s : string) : bool :=
  match s with
  | String c _ =>
      Ascii.eqb c "."%char || Ascii.eqb c "e"%char || Ascii.eqb c "E"%char
  | EmptyString => false
  end.

(** An integer literal: no leading zero before another digit, and no
    fraction or exponent (those are outside the modelled texts). *)
Definition parseDigits (s : string) : option (Z * string) :=
  match s with
  | String c t =>
      if negb (isDigit c) then None
      else if Ascii.eqb c "0"%char && headIsDigit t then None
      else if startsFraction (dropDigits s) then None
      else Some (readDigits 0 s, dropDigits s)
  | EmptyString => None
  end.

Definition parseNumber (s : string) : option (Z * string) :=
  match s with
  | String "-"%char t =>
      match parseDigits t with
      | Some (n, rest) => Some (- n, rest)
      | None => None
      end
  | _ => parseDigits s
  end.

(** An object member read twice keeps its place and takes the later
    value. *)
Fixpoint setMember (k : string) (v : json) (members : list (string * json))
    : list (string * json) :=
  match members with
  | [] => [(k, v)]
  | (k', v') :: rest =>
      if String.eqb k k' then (k, v) :: rest
      else (k', v') :: setMember k v rest
  end.

(** Recursive descent; [fuel] bounds the depth of the calls. *)
Fixpoint parseValue (fuel : nat) (s : string) : option (json * string) :=
  match fuel with
  | O => None
  | S fuel' =>
      match skipWS s with
      | EmptyString => None
      | String c t as s1 =>
          if Ascii.eqb c "{"%char then
            match skipWS t with
            | String "}"%char t' => Some (JObject [], t')
            | t1 => parseMembers fuel' t1 []
            end
          else if Ascii.eqb c "["%char then
            match skipWS t with
            | String "]"%char t' => Some (JArray [], t')
            | t1 => parseElements fuel' t1 []
            end
          else if Ascii.eqb c DQ then
            match parseStringBody t with
            | Some (text, rest) => Some (JString text, rest)
            | None => None
            end
          else if startsWith s1 "true" then Some (JBool true, slice_from 4 s1)
          else if startsWith s1 "false" then Some (JBool false, slice_from 5 s1)
          else if startsWith s1 "null" then Some (JNull, slice_from 4 s1)
          else
            match parseNumber s1 with
            | Some (n, rest) => Some (JNumber n, rest)
            | None => None
            end
      end
  end
with parseElements (fuel : nat) (s : string) (acc : list json)
    : option (json * string) :=
  match fuel with
  | O => None
  | S fuel' =>
      match parseValue fuel' s with
      | None => None
      | Some (v, rest) =>
          match skipWS rest with
          | String ","%char t => parseElements fuel' t (acc ++ [v])%list
          | String "]"%char t => Some (JArray (acc ++ [v])%list, t)
          | _ => None
          end
      end
  end
with parseMembers (fuel : nat) (s : string) (acc : list (string * json))
    : option (json * string) :=
  match fuel with
  | O => None
  | S fuel' =>
      match skipWS s with
      | String c t =>
          if negb (Ascii.eqb c DQ) then None
          else
            match parseStringBody t with
            | None => None
            | Some (key, rest) =>
                match skipWS rest with
                | String ":"%char t1 =>
                    match parseValue fuel' t1 with
                    | None => None
                    | Some (v, rest1) =>
                        match skipWS rest1 with
                        | String ","%char t2 =>
                            parseMembers fuel' t2 (setMember key v acc)
                        | String "}"%char t2 =>
                            Some (JObject (setMember key v acc), t2)
                        | _ => None
                        end
                    end
                | _ => None
                end
            end
      | EmptyString => None
      end
  end.

Definition parse (text : string) : option json :=
  match parseValue (2 * String.length text + 2) text with
  | Some (v, rest) =>
      match skipWS rest with
      | EmptyString => Some v
      | _ => None
      end
  | None => None
  end.

(** *** The cast [as TranscriptLine]

    Reading a parsed value through the interfaces of
    [parsers/claude/types.ts]. A member that is missing, or not of the
    declared type, reads as absent. *)

Definition stringMember (k : string) (v : json) : option string :=
  match member k v with
  | Some (JString s) => Some s
  | _ => None
  end.

Definition stringOr (d : string) (o : option string) : string :=
  match o with
  | Some s => s
  | None => d
  end.

Definition asMessageUsage (v : json) : option Claude.MessageUsage :=
  match member "input_tokens" v, member "cache_creation_input_tokens" v,
        member "cache_read_input_tokens" v, member "output_tokens" v with
  | Some (JNumber a), Some (JNumber b), Some (JNumber c), Some (JNumber d) =>
      Some (Claude.mkMessageUsage a b c d)
  | _, _, _, _ => None
  end.

Definition asTextBlock (v : json) : Claude.TextBlock :=
  Claude.mkTextBlock (stringOr EmptyString (stringMember "type" v))
    (stringMember "text" v).

Definition asResultContent (o : option json) : Claude.ResultContent :=
  match o with
  | Some (JArray items) => Claude.ResultBlocks (map asTextBlock items)
  | Some (JString s) => Claude.ResultString s
  | _ => Claude.ResultOther
  end.

Definition asContentBlock (v : json) : Claude.ContentBlock :=
  Claude.mkContentBlock (stringOr EmptyString (stringMember "type" v))
    (stringMember "text" v) (stringMember "tool_use_id" v)
    (asResultContent (member "content" v)).

Definition asMessageContent (o : option json) : Claude.MessageContent :=
  match o with
  | Some (JString s) => Claude.ContentString s
  | Some (JArray items) => Claude.ContentBlocks (map asContentBlock items)
  | _ => Claude.ContentOther
  end.

Definition asMessage (o : option json) : option Claude.Message :=
  match o with
  | None => None
  | Some JNull => None
  | Some v =>
      Some (Claude.mkMessage (stringMember "id" v)
              match member "usage" v with
              | Some u => asMessageUsage u
              | None => None
              end
              (asMessageContent (member "content" v)))
  end.

Definition asTranscriptLine (v : json) : Claude.TranscriptLine :=
  Claude.mkTranscriptLine (stringOr EmptyString (stringMember "type" v))
    (stringOr EmptyString (stringMember "uuid" v))
    (asMessage (member "message" v)).

(** [JSON.parse(trimmed) as TranscriptLine] *)
Definition parseTranscriptLine (text : string)
    : option Claude.TranscriptLine :=
  match parse text with
  | Some v => Some (asTranscriptLine v)
  | None => None
  end.

(** [JSON.parse(trimmed)] with the value [null] told apart. *)
Definition parseUncheckedLine (text : string)
    : option (option Claude.TranscriptLine) :=
  match parse text with
  | Some JNull => Some None
  | Some v => Some (Some (asTranscriptLine v))
  | None => None
  end.

(** The elements of an array as [stringify] prints them, with a comma
    between two of them. *)
Fixpoint elementsText (l : list json) : string :=
  match l with
  | [] => EmptyString
  | x :: r =>
      match r with
      | [] => stringify x
      | _ => stringify x ++ "," ++ elementsText r
      end
  end.

(** *** The values behind the interfaces

    A record of [parsers/claude/types.ts] as the JavaScript object it
    stands for: a member that is absent in the record is absent in the
    object. *)

Definition optionalMember {A : Type} (k : string) (toJSON : A -> json)
    (o : option A) : list (string * json) :=
  match o with
  | Some a => [(k, toJSON a)]
  | None => []
  end.

Definition ofMessageUsage (u : Claude.MessageUsage) : json :=
  JObject [ ("input_tokens", JNumber (Claude.input_tokens u));
            ("cache_creation_input_tokens",
             JNumber (Claude.cache_creation_input_tokens u));
            ("cache_read_input_tokens",
             JNumber (Claude.cache_read_input_tokens u));
            ("output_tokens", JNumber (Claude.output_tokens u)) ].

Definition ofTextBlock (tb : Claude.TextBlock) : json :=
  JObject (("type", JString (Claude.tb_type tb))
           :: optionalMember "text" JString (Claude.tb_text tb)).

Definition ofResultContent (c : Claude.ResultContent)
    : list (string * json) :=
  match c with
  | Claude.ResultBlocks blocks => [("content", JArray (map ofTextBlock blocks))]
  | Claude.ResultString s => [("content", JString s)]
  | Claude.ResultOther => []
  end.

Definition ofContentBlock (b : Claude.ContentBlock) : json :=
  JObject (("type", JString (Claude.block_type b))
           :: optionalMember "text" JString (Claude.block_text b)
           ++ optionalMember "tool_use_id" JString (Claude.tool_use_id b)
           ++ ofResultContent (Claude.block_content b))%list.

Definition ofMessageContent (c : Claude.MessageContent)
    : list (string * json) :=
  match c with
  | Claude.ContentString s => [("content", JString s)]
  | Claude.ContentBlocks blocks =>
      [("content", JArray (map ofContentBlock blocks))]
  | Claude.ContentOther => []
  end.

Definition ofMessage (m : Claude.Message) : json :=
  JObject (optionalMember "id" JString (Claude.msg_id m)
           ++ optionalMember "usage" ofMessageUsage (Claude.msg_usage m)
           ++ ofMessageContent (Claude.msg_content m))%list.

Definition ofTranscriptLine (line : Claude.TranscriptLine) : json :=
  JObject (("type", JString (Claude.line_type line))
           :: ("uuid", JString (Claude.line_uuid line))
           :: optionalMember "message" ofMessage (Claude.line_message line)).

(** [JSON.stringify(line)] *)
Definition stringifyTranscriptLine (line : Claude.TranscriptLine) : string :=
  stringify (ofTranscriptLine line).

End RefJSON.

(* ------------------------------------------------------------------ *)
(** ** Vocabulary of the statements *)

Module Vocabulary.

(** Every line followed by a line feed: what [currentChunk] holds once
    the lines of a group have gone through [currentChunk += line + "\n"]. *)
Fixpoint linesWithLF (lines : list string) : string :=
  match lines with
  | [] => EmptyString
  | l :: rest => l ++ LFs ++ linesWithLF rest
  end.

(** The lines [chunkJSONL] goes through: none for the empty content (it
    returns before splitting), otherwise the pieces between line feeds. *)
Definition scannedLines (content : string) : list string :=
  match content with
  | EmptyString => []
  | _ => split_LF content
  end.

(** A line together with its separator goes over the threshold. *)
Definition overlong (maxSize : Z) (line : string) : Prop :=
  maxSize < len line + 1.

(** The chunks sealed so far, followed by the chunk that the lines still
    to be sealed will make. *)
Definition pending (chunks : list string) (group : list string)
    : list string :=
  match group with
  | [] => chunks
  | _ => (chunks ++ [join_LF group])%list
  end.

(** The token payloads that count in a Gemini transcript: those of the
    messages of type ["gemini"] that carry one, in order. *)
Definition countedTokens (msgs : list Gemini.GeminiMessage)
    : list Gemini.GeminiMessageTokens :=
  flat_map
    (fun msg =>
       if String.eqb (Gemini.msg_type msg) Gemini.MessageType.Gemini
       then match Gemini.tokens msg with
            | Some t => [t]
            | None => []
            end
       else [])
    msgs.

(** The sum of one numeric field over a list. *)
Definition sumOf {A : Type} (field : A -> Z) (rows : list A) : Z :=
  fold_right Z.add 0 (map field rows).

(** A message whose payload, if any, has its [thoughts], [tool] and
    [total] fields replaced. *)
Definition retouch (other : Gemini.GeminiMessage -> Z * Z * Z)
    (msg : Gemini.GeminiMessage) : Gemini.GeminiMessage :=
  Gemini.mkGeminiMessage (Gemini.msg_id msg) (Gemini.msg_type msg)
    (Gemini.msg_content msg) (Gemini.toolCalls msg)
    match Gemini.tokens msg with
    | Some t =>
        let '(thoughts', tool', total') := other msg in
        Some (Gemini.mkGeminiMessageTokens (Gemini.input t) (Gemini.output t)
                (Gemini.cached t) thoughts' tool' total')
    | None => None
    end.

(** The usage row of a transcript line: the message id and the usage
    payload of an assistant line that carries both (an empty id counts
    as none). *)
Definition usageRow (line : Claude.TranscriptLine)
    : option (string * Claude.MessageUsage) :=
  if String.eqb (Claude.line_type line) Claude.MessageType.Assistant then
    match Claude.line_message line with
    | Some msg =>
        match Claude.msg_id msg, Claude.msg_usage msg with
        | Some id, Some usage =>
            if String.eqb id EmptyString then None else Some (id, usage)
        | _, _ => None
        end
    | None => None
    end
  else None.

Definition usageRows (lines : list Claude.TranscriptLine)
    : list (string * Claude.MessageUsage) :=
  flat_map
    (fun line => match usageRow line with
                 | Some row => [row]
                 | None => []
                 end)
    lines.

(** The rows that share one message id, in the order of the transcript. *)
Definition rowsOf (id : string) (rows : list (string * Claude.MessageUsage))
    : list Claude.MessageUsage :=
  map snd (filter (fun row => String.eqb (fst row) id) rows).

(** [u] is the first row of [rows] with the largest [output_tokens]:
    every row before it has strictly fewer, no row after it has more. *)
Definition firstMaximum (rows : list Claude.MessageUsage)
    (u : Claude.MessageUsage) : Prop :=
  exists before after : list Claude.MessageUsage,
    rows = (before ++ u :: after)%list
    /\ Forall (fun r => Claude.output_tokens r < Claude.output_tokens u) before
    /\ Forall (fun r => Claude.output_tokens r <= Claude.output_tokens u) after.

(** The distinct strings of a list, each at the place of its first
    occurrence. *)
Definition firstSeen (ids : list string) : list string :=
  fold_left
    (fun seen id =>
       if existsb (String.eqb id) seen then seen else (seen ++ [id])%list)
    ids [].

(** One step of the deduplication, on a usage row. *)
Definition keepLarger (usageByMessageId : StringMap.t Claude.MessageUsage)
    (row : string * Claude.MessageUsage) : StringMap.t Claude.MessageUsage :=
  let (id, usage) := row in
  match StringMap.get id usageByMessageId with
  | None => StringMap.set id usage usageByMessageId
  | Some existing =>
      if Claude.output_tokens existing <? Claude.output_tokens usage
      then StringMap.set id usage usageByMessageId
      else usageByMessageId
  end.

(** The lines of a content that are not blank, trimmed: what is left of
    a line after [trim] is not empty. *)
Definition nonBlankLines (lines : list string) : list string :=
  filter (fun trimmed => negb (String.eqb trimmed EmptyString))
    (map trim lines).

(** The records of the lines that parse, in order. *)
Definition wellFormedRecords {R : Type} (JSON_parse : string -> option R)
    (lines : list string) : list R :=
  flat_map
    (fun trimmed => match JSON_parse trimmed with
                    | Some parsed => [parsed]
                    | None => []
                    end)
    lines.

(** [s.repeat(n)] for a one-character string, used by the examples. *)
Fixpoint repeatChar (c : ascii) (n : nat) : string :=
  match n with
  | O => EmptyString
  | S k => String c (repeatChar c k)
  end.

(** The transcripts a loader delivers for a list of identifiers, in
    order: an identifier for which it answers [null] or the empty
    string delivers nothing. *)
Definition loadedTranscripts (loadSubagentTranscript : string -> option string)
    (agentIds : list string) : list string :=
  flat_map
    (fun agentId => match loadSubagentTranscript agentId with
                    | Some EmptyString => []
                    | Some content => [content]
                    | None => []
                    end)
    agentIds.

(** The usage of each transcript a loader delivers. *)
Definition subagentUsages
    (JSON_parse : string -> option Claude.TranscriptLine)
    (loadSubagentTranscript : string -> option string)
    (agentIds : list string) : list TokenUsage :=
  map (fun content =>
         Claude.calculateTokenUsage (Claude.parseFromString JSON_parse content))
    (loadedTranscripts loadSubagentTranscript agentIds).

(** The lines that a parser of unchecked values gives: a text that it
    parses to a value other than [null] is a line. *)
Definition checkedLine
    (JSON_parse : string -> option (option Claude.TranscriptLine))
    (text : string) : option Claude.TranscriptLine :=
  match JSON_parse text with
  | Some (Some line) => Some line
  | _ => None
  end.

(** A transcript one of whose lines, trimmed, parses to [null]. *)
Definition holdsNullLine
    (JSON_parse : string -> option (option Claude.TranscriptLine))
    (content : string) : bool :=
  existsb
    (fun trimmed => match JSON_parse trimmed with
                    | Some None => true
                    | _ => false
                    end)
    (nonBlankLines (split_LF content)).

(** A run of consecutive elements of a list. *)
Definition segmentOf {A : Type} (group whole : list A) : Prop :=
  exists before after : list A, whole = (before ++ group ++ after)%list.

(** The runs of consecutive elements of a list, enumerated: the prefixes
    of its suffixes. *)
Fixpoint prefixes {A : Type} (l : list A) : list (list A) :=
  [] :: match l with
        | [] => []
        | x :: rest => map (cons x) (prefixes rest)
        end.

Fixpoint suffixes {A : Type} (l : list A) : list (list A) :=
  l :: match l with
       | [] => []
       | _ :: rest => suffixes rest
       end.

Definition segments {A : Type} (l : list A) : list (list A) :=
  flat_map prefixes (suffixes l).

(** A value that [JSON.stringify] followed by [JSON.parse] gives back. *)
Definition roundTrips (JSON_parse : string -> option json)
    (JSON_stringify : json -> string) (v : json) : Prop :=
  JSON_parse (JSON_stringify v) = Some v.

(** The message list of a document: its [messages] member, an array. *)
Definition messagesOf (JSON_parse : string -> option json) (content : string)
    : option (list json) :=
  match JSON_parse content with
  | Some parsed =>
      match member "messages" parsed with
      | Some (JArray msgs) => Some msgs
      | _ => None
      end
  | None => None
  end.

(** The uuids of some records that are not empty, in order. *)
Definition retainedUUIDs (records : list Claude.TranscriptLine)
    : list string :=
  filter (fun uuid => negb (String.eqb uuid EmptyString))
    (map Claude.line_uuid records).

(** A record that the host prints on one line and reads back: what
    [JSON.stringify] prints holds no line feed, is not blank, and
    [JSON.parse] of it, trimmed, is the record again. *)
Definition readsBack (JSON_parse : string -> option Claude.TranscriptLine)
    (JSON_stringify : Claude.TranscriptLine -> string)
    (line : Claude.TranscriptLine) : Prop :=
  split_LF (JSON_stringify line) = [JSON_stringify line]
  /\ trim (JSON_stringify line) <> EmptyString
  /\ JSON_parse (trim (JSON_stringify line)) = Some line.

(** A line that carries the result of a tool use: a user line whose
    content is an array of blocks, one of them a tool result for
    [toolUseId]. *)
Definition answers (toolUseId : string) (line : Claude.TranscriptLine)
    : bool :=
  String.eqb (Claude.line_type line) Claude.MessageType.User
  && match Claude.line_message line with
     | Some msg =>
         match Claude.msg_content msg with
         | Claude.ContentBlocks blocks =>
             existsb (Claude.isResultOf toolUseId) blocks
         | _ => false
         end
     | None => false
     end.

(** The contents, other than the empty string, of the messages of one
    type, in order. *)
Definition contentsOfType (wanted : string) (msgs : list Gemini.GeminiMessage)
    : list string :=
  filter (fun content => negb (String.eqb content EmptyString))
    (map Gemini.msg_content
       (filter (fun msg => String.eqb (Gemini.msg_type msg) wanted) msgs)).

(** The file a tool call writes, if any: the call is one of the file
    modification tools and names a file. *)
Definition writtenFile (toolCall : Gemini.GeminiToolCall) : list string :=
  if existsb (String.eqb (Gemini.call_name toolCall))
       Gemini.FileModificationTools
  then match Gemini.fileOf toolCall with
       | EmptyString => []
       | file => [file]
       end
  else [].

(** The files written by the tool calls of the gemini messages, one
    entry for each call, in order. *)
Definition writtenFiles (msgs : list Gemini.GeminiMessage) : list string :=
  flat_map
    (fun msg =>
       if String.eqb (Gemini.msg_type msg) Gemini.MessageType.Gemini
       then match Gemini.toolCalls msg with
            | Some calls => flat_map writtenFile calls
            | None => []
            end
       else [])
    msgs.

(** The length of the document that wraps a run of messages when it is
    printed without white space: the empty wrapper, the messages, and a
    comma between two of them. *)
Definition wrappedSize (JSON_stringify : json -> string) (group : list json)
    : Z :=
  Chunking.emptyWrapperLength
  + sumOf (fun msg => len (JSON_stringify msg)) group
  + (Z.of_nat (length group) - 1).

(** The names of [count] chunk files in a row, from chunk [from] on. *)
Definition chunkFileNames (baseName : string) (from count : nat)
    : list string :=
  map (fun index : nat => Chunking.chunkFileName baseName (Z.of_nat index))
    (seq from count).

(** A string in which a character does not occur. *)
Definition without (c : ascii) (s : string) : Prop :=
  ~ In c (list_ascii_of_string s).

(** A complete tag as one of the expressions of [utils.ts] matches it:
    the OPEN text, attributes, [>], a body, the CLOSE text and, for an
    expression with a tail, more characters and a final [>]. *)
Definition tagBlock (re : Utils.TagRegex) (attrs body closeAttrs : string)
    : string :=
  Utils.openText re ++ attrs ++ ">" ++ body ++ Utils.closeText re
    ++ (if Utils.closeTail re then closeAttrs ++ ">" else EmptyString).

(** Groups of lines filled greedily: a group is followed by another only
    if, with its lines and their line feeds, it had no room left for
    the first line of the next group and its line feed. *)
Fixpoint greedy (maxSize : Z) (groups : list (list string)) : Prop :=
  match groups with
  | [] => True
  | group :: rest =>
      match rest with
      | (line :: _) :: _ =>
          maxSize < len (linesWithLF group) + (len line + 1)
      | _ => True
      end
      /\ greedy maxSize rest
  end.

(** A content in the format of user messages: an array with one object
    [{ text }] for each text. *)
Definition textParts (texts : list string) : json :=
  JArray (map (fun text => JObject [("text", JString text)]) texts).

(** A message as [parseTranscript] hands it on: the members [id],
    [type], [toolCalls] and [tokens] of the raw message as they are,
    and a content that is a string: the raw content when that is a
    string, the texts joined by line feeds when it is an array of
    non-empty texts, the empty string when there is none. *)
Definition normalizedFrom (rawMsg msg : json) : Prop :=
  member "id" msg = member "id" rawMsg
  /\ member "type" msg = member "type" rawMsg
  /\ member "toolCalls" msg = member "toolCalls" rawMsg
  /\ member "tokens" msg = member "tokens" rawMsg
  /\ exists content : string,
       member "content" msg = Some (JString content)
       /\ (forall c : string,
             member "content" rawMsg = Some (JString c) -> content = c)
       /\ (forall texts : list string,
             member "content" rawMsg = Some (textParts texts) ->
             Forall (fun text => text <> EmptyString) texts ->
             content = join_LF texts)
       /\ (member "content" rawMsg = None -> content = EmptyString).

End Vocabulary.

Import Vocabulary.

(* ================================================================== *)
(** * Properties *)

(* ------------------------------------------------------------------ *)
(** ** Strings *)

Section Strings.

Lemma append_nil_r (s : string) : s ++ EmptyString = s.
Proof. induction s as [|c s IH]; simpl; [reflexivity | now rewrite IH]. Qed.

Lemma append_assoc (a b c : string) : (a ++ b) ++ c = a ++ (b ++ c).
Proof. induction a as [|x a IH]; simpl; [reflexivity | now rewrite IH]. Qed.

Lemma length_append (a b : string) :
  String.length (a ++ b) = (String.length a + String.length b)%nat.
Proof. induction a as [|x a IH]; simpl; [reflexivity | now rewrite IH]. Qed.

Lemma len_append (a b : string) : len (a ++ b) = len a + len b.
Proof. unfold len. rewrite length_append. lia. Qed.

Lemma len_nonneg (s : string) : 0 <= len s.
Proof. unfold len. lia. Qed.

Lemma len_LFs : len LFs = 1.
Proof. reflexivity. Qed.

Lemma len_pos_iff (s : string) : 0 < len s <-> s <> EmptyString.
Proof.
  unfold len. destruct s as [|c s]; simpl; split; intro H;
    try lia; try congruence.
Qed.

Lemma strip_final_LF_append (s : string) : strip_final_LF (s ++ LFs) = s.
Proof.
  induction s as [|c s IH]; [reflexivity|].
  change (String c s ++ LFs) with (String c (s ++ LFs)).
  simpl. rewrite IH.
  destruct s; reflexivity.
Qed.

Lemma split_LF_nonempty (s : string) : split_LF s <> [].
Proof.
  destruct s as [|c s]; simpl; [discriminate|].
  destruct (Ascii.eqb c LF); [discriminate|].
  destruct (split_LF s); discriminate.
Qed.

Lemma join_LF_cons (l : string) (ls : list string) :
  ls <> [] -> join_LF (l :: ls) = l ++ LFs ++ join_LF ls.
Proof. destruct ls; [congruence | reflexivity]. Qed.

(** [split] then [join] on the same separator is the identity. *)
Lemma join_split_LF (s : string) : join_LF (split_LF s) = s.
Proof.
  induction s as [|c s IH]; [reflexivity|].
  simpl. destruct (Ascii.eqb_spec c LF) as [->|Hc].
  - rewrite join_LF_cons by apply split_LF_nonempty.
    rewrite IH. reflexivity.
  - pose proof (split_LF_nonempty s) as Hne.
    destruct (split_LF s) as [|l ls]; [congruence|].
    destruct ls as [|l' ls].
    + unfold join_LF in *. simpl in *. now rewrite IH.
    + rewrite join_LF_cons by discriminate.
      rewrite join_LF_cons in IH by discriminate.
      transitivity (String c (l ++ LFs ++ join_LF (l' :: ls))); [reflexivity|].
      now rewrite IH.
Qed.

Lemma join_LF_app (a b : list string) :
  a <> [] -> b <> [] ->
  join_LF (a ++ b)%list = join_LF a ++ LFs ++ join_LF b.
Proof.
  intros Ha Hb. induction a as [|x a IH]; [congruence|].
  destruct a as [|y a].
  - simpl app. now rewrite join_LF_cons.
  - change ((x :: y :: a) ++ b)%list with (x :: ((y :: a) ++ b))%list.
    rewrite join_LF_cons by discriminate.
    rewrite IH by discriminate.
    rewrite (join_LF_cons x (y :: a)) by discriminate.
    now rewrite !append_assoc.
Qed.

Lemma linesWithLF_app (a b : list string) :
  linesWithLF (a ++ b)%list = linesWithLF a ++ linesWithLF b.
Proof.
  induction a as [|x a IH]; [reflexivity|].
  simpl. rewrite IH. now rewrite !append_assoc.
Qed.

Lemma linesWithLF_join (g : list string) :
  g <> [] -> linesWithLF g = join_LF g ++ LFs.
Proof.
  induction g as [|x g IH]; [congruence|]. intros _.
  destruct g as [|y g].
  - reflexivity.
  - rewrite join_LF_cons by discriminate.
    change (linesWithLF (x :: y :: g)) with (x ++ LFs ++ linesWithLF (y :: g)).
    rewrite IH by discriminate. now rewrite !append_assoc.
Qed.

Lemma linesWithLF_empty_iff (g : list string) :
  linesWithLF g = EmptyString <-> g = [].
Proof.
  split; [|intros ->; reflexivity].
  destruct g as [|x g]; [reflexivity|]. intro H.
  change (linesWithLF (x :: g)) with (x ++ LFs ++ linesWithLF g) in H.
  apply (f_equal len) in H. rewrite !len_append, len_LFs in H.
  pose proof (len_nonneg x). pose proof (len_nonneg (linesWithLF g)).
  change (len EmptyString) with 0 in H. lia.
Qed.

Lemma linesWithLF_split (s : string) : linesWithLF (split_LF s) = s ++ LFs.
Proof.
  rewrite linesWithLF_join by apply split_LF_nonempty.
  now rewrite join_split_LF.
Qed.

End Strings.


Example chunkJSONL_fits :
  chunkJSONL ("line1" ++ LFs ++ "line2" ++ LFs ++ "line3") 1000
  = Returned ["line1" ++ LFs ++ "line2" ++ LFs ++ "line3"].
Proof. reflexivity. Qed.

Example chunkJSONL_splits :
  chunkJSONL ("aaaa" ++ LFs ++ "bbbb" ++ LFs ++ "cccc") 6
  = Returned ["aaaa"; "bbbb"; "cccc"].
Proof. reflexivity. Qed.


Example parseInt10_examples :
  parseInt10 "012" = Some 12 /\ parseInt10 "12abc" = Some 12
  /\ parseInt10 " -7" = Some (-7) /\ parseInt10 "abc" = None
  /\ parseInt10 "" = None /\ numToString 0 = "0" /\ numToString (-12) = "-12"
  /\ padStart0 3 (numToString 12) = "012" /\ padStart0 3 (numToString 1234) = "1234".
Proof. repeat split; reflexivity. Qed.

Example RefJSON_examples :
  let doc := "{" ++ DQs ++ "messages" ++ DQs ++ ":[{" ++ DQs ++ "id" ++ DQs ++ ":" ++ DQs ++ "m1" ++ DQs ++ "},12,[true,null]]}" in
  RefJSON.parse doc = Some (wrapper [JObject [("id", JString "m1")]; JNumber 12; JArray [JBool true; JNull]])
  /\ RefJSON.stringify (wrapper [JObject [("id", JString "m1")]; JNumber 12; JArray [JBool true; JNull]]) = doc
  /\ RefJSON.parse "not json" = None
  /\ RefJSON.parse " { } " = Some (JObject [])
  /\ Claude.extractAgentIdFromText ("Task completed." ++ LFs ++ "agentId: abc123" ++ LFs) = Some "abc123"
  /\ Claude.extractAgentIdFromText "agentId: " = None
  /\ Claude.extractAgentIdFromText "no marker" = None.
Proof. vm_compute. repeat split; reflexivity. Qed.

(* ------------------------------------------------------------------ *)
(** ** chunkJSONL and reassembleJSONL *)

Section JSONL.

Variable maxSize : Z.

Lemma join_LF_seal (chunks : list string) (a b : string) :
  join_LF ((chunks ++ [a]) ++ [b])%list = join_LF (chunks ++ [(a ++ LFs ++ b)%string])%list.
Proof.
  destruct chunks as [|c chunks]; [reflexivity|].
  rewrite <- app_assoc.
  rewrite (join_LF_app (c :: chunks) ([a] ++ [b])%list) by discriminate.
  rewrite (join_LF_app (c :: chunks) [(a ++ LFs ++ b)%string]) by discriminate.
  reflexivity.
Qed.

Lemma pending_seal (chunks g rest : list string) (line : string) :
  g <> [] ->
  join_LF (pending (chunks ++ [join_LF g]) ([line] ++ rest))
  = join_LF (pending chunks (g ++ line :: rest)).
Proof.
  intro Hg. unfold pending.
  change ([line] ++ rest)%list with (line :: rest). cbv iota.
  rewrite join_LF_seal.
  rewrite <- (join_LF_app g (line :: rest)) by (assumption || discriminate).
  destruct (g ++ line :: rest)%list as [|x xs] eqn:E; [|reflexivity].
  destruct g; discriminate.
Qed.

(** Whatever the loop returns reassembles into the lines it was given,
    put after the chunks and the group it started from. *)
Lemma chunkJSONL_loop_reassembles (lines : list string) :
  forall (i : Z) (chunks g : list string) (cs : list string),
    chunkJSONL_loop maxSize lines i chunks (linesWithLF g) = Returned cs ->
    join_LF cs = join_LF (pending chunks (g ++ lines)).
Proof.
  induction lines as [|line rest IH]; intros i chunks g cs H.
  - simpl in H. rewrite app_nil_r.
    destruct (0 <? len (linesWithLF g)) eqn:E.
    + apply Z.ltb_lt, len_pos_iff in E.
      assert (Hg : g <> []) by (intro Hg; apply E; now subst).
      injection H as <-. rewrite linesWithLF_join by assumption.
      rewrite strip_final_LF_append. unfold pending.
      destruct g; [congruence | reflexivity].
    + apply Z.ltb_ge in E. pose proof (len_nonneg (linesWithLF g)).
      assert (Hg : g = []).
      { apply linesWithLF_empty_iff. destruct (linesWithLF g); [reflexivity|].
        unfold len in *. simpl in *. lia. }
      subst g. now injection H as <-.
  - simpl in H.
    destruct (maxSize <? len (line ++ LFs)); [discriminate|].
    destruct ((maxSize <? len (linesWithLF g) + len (line ++ LFs))
              && (0 <? len (linesWithLF g))) eqn:E.
    + apply andb_true_iff in E as [_ E].
      apply Z.ltb_lt, len_pos_iff in E.
      assert (Hg : g <> []) by (intro Hg; apply E; now subst).
      rewrite linesWithLF_join in H by assumption.
      rewrite strip_final_LF_append in H.
      change (line ++ LFs) with (linesWithLF [line]) in H.
      apply IH in H. rewrite H. now apply pending_seal.
    + change (line ++ LFs) with (linesWithLF [line]) in H.
      rewrite <- linesWithLF_app in H.
      apply IH in H. rewrite H. now rewrite <- app_assoc.
Qed.

(** The loop returns exactly when no line is overlong. *)
Lemma chunkJSONL_loop_returns (lines : list string) :
  forall (i : Z) (chunks : list string) (cur : string),
    (exists cs, chunkJSONL_loop maxSize lines i chunks cur = Returned cs)
    <-> Forall (fun l => ~ overlong maxSize l) lines.
Proof.
  unfold overlong.
  induction lines as [|line rest IH]; intros i chunks cur; simpl.
  - split; [constructor|]. intros _.
    destruct (0 <? len cur); eexists; reflexivity.
  - rewrite len_append, len_LFs.
    destruct (maxSize <? len line + 1) eqn:E.
    + apply Z.ltb_lt in E. split.
      * intros [cs H]. discriminate.
      * intro H. inversion H; subst. contradiction.
    + apply Z.ltb_ge in E.
      destruct ((maxSize <? len cur + (len line + 1)) && (0 <? len cur));
        rewrite IH; (split; [intro H; constructor; [lia | assumption]
                            | intro H; now inversion H]).
Qed.

(** What the loop throws names the first overlong line. *)
Lemma chunkJSONL_loop_throws (lines : list string) :
  forall (i : Z) (chunks : list string) (cur : string) (e : exception),
    chunkJSONL_loop maxSize lines i chunks cur = Thrown e ->
    exists (k : nat) (line : string),
      nth_error lines k = Some line
      /\ overlong maxSize line
      /\ Forall (fun l => ~ overlong maxSize l) (firstn k lines)
      /\ e = Error (lineTooLong (i + Z.of_nat k + 1) (len line + 1) maxSize).
Proof.
  unfold overlong.
  induction lines as [|line rest IH]; intros i chunks cur e H; simpl in H.
  - destruct (0 <? len cur); discriminate.
  - rewrite len_append, len_LFs in H.
    destruct (maxSize <? len line + 1) eqn:E.
    + apply Z.ltb_lt in E. injection H as <-.
      exists 0%nat, line. repeat split; [assumption | constructor |].
      now replace (i + Z.of_nat 0 + 1) with (i + 1) by lia.
    + apply Z.ltb_ge in E.
      assert (exists chunks' cur',
                chunkJSONL_loop maxSize rest (i + 1) chunks' cur' = Thrown e)
        as (chunks' & cur' & H').
      { destruct ((maxSize <? len cur + (len line + 1)) && (0 <? len cur));
          eauto. }
      apply IH in H' as (k & l & Hk & Hl & Hfirst & ->).
      exists (S k), l. repeat split; try assumption.
      * simpl. constructor; [lia | assumption].
      * f_equal. f_equal. lia.
Qed.

Lemma chunkJSONL_reassembles (content : string) (chunks : list string) :
  chunkJSONL content maxSize = Returned chunks ->
  reassembleJSONL chunks = content.
Proof.
  unfold chunkJSONL, reassembleJSONL. intro H.
  destruct content as [|c s]; [now injection H as <-|].
  change EmptyString with (linesWithLF []) in H.
  apply chunkJSONL_loop_reassembles in H. rewrite H.
  change ([] ++ split_LF (String c s))%list with (split_LF (String c s)).
  pose proof (split_LF_nonempty (String c s)) as Hne.
  pose proof (join_split_LF (String c s)) as Hjoin.
  destruct (split_LF (String c s)) as [|l ls]; [congruence|].
  unfold pending. exact Hjoin.
Qed.

Lemma chunkJSONL_returns_iff (content : string) :
  (exists chunks, chunkJSONL content maxSize = Returned chunks)
  <-> Forall (fun l => ~ overlong maxSize l) (scannedLines content).
Proof.
  unfold chunkJSONL, scannedLines. destruct content as [|c s].
  - split; [constructor | intros _; now eexists].
  - apply chunkJSONL_loop_returns.
Qed.

Lemma chunkJSONL_throws (content : string) (e : exception) :
  chunkJSONL content maxSize = Thrown e ->
  exists (k : nat) (line : string),
    nth_error (scannedLines content) k = Some line
    /\ overlong maxSize line
    /\ Forall (fun l => ~ overlong maxSize l) (firstn k (scannedLines content))
    /\ e = Error (lineTooLong (Z.of_nat k + 1) (len line + 1) maxSize).
Proof.
  unfold chunkJSONL, scannedLines. destruct content as [|c s]; [discriminate|].
  intro H. apply chunkJSONL_loop_throws in H. exact H.
Qed.

End JSONL.

(** C1 (as amended). When every line of the content, counted with its
    separator, fits the threshold (the threshold is at least the length of
    the longest line plus one), [chunkJSONL] returns chunks and
    [reassembleJSONL] of them is the content, character for character. *)
Theorem chunkJSONL_roundtrip (content : string) (maxSize : Z) :
  Forall (fun line => len line + 1 <= maxSize) (scannedLines content) ->
  exists chunks,
    chunkJSONL content maxSize = Returned chunks
    /\ reassembleJSONL chunks = content.
Proof.
  intro Hfit.
  assert (Hret : exists chunks, chunkJSONL content maxSize = Returned chunks).
  { apply chunkJSONL_returns_iff.
    eapply Forall_impl; [|exact Hfit]. unfold overlong. intros l Hl. lia. }
  destruct Hret as [chunks Hchunks]. exists chunks. split; [assumption|].
  eapply chunkJSONL_reassembles; eassumption.
Qed.

(** Three lines of four characters under a threshold of six: each line
    with its separator fits, the content does not, and the three chunks
    reassemble into it. *)
Lemma chunkJSONL_roundtrip_witness :
  Forall (fun line => len line + 1 <= 6)
    (scannedLines ("aaaa" ++ LFs ++ "bbbb" ++ LFs ++ "cccc"))
  /\ chunkJSONL ("aaaa" ++ LFs ++ "bbbb" ++ LFs ++ "cccc") 6
     = Returned ["aaaa"; "bbbb"; "cccc"]
  /\ exists chunks,
       chunkJSONL ("aaaa" ++ LFs ++ "bbbb" ++ LFs ++ "cccc") 6 = Returned chunks
       /\ reassembleJSONL chunks = "aaaa" ++ LFs ++ "bbbb" ++ LFs ++ "cccc".
Proof.
  assert (H : Forall (fun line => len line + 1 <= 6)
                (scannedLines ("aaaa" ++ LFs ++ "bbbb" ++ LFs ++ "cccc"))).
  { simpl. repeat constructor; unfold len; simpl; lia. }
  split; [exact H|]. split; [reflexivity|].
  exact (chunkJSONL_roundtrip ("aaaa" ++ LFs ++ "bbbb" ++ LFs ++ "cccc") 6 H).
Defined.

(** C1 as stated fails when the threshold is exactly the length of the
    longest line: the content "abc" has one line of length 3, and with the
    threshold 3 the line and its separator take 4, so [chunkJSONL] throws
    and there is nothing to reassemble. *)
Lemma chunkJSONL_threshold_of_longest_line :
  scannedLines "abc" = ["abc"]
  /\ Forall (fun line => len line <= 3) (scannedLines "abc")
  /\ chunkJSONL "abc" 3
     = Thrown (Error "JSONL line 1 exceeds maximum chunk size (4 bytes > 3 bytes); cannot split a single JSON object")
  /\ forall chunks, chunkJSONL "abc" 3 <> Returned chunks.
Proof.
  split; [reflexivity|]. split; [|split].
  - simpl. repeat constructor. unfold len. simpl. lia.
  - reflexivity.
  - intros chunks H. discriminate H.
Qed.

(** The text of the error can be told apart: the digits of a number
    hold no space, so that the three numbers of the template can be read
    off between its fixed words. *)
Lemma append_cancel_l (a x y : string) : a ++ x = a ++ y -> x = y.
Proof.
  induction a as [|c a IH]; simpl; intro H; [assumption|].
  injection H as H. now apply IH.
Qed.

Lemma without_uint (c : ascii) (d : Decimal.uint) :
  isDigit c = false -> without c (NilEmpty.string_of_uint d).
Proof.
  intro Hc. unfold without.
  induction d; simpl; try tauto;
    (intros [H|H]; [subst c; discriminate Hc | contradiction]).
Qed.

Lemma without_numToString (c : ascii) (n : Z) :
  isDigit c = false -> c <> "-"%char -> without c (numToString n).
Proof.
  intros Hc Hminus. unfold numToString.
  assert (Hzero : without c "0")
    by (unfold without; simpl; intros [H|[]]; subst c; discriminate Hc).
  assert (Huint : forall d, without c (NilZero.string_of_uint d)).
  { intro d. unfold NilZero.string_of_uint.
    destruct d; try exact Hzero; now apply without_uint. }
  destruct n as [|p|p]; cbn [Z.to_int NilZero.string_of_int].
  - exact Hzero.
  - apply Huint.
  - unfold without. cbn [list_ascii_of_string].
    intros [H|H]; [now subst c | now apply (Huint (Pos.to_uint p))].
Qed.

Lemma split_at (c : ascii) (a : string) :
  forall a' r r' : string,
    without c a -> without c a' ->
    a ++ String c r = a' ++ String c r' -> a = a' /\ r = r'.
Proof.
  unfold without.
  induction a as [|x a IH]; intros [|x' a'] r r' Ha Ha' H; simpl in *.
  - injection H as H. now split.
  - injection H as Hx _. subst x'. tauto.
  - injection H as Hx _. subst x. tauto.
  - injection H as Hx H. subst x'.
    destruct (IH a' r r') as [Heq Hr]; [tauto | tauto | assumption |].
    subst a'. now split.
Qed.

Lemma numToString_inj (n n' : Z) : numToString n = numToString n' -> n = n'.
Proof.
  unfold numToString. intro H.
  assert (Hnorm : forall z,
             NilZero.int_of_string (NilZero.string_of_int (Z.to_int z))
             = Some (Z.to_int z)).
  { intro z. apply NilZero.isi; destruct z as [|p|p];
      cbn [Z.to_int]; try discriminate;
      intro Hnil; injection Hnil as Hnil;
      now apply DecimalPos.Unsigned.to_uint_nonnil in Hnil. }
  apply (f_equal NilZero.int_of_string) in H.
  rewrite !Hnorm in H. injection H as H.
  now apply DecimalZ.to_int_inj.
Qed.

(** The text of the error names its three numbers. *)
Lemma lineTooLong_inj (lineNumber lineSize maxSize lineNumber' lineSize' maxSize' : Z) :
  lineTooLong lineNumber lineSize maxSize
  = lineTooLong lineNumber' lineSize' maxSize' ->
  lineNumber = lineNumber' /\ lineSize = lineSize' /\ maxSize = maxSize'.
Proof.
  unfold lineTooLong. intro H.
  assert (Hspace : forall n, without " "%char (numToString n))
    by (intro n; apply without_numToString; [reflexivity | discriminate]).
  apply append_cancel_l in H.
  apply (split_at " "%char) in H as [H1 H]; [|apply Hspace ..].
  apply (append_cancel_l "exceeds maximum chunk size (") in H.
  apply (split_at " "%char) in H as [H2 H]; [|apply Hspace ..].
  apply (append_cancel_l "bytes > ") in H.
  apply (split_at " "%char) in H as [H3 _]; [|apply Hspace ..].
  apply numToString_inj in H1, H2, H3. now repeat split.
Qed.

(** C5. [chunkJSONL] throws exactly when some line of the content,
    counted with its separator, is over the threshold (the empty content
    has no line). What it throws is an [Error] whose text reads
    JSONL line N exceeds maximum chunk size (S bytes > M bytes); cannot
    split a single JSON object, with the digits of the 1-based number N
    of the first such line, of the size S of that line with its
    separator and of the threshold M (the digits of a threshold above
    -10^21: line numbers and sizes are below 10^21, as the length of any
    string is). The text identifies the line and the sizes: it is the
    text of the template for no other three numbers. It returns exactly
    when no line is over the threshold, and what it returns reassembles
    into the whole content: nothing is cut off. *)
Theorem chunkJSONL_throws_exactly_on_overlong_line
    (content : string) (maxSize : Z) :
  ((exists e, chunkJSONL content maxSize = Thrown e)
   <-> Exists (overlong maxSize) (scannedLines content))
  /\ (forall e, chunkJSONL content maxSize = Thrown e ->
        exists (k : nat) (line text : string),
          nth_error (scannedLines content) k = Some line
          /\ overlong maxSize line
          /\ Forall (fun l => ~ overlong maxSize l)
               (firstn k (scannedLines content))
          /\ e = Error text
          /\ (- 10 ^ 21 < maxSize ->
              text = "JSONL line " ++ numToString (Z.of_nat k + 1)
                       ++ " exceeds maximum chunk size ("
                       ++ numToString (len line + 1)
                       ++ " bytes > " ++ numToString maxSize
                       ++ " bytes); cannot split a single JSON object")
          /\ (forall lineNumber lineSize threshold : Z,
                text = lineTooLong lineNumber lineSize threshold ->
                lineNumber = Z.of_nat k + 1 /\ lineSize = len line + 1
                /\ threshold = maxSize))
  /\ ((exists chunks, chunkJSONL content maxSize = Returned chunks)
      <-> Forall (fun l => ~ overlong maxSize l) (scannedLines content))
  /\ (forall chunks, chunkJSONL content maxSize = Returned chunks ->
        reassembleJSONL chunks = content).
Proof.
  split; [split | split; [|split]].
  - intros [e H]. apply chunkJSONL_throws in H as (k & line & Hk & Hover & _).
    apply Exists_exists. exists line. split; [|assumption].
    eapply nth_error_In; eassumption.
  - intro Hex.
    destruct (chunkJSONL content maxSize) as [chunks|e] eqn:E; [|now exists e].
    exfalso.
    assert (Hret : exists chunks, chunkJSONL content maxSize = Returned chunks)
      by now exists chunks.
    apply chunkJSONL_returns_iff, Forall_Exists_neg in Hret. contradiction.
  - intros e H.
    apply chunkJSONL_throws in H as (k & line & Hk & Hover & Hfirst & He).
    exists k, line, (lineTooLong (Z.of_nat k + 1) (len line + 1) maxSize).
    repeat (split; [assumption|]). split; [reflexivity|].
    intros lineNumber lineSize threshold Htext. symmetry in Htext.
    apply lineTooLong_inj in Htext. tauto.
  - apply chunkJSONL_returns_iff.
  - apply chunkJSONL_reassembles.
Qed.

(** The error of the test suite, and the empty content, which is
    returned as no chunk whatever the threshold. *)
Example chunkJSONL_error_examples :
  chunkJSONL "aaaaaaaaaa" 5
  = Thrown (Error "JSONL line 1 exceeds maximum chunk size (11 bytes > 5 bytes); cannot split a single JSON object")
  /\ chunkJSONL ("ab" ++ LFs ++ "cdefgh" ++ LFs ++ "i") 4
     = Thrown (Error "JSONL line 2 exceeds maximum chunk size (7 bytes > 4 bytes); cannot split a single JSON object")
  /\ chunkJSONL EmptyString 0 = Returned []
  /\ chunkJSONL EmptyString MAX_CHUNK_SIZE = Returned [].
Proof. repeat split; reflexivity. Qed.

(* ------------------------------------------------------------------ *)
(** ** Chunk file names *)

Section FileNames.

Lemma prefix_append (a b : string) : String.prefix a (a ++ b) = true.
Proof.
  induction a as [|c a IH]; simpl; [now destruct b|].
  destruct (ascii_dec c c); [assumption | congruence].
Qed.

Lemma slice_from_append (a b : string) :
  slice_from (String.length a) (a ++ b) = b.
Proof. induction a as [|c a IH]; simpl; [now destruct b | assumption]. Qed.

Lemma append_not_self (a b : string) : b <> EmptyString -> a ++ b <> a.
Proof.
  intros Hb H. apply (f_equal String.length) in H.
  rewrite length_append in H. destruct b; [congruence | simpl in H; lia].
Qed.

Lemma readDigits_zeros (k : nat) (s : string) :
  readDigits 0 (zeros k ++ s) = readDigits 0 s.
Proof. induction k as [|k IH]; [reflexivity | exact IH]. Qed.

Lemma readDigits_digit (acc : Z) (c : ascii) (s : string) :
  isDigit c = true ->
  readDigits acc (String c s) = readDigits (10 * acc + digitValue c) s.
Proof. intro H. simpl. now rewrite H. Qed.

Ltac read_digit :=
  rewrite readDigits_digit by reflexivity;
  match goal with
  | |- context [digitValue ?c] =>
      let v := eval vm_compute in (digitValue c) in
      change (digitValue c) with v
  end.

(** Reading back the digits of a decimal numeral, on top of a positive
    accumulator. *)
Lemma readDigits_uint_acc (d : Decimal.uint) :
  forall p : positive,
    readDigits (Zpos p) (NilEmpty.string_of_uint d)
    = Zpos (Pos.of_uint_acc d p).
Proof.
  induction d; intro p; [reflexivity | ..];
    cbn [NilEmpty.string_of_uint Pos.of_uint_acc];
    read_digit; rewrite <- IHd; f_equal; lia.
Qed.

Lemma readDigits_uint (d : Decimal.uint) :
  readDigits 0 (NilEmpty.string_of_uint d) = Z.of_N (Pos.of_uint d).
Proof.
  induction d; [reflexivity | ..];
    cbn [NilEmpty.string_of_uint Pos.of_uint];
    read_digit; [exact IHd | ..];
    cbn [Z.of_N]; rewrite <- readDigits_uint_acc; reflexivity.
Qed.

Lemma numToString_pos (p : positive) :
  numToString (Zpos p) = NilEmpty.string_of_uint (Pos.to_uint p).
Proof.
  unfold numToString. simpl. unfold NilZero.string_of_uint.
  pose proof (DecimalPos.Unsigned.to_uint_nonnil p) as Hnn.
  destruct (Pos.to_uint p); [congruence | reflexivity ..].
Qed.

Lemma headIsDigit_uint (d : Decimal.uint) :
  d <> Decimal.Nil -> headIsDigit (NilEmpty.string_of_uint d) = true.
Proof. destruct d; [congruence | reflexivity ..]. Qed.

Lemma readDigits_numToString (p : positive) :
  readDigits 0 (numToString (Zpos p)) = Zpos p.
Proof.
  rewrite numToString_pos, readDigits_uint.
  now rewrite DecimalPos.Unsigned.of_to.
Qed.

(** A string that starts with a digit has no white space or sign to
    skip. *)
Lemma parseInt10_digits (s : string) :
  headIsDigit s = true -> parseInt10 s = Some (readDigits 0 s).
Proof.
  destruct s as [|c s]; [discriminate|]. intro H. simpl in H.
  unfold parseInt10.
  assert (Hws : isWhiteSpace c = false)
    by (destruct c as [[] [] [] [] [] [] [] []]; try discriminate H; reflexivity).
  assert (Hsign : c <> "-"%char /\ c <> "+"%char)
    by (split; intros ->; discriminate H).
  simpl trimStart. rewrite Hws.
  destruct Hsign as [Hminus Hplus].
  destruct c as [[] [] [] [] [] [] [] []]; try discriminate H;
    simpl; reflexivity.
Qed.

Lemma headIsDigit_padStart0 (w : nat) (s : string) :
  headIsDigit s = true -> headIsDigit (padStart0 w s) = true.
Proof.
  intro H. unfold padStart0. destruct (w - String.length s)%nat; [exact H | reflexivity].
Qed.

Lemma parseInt10_suffix (p : positive) :
  parseInt10 (padStart0 3 (numToString (Zpos p))) = Some (Zpos p).
Proof.
  rewrite parseInt10_digits.
  - unfold padStart0. now rewrite readDigits_zeros, readDigits_numToString.
  - apply headIsDigit_padStart0. rewrite numToString_pos.
    apply headIsDigit_uint, DecimalPos.Unsigned.to_uint_nonnil.
Qed.

Lemma suffix_three_digits (n : Z) :
  1 <= n <= 999 -> String.length (padStart0 3 (numToString n)) = 3%nat.
Proof.
  intro Hn.
  assert (Hall : forallb
            (fun k => (String.length (padStart0 3 (numToString (Z.of_nat k))) =? 3)%nat)
            (seq 1 999) = true) by (vm_compute; reflexivity).
  rewrite forallb_forall in Hall.
  specialize (Hall (Z.to_nat n)).
  rewrite Z2Nat.id in Hall by lia.
  apply Nat.eqb_eq, Hall, in_seq. lia.
Qed.

End FileNames.

(** C9. Parsing the file name of chunk [n] gives [n] back, for every base
    name and every index [n] from 0 up to 10^21, the range in which
    [String] prints an integer in plain decimal digits; it holds every
    index that JavaScript counts exactly (up to 2^53 - 1). Chunk 0 is
    the base name itself; chunk [n >= 1] is the base name, a dot, and
    the decimal digits of [n] padded with zeros to three characters
    (exactly three up to 999). A name that is not the base name and
    either does not start with the base name and a dot, or has no
    integer that [parseInt] can read after the dot, parses to -1. *)
Theorem parseChunkIndex_chunkFileName (baseName : string) :
  (forall n : Z, 0 <= n < 10 ^ 21 ->
     parseChunkIndex (chunkFileName baseName n) baseName = n)
  /\ chunkFileName baseName 0 = baseName
  /\ (forall n : Z, 1 <= n < 10 ^ 21 ->
        chunkFileName baseName n
        = baseName ++ "." ++ padStart0 3 (numToString n))
  /\ (forall n : Z, 1 <= n <= 999 ->
        String.length (padStart0 3 (numToString n)) = 3%nat)
  /\ (forall filename : string,
        filename <> baseName ->
        startsWith filename (baseName ++ ".") = false
        \/ parseInt10 (slice_from (String.length baseName + 1) filename) = None ->
        parseChunkIndex filename baseName = -1).
Proof.
  split; [|split; [|split; [|split]]].
  - intros n Hn. unfold chunkFileName, parseChunkIndex.
    destruct (n =? 0) eqn:E.
    + apply Z.eqb_eq in E. subst n. now rewrite String.eqb_refl.
    + apply Z.eqb_neq in E. destruct n as [|p|p]; try lia.
      unfold CHUNK_SUFFIX_FORMAT.
      set (digits := padStart0 3 (numToString (Zpos p))).
      assert (Hne : String.eqb (baseName ++ "." ++ digits) baseName = false).
      { apply String.eqb_neq, append_not_self. discriminate. }
      rewrite Hne. unfold startsWith.
      rewrite <- (append_assoc baseName "." digits).
      rewrite prefix_append. simpl negb. cbv iota.
      replace (String.length baseName + 1)%nat
        with (String.length (baseName ++ "."))
        by (rewrite length_append; reflexivity).
      rewrite slice_from_append. unfold digits.
      now rewrite parseInt10_suffix.
  - reflexivity.
  - intros n Hn. unfold chunkFileName.
    destruct (n =? 0) eqn:E; [apply Z.eqb_eq in E; lia | reflexivity].
  - apply suffix_three_digits.
  - intros filename Hne Hcase. unfold parseChunkIndex.
    apply String.eqb_neq in Hne. rewrite Hne.
    destruct (startsWith filename (baseName ++ ".")) eqn:E; [|reflexivity].
    destruct Hcase as [H|H]; [discriminate|]. simpl. now rewrite H.
Qed.

Example chunkFileName_examples :
  chunkFileName "t.jsonl" 0 = "t.jsonl"
  /\ chunkFileName "t.jsonl" 12 = "t.jsonl.012"
  /\ chunkFileName "t.jsonl" 1234 = "t.jsonl.1234"
  /\ parseChunkIndex "t.jsonl.012" "t.jsonl" = 12
  /\ parseChunkIndex "t.jsonl" "t.jsonl" = 0
  /\ parseChunkIndex "other.jsonl" "t.jsonl" = -1
  /\ parseChunkIndex "t.jsonl.bak" "t.jsonl" = -1.
Proof. repeat split; reflexivity. Qed.

(* ------------------------------------------------------------------ *)
(** ** Content at or under the threshold *)

Lemma chunkJSONL_loop_single (maxSize : Z) (lines : list string) :
  forall (i : Z) (g : list string),
    (g ++ lines)%list <> [] ->
    len (linesWithLF (g ++ lines)) <= maxSize ->
    chunkJSONL_loop maxSize lines i [] (linesWithLF g)
    = Returned [join_LF (g ++ lines)].
Proof.
  induction lines as [|line rest IH]; intros i g Hne Hfit.
  - rewrite app_nil_r in *. simpl.
    assert (Hpos : 0 < len (linesWithLF g)).
    { apply len_pos_iff. intro H. now apply linesWithLF_empty_iff in H. }
    apply Z.ltb_lt in Hpos. rewrite Hpos.
    rewrite linesWithLF_join by assumption.
    now rewrite strip_final_LF_append.
  - rewrite linesWithLF_app in Hfit.
    change (linesWithLF (line :: rest))
      with (line ++ LFs ++ linesWithLF rest) in Hfit.
    rewrite !len_append, len_LFs in Hfit.
    pose proof (len_nonneg (linesWithLF g)).
    pose proof (len_nonneg (linesWithLF rest)).
    pose proof (len_nonneg line).
    cbn [chunkJSONL_loop]. cbv zeta.
    assert (Hline : (maxSize <? len (line ++ LFs)) = false)
      by (apply Z.ltb_ge; rewrite len_append, len_LFs; lia).
    assert (Hroom : (maxSize <? len (linesWithLF g) + len (line ++ LFs)) = false)
      by (apply Z.ltb_ge; rewrite len_append, len_LFs; lia).
    rewrite Hline, Hroom. simpl andb. cbv iota.
    change (line ++ LFs) with (linesWithLF [line]).
    rewrite <- linesWithLF_app.
    replace (g ++ line :: rest)%list with ((g ++ [line]) ++ rest)%list
      by now rewrite <- app_assoc.
    apply IH.
    + destruct g; discriminate.
    + rewrite <- app_assoc. simpl app.
      rewrite linesWithLF_app.
      change (linesWithLF (line :: rest))
        with (line ++ LFs ++ linesWithLF rest).
      rewrite !len_append, len_LFs. lia.
Qed.

Lemma chunkJSONL_single (content : string) (maxSize : Z) :
  content <> EmptyString -> len content + 1 <= maxSize ->
  chunkJSONL content maxSize = Returned [content].
Proof.
  intros Hne Hfit. unfold chunkJSONL.
  destruct content as [|c s]; [congruence|].
  change EmptyString with (linesWithLF []).
  rewrite chunkJSONL_loop_single; cbn [app].
  - now rewrite join_split_LF.
  - apply split_LF_nonempty.
  - rewrite linesWithLF_split, len_append, len_LFs. exact Hfit.
Qed.

(** C7 (as amended). For content whose length is at or under the
    threshold, [chunkTranscript] (with or without a format hint) and
    [chunkGeminiJSON] return exactly one chunk, the content itself.
    [chunkJSONL] does so when the content is not empty and, counted with
    one separator, still fits the threshold. *)
Theorem chunk_of_small_content
    (JSON_parse : string -> option json) (JSON_stringify : json -> string)
    (content : string) (maxSize : Z) :
  len content <= maxSize ->
  (forall agentType,
     chunkTranscript JSON_parse JSON_stringify content agentType maxSize
     = Returned [content])
  /\ chunkGeminiJSON JSON_parse JSON_stringify content maxSize
     = Returned [content]
  /\ (content <> EmptyString -> len content + 1 <= maxSize ->
      chunkJSONL content maxSize = Returned [content]).
Proof.
  intro Hfit. apply Z.leb_le in Hfit.
  split; [|split].
  - intro agentType. unfold chunkTranscript. now rewrite Hfit.
  - unfold chunkGeminiJSON. now rewrite Hfit.
  - apply chunkJSONL_single.
Qed.

(** Two lines, nine characters, threshold ten. *)
Lemma chunk_of_small_content_witness :
  len ("line1" ++ LFs ++ "li2") <= 10
  /\ (forall agentType,
        chunkTranscript RefJSON.parse RefJSON.stringify
          ("line1" ++ LFs ++ "li2") agentType 10
        = Returned ["line1" ++ LFs ++ "li2"])
  /\ chunkGeminiJSON RefJSON.parse RefJSON.stringify
       ("line1" ++ LFs ++ "li2") 10
     = Returned ["line1" ++ LFs ++ "li2"]
  /\ chunkJSONL ("line1" ++ LFs ++ "li2") 10
     = Returned ["line1" ++ LFs ++ "li2"].
Proof.
  assert (H : len ("line1" ++ LFs ++ "li2") <= 10)
    by (unfold len; simpl; lia).
  destruct (chunk_of_small_content RefJSON.parse RefJSON.stringify
              ("line1" ++ LFs ++ "li2") 10 H) as (Htranscript & Hgemini & Hjsonl).
  split; [exact H|]. split; [exact Htranscript|]. split; [exact Hgemini|].
  apply Hjsonl; [discriminate | unfold len; simpl; lia].
Defined.

(** C7 as stated fails for [chunkJSONL]: the empty content gives no chunk
    at all; content whose length is exactly the threshold throws, because
    the last line is counted with a separator; and two lines that
    together are exactly as long as the threshold are split in two. *)
Lemma chunkJSONL_at_threshold :
  (len EmptyString <= 10 /\ chunkJSONL EmptyString 10 = Returned [])
  /\ (len "abc" <= 3
      /\ chunkJSONL "abc" 3
         = Thrown (Error "JSONL line 1 exceeds maximum chunk size (4 bytes > 3 bytes); cannot split a single JSON object"))
  /\ (len ("ab" ++ LFs ++ "cd") <= 5
      /\ chunkJSONL ("ab" ++ LFs ++ "cd") 5 = Returned ["ab"; "cd"]).
Proof.
  repeat split; try reflexivity; unfold len; simpl; lia.
Qed.

(* ------------------------------------------------------------------ *)
(** ** detectAgentTypeFromContent *)

Lemma trimStart_spec (s : string) :
  exists ws : string,
    s = ws ++ trimStart s
    /\ Forall (fun c => isWhiteSpace c = true) (list_ascii_of_string ws)
    /\ match trimStart s with
       | String c _ => isWhiteSpace c = false
       | EmptyString => True
       end.
Proof.
  induction s as [|c s (ws & Heq & Hws & Hhead)].
  - exists EmptyString. repeat split. constructor.
  - simpl. destruct (isWhiteSpace c) eqn:E.
    + exists (String c ws). simpl. repeat split.
      * now rewrite <- Heq.
      * now constructor.
      * exact Hhead.
    + exists EmptyString. repeat split; [constructor | exact E].
Qed.

(** C8. [detectAgentTypeFromContent] answers "Gemini CLI" exactly when
    the content with its leading white space removed starts with an
    opening brace, parses, and has a member [messages] that is a
    non-empty array. Every other case answers [undefined]: when the first
    character after the white space is not a brace the answer does not
    depend on the parser (no parse is needed), and so do a parse that
    fails, a missing [messages], and an empty [messages] array. The
    function is total: a failed parse is an answer, not an exception. *)
Theorem detectAgentTypeFromContent_classifies
    (JSON_parse : string -> option json) (content : string) :
  let trimmed := trimStart content in
  (detectAgentTypeFromContent JSON_parse content = Some GeminiCLI
   <-> startsWith trimmed "{" = true
       /\ exists (parsed first : json) (others : list json),
            JSON_parse trimmed = Some parsed
            /\ member "messages" parsed = Some (JArray (first :: others)))
  /\ (detectAgentTypeFromContent JSON_parse content <> Some GeminiCLI ->
      detectAgentTypeFromContent JSON_parse content = None)
  /\ (startsWith trimmed "{" = false ->
      forall parse : string -> option json,
        detectAgentTypeFromContent parse content = None)
  /\ (JSON_parse trimmed = None ->
      detectAgentTypeFromContent JSON_parse content = None)
  /\ (forall parsed : json,
        JSON_parse trimmed = Some parsed ->
        member "messages" parsed = None
        \/ member "messages" parsed = Some (JArray []) ->
        detectAgentTypeFromContent JSON_parse content = None)
  /\ (exists ws : string,
        content = ws ++ trimmed
        /\ Forall (fun c => isWhiteSpace c = true) (list_ascii_of_string ws)
        /\ match trimmed with
           | String c _ => isWhiteSpace c = false
           | EmptyString => True
           end).
Proof.
  intro trimmed. unfold detectAgentTypeFromContent. fold trimmed.
  split; [|split; [|split; [|split; [|split]]]].
  - destruct (startsWith trimmed "{") eqn:Hbrace; simpl.
    + destruct (JSON_parse trimmed) as [parsed|] eqn:Hparse.
      * destruct (member "messages" parsed) as [[| | | |[|first others]|]|] eqn:Hm;
          split; try discriminate;
          try (intros (_ & p & f & o & Hp & Hf); congruence).
        intros _. split; [reflexivity|]. now exists parsed, first, others.
      * split; [discriminate|].
        intros (_ & p & f & o & Hp & _). discriminate.
    + split; [discriminate | intros [H _]; discriminate].
  - destruct (startsWith trimmed "{"); simpl; [|reflexivity].
    destruct (JSON_parse trimmed) as [parsed|]; [|reflexivity].
    destruct (member "messages" parsed) as [[| | | |[|first others]|]|];
      try reflexivity.
    intro H. now contradiction H.
  - intros Hbrace parse. unfold detectAgentTypeFromContent. fold trimmed.
    now rewrite Hbrace.
  - intros ->. now destruct (startsWith trimmed "{").
  - intros parsed -> Hm. destruct (startsWith trimmed "{"); [|reflexivity].
    simpl. now destruct Hm as [-> | ->].
  - apply trimStart_spec.
Qed.

(** The cases of the test suite, on the reference codec. *)
Example detectAgentTypeFromContent_examples :
  let q := DQs in
  detectAgentTypeFromContent RefJSON.parse
    ("{" ++ q ++ "messages" ++ q ++ ":[{" ++ q ++ "id" ++ q ++ ":" ++ q ++ "m1" ++ q ++ "}]}")
  = Some GeminiCLI
  /\ detectAgentTypeFromContent RefJSON.parse
       ("  {" ++ q ++ "messages" ++ q ++ ": [1] }")
     = Some GeminiCLI
  /\ detectAgentTypeFromContent RefJSON.parse
       ("{" ++ q ++ "type" ++ q ++ ":" ++ q ++ "user" ++ q ++ "}")
     = None
  /\ detectAgentTypeFromContent RefJSON.parse
       ("{" ++ q ++ "messages" ++ q ++ ":[]}")
     = None
  /\ detectAgentTypeFromContent RefJSON.parse "not json" = None
  /\ detectAgentTypeFromContent RefJSON.parse "{ broken" = None.
Proof. vm_compute. repeat split; reflexivity. Qed.

(* ------------------------------------------------------------------ *)
(** ** Gemini token usage *)

Section GeminiUsage.

Import Gemini.

(** The loop adds the counted payloads to whatever usage it starts from. *)
Lemma fold_addMessage (msgs : list GeminiMessage) :
  forall usage : TokenUsage,
    fold_left addMessage msgs usage
    = mkTokenUsage
        (inputTokens usage + sumOf input (countedTokens msgs))
        (cacheCreationTokens usage)
        (cacheReadTokens usage + sumOf cached (countedTokens msgs))
        (outputTokens usage + sumOf output (countedTokens msgs))
        (apiCallCount usage + Z.of_nat (length (countedTokens msgs)))
        (subagentTokens usage).
Proof.
  unfold sumOf.
  induction msgs as [|msg rest IH]; intro usage.
  - destruct usage. simpl. f_equal; lia.
  - simpl fold_left. rewrite IH. unfold countedTokens. simpl flat_map.
    unfold addMessage.
    destruct (String.eqb (msg_type msg) MessageType.Gemini);
      [destruct (tokens msg) as [t|]|]; simpl; f_equal; lia.
Qed.

Lemma countedTokens_retouch (other : GeminiMessage -> Z * Z * Z)
    (field : GeminiMessageTokens -> Z) (msgs : list GeminiMessage) :
  field = input \/ field = output \/ field = cached ->
  map field (countedTokens (map (retouch other) msgs))
  = map field (countedTokens msgs).
Proof.
  intro Hfield. unfold countedTokens.
  induction msgs as [|msg rest IH]; [reflexivity|].
  simpl. rewrite !map_app, IH. f_equal.
  destruct (String.eqb (msg_type msg) MessageType.Gemini); [|reflexivity].
  destruct (tokens msg) as [t|]; [|reflexivity].
  destruct (other msg) as [[x y] z]. simpl.
  destruct Hfield as [-> | [-> | ->]]; reflexivity.
Qed.

Lemma skipn_map_retouch (other : GeminiMessage -> Z * Z * Z) (n : nat)
    (msgs : list GeminiMessage) :
  skipn n (map (retouch other) msgs) = map (retouch other) (skipn n msgs).
Proof. apply skipn_map. Qed.

End GeminiUsage.

(** C10. For every Gemini transcript and every start index (an index is
    not negative), [calculateTokenUsage] returns a usage whose
    [cacheCreationTokens] is 0 and that has no [subagentTokens]. Its
    input, output and cache-read totals are the sums of the [input],
    [output] and [cached] fields over the messages of type ["gemini"]
    that carry a token payload, from the start index on, and its call
    count is their number. The [thoughts], [tool] and [total] fields are
    ignored: replacing them by anything leaves the result unchanged. *)
Theorem gemini_calculateTokenUsage_totals
    (transcript : Gemini.GeminiTranscript) (startMessageIndex : Z) :
  0 <= startMessageIndex ->
  let scanned :=
    skipn (Z.to_nat startMessageIndex) (Gemini.messages transcript) in
  exists usage : TokenUsage,
    Gemini.calculateTokenUsage transcript startMessageIndex = Returned usage
    /\ cacheCreationTokens usage = 0
    /\ subagentTokens usage = None
    /\ inputTokens usage = sumOf Gemini.input (countedTokens scanned)
    /\ outputTokens usage = sumOf Gemini.output (countedTokens scanned)
    /\ cacheReadTokens usage = sumOf Gemini.cached (countedTokens scanned)
    /\ apiCallCount usage = Z.of_nat (length (countedTokens scanned))
    /\ forall other : Gemini.GeminiMessage -> Z * Z * Z,
         Gemini.calculateTokenUsage
           (Gemini.mkGeminiTranscript
              (map (retouch other) (Gemini.messages transcript)))
           startMessageIndex
         = Returned usage.
Proof.
  intros Hstart scanned.
  assert (Hneg : (startMessageIndex <? 0) = false) by (apply Z.ltb_ge; lia).
  unfold Gemini.calculateTokenUsage. rewrite Hneg. fold scanned.
  rewrite fold_addMessage. eexists. split; [reflexivity|].
  simpl. repeat split.
  intro other. rewrite skipn_map_retouch. fold scanned.
  rewrite fold_addMessage. simpl. unfold sumOf.
  rewrite !countedTokens_retouch by auto.
  do 2 f_equal.
  rewrite <- (length_map Gemini.input (countedTokens (map (retouch other) scanned))).
  rewrite countedTokens_retouch by auto.
  now rewrite length_map.
Qed.

(** The transcript of the test suite, scanned from its second message. *)
Lemma gemini_calculateTokenUsage_totals_witness :
  let transcript :=
    Gemini.mkGeminiTranscript
      [ Gemini.mkGeminiMessage (Some "u1") "user" "hello" None
          (Some (Gemini.mkGeminiMessageTokens 10 0 0 0 0 10));
        Gemini.mkGeminiMessage (Some "a1") "gemini" "hi" None
          (Some (Gemini.mkGeminiMessageTokens 100 50 5 7 3 165));
        Gemini.mkGeminiMessage (Some "a2") "gemini" "done" None
          (Some (Gemini.mkGeminiMessageTokens 200 100 10 0 0 310)) ] in
  0 <= 1
  /\ Gemini.calculateTokenUsage transcript 1
     = Returned (mkTokenUsage 300 0 15 150 2 None)
  /\ exists usage : TokenUsage,
       Gemini.calculateTokenUsage transcript 1 = Returned usage
       /\ cacheCreationTokens usage = 0
       /\ subagentTokens usage = None.
Proof.
  intro transcript.
  split; [lia|]. split; [reflexivity|].
  destruct (gemini_calculateTokenUsage_totals transcript 1 ltac:(lia))
    as (usage & Hret & Hcache & Hsub & _).
  exists usage. repeat split; assumption.
Defined.

Example gemini_calculateTokenUsage_negative_index :
  Gemini.calculateTokenUsage (Gemini.mkGeminiTranscript []) (-1)
  = Thrown TypeError.
Proof. reflexivity. Qed.

(* ------------------------------------------------------------------ *)
(** ** Maps in insertion order *)

Section StringMapFacts.

Context {V : Type}.
Implicit Types (m : StringMap.t V) (k : string) (v : V).

Lemma get_none_iff m k : StringMap.get k m = None <-> ~ In k (StringMap.keys m).
Proof.
  induction m as [|[k' v'] m IH]; simpl; [tauto|].
  destruct (String.eqb_spec k k') as [->|Hne].
  - split; [discriminate | intro H; exfalso; apply H; now left].
  - rewrite IH. split; [intros H [E|E]; [congruence | tauto] | tauto].
Qed.

Lemma get_some_in m k v : StringMap.get k m = Some v -> In (k, v) m.
Proof.
  induction m as [|[k' v'] m IH]; simpl; [discriminate|].
  destruct (String.eqb_spec k k') as [->|Hne].
  - intros [= ->]. now left.
  - intro H. right. now apply IH.
Qed.

Lemma in_get m k v :
  NoDup (StringMap.keys m) -> In (k, v) m -> StringMap.get k m = Some v.
Proof.
  induction m as [|[k' v'] m IH]; simpl; [tauto|].
  intros Hnd [[= -> ->]|Hin].
  - now rewrite String.eqb_refl.
  - inversion Hnd as [|? ? Hnotin Hnd']; subst.
    destruct (String.eqb_spec k k') as [->|Hne].
    + exfalso. apply Hnotin. change k' with (fst (k', v)). now apply in_map.
    + now apply IH.
Qed.

Lemma set_fresh m k v :
  StringMap.get k m = None -> StringMap.set k v m = (m ++ [(k, v)])%list.
Proof.
  induction m as [|[k' v'] m IH]; simpl; [reflexivity|].
  destruct (String.eqb_spec k k') as [->|Hne]; [discriminate|].
  intro H. now rewrite IH.
Qed.

Lemma keys_set_present m k v v' :
  StringMap.get k m = Some v' ->
  StringMap.keys (StringMap.set k v m) = StringMap.keys m.
Proof.
  induction m as [|[k' w] m IH]; simpl; [discriminate|].
  destruct (String.eqb_spec k k') as [->|Hne]; [reflexivity|].
  intro H. simpl. f_equal. now apply IH.
Qed.

Lemma get_set_same m k v : StringMap.get k (StringMap.set k v m) = Some v.
Proof.
  induction m as [|[k' w] m IH]; simpl.
  - now rewrite String.eqb_refl.
  - destruct (String.eqb_spec k k') as [->|Hne]; simpl.
    + now rewrite String.eqb_refl.
    + apply String.eqb_neq in Hne. now rewrite Hne.
Qed.

Lemma get_set_other m k k' v :
  k' <> k -> StringMap.get k' (StringMap.set k v m) = StringMap.get k' m.
Proof.
  intro Hne. induction m as [|[k0 w] m IH]; simpl.
  - apply String.eqb_neq in Hne. now rewrite Hne.
  - destruct (String.eqb_spec k k0) as [->|Hk]; simpl.
    + apply String.eqb_neq in Hne. now rewrite Hne.
    + now rewrite IH.
Qed.

End StringMapFacts.

Section FirstSeen.

Lemma firstSeen_snoc (ids : list string) (id : string) :
  firstSeen (ids ++ [id])
  = if existsb (String.eqb id) (firstSeen ids)
    then firstSeen ids else (firstSeen ids ++ [id])%list.
Proof. unfold firstSeen. now rewrite fold_left_app. Qed.

Lemma existsb_eqb_in (id : string) (l : list string) :
  existsb (String.eqb id) l = true <-> In id l.
Proof.
  rewrite existsb_exists. split.
  - intros (x & Hin & Heq). apply String.eqb_eq in Heq. now subst.
  - intro Hin. exists id. split; [assumption | apply String.eqb_refl].
Qed.

Lemma firstSeen_in (ids : list string) (id : string) :
  In id (firstSeen ids) <-> In id ids.
Proof.
  revert id. induction ids as [|x ids IH] using rev_ind; intro id;
    [reflexivity|].
  rewrite firstSeen_snoc, in_app_iff.
  destruct (existsb (String.eqb x) (firstSeen ids)) eqn:E.
  - apply existsb_eqb_in, IH in E. rewrite IH. simpl.
    split; [tauto | intros [H|[<-|[]]]; assumption].
  - rewrite in_app_iff, IH. reflexivity.
Qed.

Lemma firstSeen_NoDup (ids : list string) : NoDup (firstSeen ids).
Proof.
  induction ids as [|x ids IH] using rev_ind; [constructor|].
  rewrite firstSeen_snoc.
  destruct (existsb (String.eqb x) (firstSeen ids)) eqn:E; [assumption|].
  apply NoDup_app; [assumption | repeat constructor; intros [] |].
  intros y Hy [<-|[]].
  apply existsb_eqb_in in Hy. congruence.
Qed.

End FirstSeen.

(* ------------------------------------------------------------------ *)
(** ** Claude token usage: deduplication by message id *)

Section ClaudeUsage.

Import Claude.

Lemma recordUsage_row (m : StringMap.t MessageUsage) (line : TranscriptLine) :
  recordUsage m line
  = match usageRow line with
    | Some row => keepLarger m row
    | None => m
    end.
Proof.
  unfold recordUsage, usageRow.
  destruct (String.eqb (line_type line) MessageType.Assistant); [|reflexivity].
  simpl negb. cbv iota.
  destruct (line_message line) as [msg|]; [|reflexivity].
  destruct (msg_id msg) as [id|]; [|reflexivity].
  destruct (msg_usage msg) as [usage|]; [|reflexivity].
  destruct (String.eqb id EmptyString); reflexivity.
Qed.

Lemma fold_recordUsage (lines : list TranscriptLine) :
  forall m : StringMap.t MessageUsage,
    fold_left recordUsage lines m = fold_left keepLarger (usageRows lines) m.
Proof.
  induction lines as [|line rest IH]; intro m; [reflexivity|].
  simpl fold_left. rewrite IH, recordUsage_row.
  unfold usageRows. simpl flat_map.
  destruct (usageRow line) as [row|]; reflexivity.
Qed.

Lemma rowsOf_snoc (id id' : string) (u : MessageUsage)
    (rows : list (string * MessageUsage)) :
  rowsOf id (rows ++ [(id', u)])
  = if String.eqb id' id then (rowsOf id rows ++ [u])%list else rowsOf id rows.
Proof.
  unfold rowsOf. rewrite filter_app, map_app. simpl.
  destruct (String.eqb id' id); simpl; [reflexivity | apply app_nil_r].
Qed.

Lemma rowsOf_absent (id : string) (rows : list (string * MessageUsage)) :
  ~ In id (map fst rows) -> rowsOf id rows = [].
Proof.
  unfold rowsOf. induction rows as [|[k u] rows IH]; [reflexivity|].
  simpl. intro H. destruct (String.eqb_spec k id) as [->|Hne].
  - exfalso. apply H. now left.
  - apply IH. tauto.
Qed.

Lemma firstMaximum_bounds (rows : list MessageUsage) (e : MessageUsage) :
  firstMaximum rows e ->
  Forall (fun r => output_tokens r <= output_tokens e) rows.
Proof.
  intros (before & after & -> & Hb & Ha).
  apply Forall_app. split.
  - eapply Forall_impl; [|exact Hb]. intros r Hr. simpl in Hr. lia.
  - constructor; [lia | assumption].
Qed.

(** A list has at most one first maximum. *)
Lemma firstMaximum_unique (rows : list MessageUsage) (u u' : MessageUsage) :
  firstMaximum rows u -> firstMaximum rows u' -> u = u'.
Proof.
  intros (before & after & -> & Hb & Ha) (before' & after' & Heq & Hb' & Ha').
  revert before' Heq Hb'.
  induction before as [|x before IH]; intros [|x' before'] Heq Hb'.
  - now injection Heq.
  - (* [u] comes first, so it is before [u'] and strictly smaller;
       [u'] comes after [u], so it is not larger. *)
    simpl in Heq. injection Heq as <- ->.
    inversion Hb' as [|? ? Hlt _]; subst.
    apply Forall_app in Ha as [_ Hu'].
    inversion Hu' as [|? ? Hle _]; subst. lia.
  - simpl in Heq. injection Heq as -> <-.
    inversion Hb as [|? ? Hlt _]; subst.
    apply Forall_app in Ha' as [_ Hu].
    inversion Hu as [|? ? Hle _]; subst. lia.
  - simpl in Heq. injection Heq as <- Heq.
    inversion Hb; subst. inversion Hb'; subst.
    now apply (IH ltac:(assumption) before').
Qed.

(** What the first loop of [calculateTokenUsage] has built after the
    rows [rows]: one entry per distinct id, in the order the ids were
    first seen, holding the first row of largest [output_tokens]. *)
Lemma keepLarger_invariant (rows : list (string * MessageUsage)) :
  StringMap.keys (fold_left keepLarger rows []) = firstSeen (map fst rows)
  /\ forall (id : string) (u : MessageUsage),
       StringMap.get id (fold_left keepLarger rows []) = Some u ->
       firstMaximum (rowsOf id rows) u.
Proof.
  induction rows as [|[id0 u0] rows [IHkeys IHmax]] using rev_ind.
  - split; [reflexivity | discriminate].
  - rewrite fold_left_app, map_app.
    change (map fst [(id0, u0)]) with [id0].
    rewrite firstSeen_snoc. simpl fold_left.
    set (m := fold_left keepLarger rows []) in *.
    unfold keepLarger.
    destruct (StringMap.get id0 m) as [e|] eqn:Hget.
    + (* the id is already in the map *)
      assert (Hin : In id0 (firstSeen (map fst rows))).
      { rewrite <- IHkeys.
        destruct (in_dec string_dec id0 (StringMap.keys m)) as [H|H];
          [assumption|]. apply get_none_iff in H. congruence. }
      apply existsb_eqb_in in Hin. rewrite Hin.
      pose proof (IHmax _ _ Hget) as Hmax.
      destruct (output_tokens e <? output_tokens u0) eqn:Hlt.
      * apply Z.ltb_lt in Hlt. split.
        { erewrite keys_set_present by eassumption. exact IHkeys. }
        intros id u Hu. rewrite rowsOf_snoc.
        destruct (String.eqb_spec id0 id) as [<-|Hne].
        -- rewrite get_set_same in Hu. injection Hu as <-.
           exists (rowsOf id0 rows), []. repeat split; [|constructor].
           eapply Forall_impl; [|exact (firstMaximum_bounds _ _ Hmax)].
           intros r Hr. simpl in Hr. lia.
        -- rewrite get_set_other in Hu by congruence. now apply IHmax.
      * apply Z.ltb_ge in Hlt. split; [exact IHkeys|].
        intros id u Hu. rewrite rowsOf_snoc.
        destruct (String.eqb_spec id0 id) as [<-|Hne]; [|now apply IHmax].
        assert (u = e) by congruence. subst u.
        destruct Hmax as (before & after & -> & Hb & Ha).
        exists before, (after ++ [u0])%list. repeat split.
        -- now rewrite <- app_assoc.
        -- assumption.
        -- apply Forall_app. split; [assumption | now repeat constructor].
    + (* a new id *)
      assert (Hnotin : ~ In id0 (map fst rows)).
      { rewrite <- firstSeen_in, <- IHkeys. now apply get_none_iff. }
      assert (Hex : existsb (String.eqb id0) (firstSeen (map fst rows)) = false).
      { destruct (existsb (String.eqb id0) (firstSeen (map fst rows))) eqn:E;
          [|reflexivity].
        apply existsb_eqb_in in E. apply -> firstSeen_in in E. contradiction. }
      rewrite Hex. split.
      * rewrite set_fresh by assumption.
        unfold StringMap.keys in *. now rewrite map_app, IHkeys.
      * intros id u Hu. rewrite rowsOf_snoc.
        destruct (String.eqb_spec id0 id) as [<-|Hne].
        -- rewrite get_set_same in Hu. injection Hu as <-.
           rewrite rowsOf_absent by assumption.
           exists [], []. repeat split; constructor.
        -- rewrite get_set_other in Hu by congruence. now apply IHmax.
Qed.

(** The second loop adds the retained rows to the usage it starts from. *)
Lemma fold_addMessageUsage (rows : list MessageUsage) :
  forall usage : TokenUsage,
    fold_left addMessageUsage rows usage
    = mkTokenUsage
        (inputTokens usage + sumOf input_tokens rows)
        (cacheCreationTokens usage + sumOf cache_creation_input_tokens rows)
        (cacheReadTokens usage + sumOf cache_read_input_tokens rows)
        (outputTokens usage + sumOf output_tokens rows)
        (apiCallCount usage)
        (subagentTokens usage).
Proof.
  unfold sumOf.
  induction rows as [|u rest IH]; intro usage.
  - destruct usage. simpl. f_equal; lia.
  - simpl fold_left. rewrite IH. unfold addMessageUsage. simpl. f_equal; lia.
Qed.

End ClaudeUsage.

(** C2. The Claude [calculateTokenUsage] groups the assistant lines that
    carry a message id and a usage payload by id and retains one row per
    id: the first row with the largest [output_tokens] (a later row
    replaces the retained one only when its [output_tokens] is strictly
    greater). The four token totals are the sums over the retained rows,
    and [apiCallCount] is the number of retained rows, that is of
    distinct ids, whatever the number of lines (the retained row of an
    id is determined: a list has one first maximum at most). Two rows
    with one id and output tokens 10 and 50 give one call and 50 output
    tokens. A line carries a message id when [msg.id] is a non-empty
    string, as the code tests it. *)
Theorem claude_calculateTokenUsage_deduplicates :
  (forall lines : list Claude.TranscriptLine,
     let rows := usageRows lines in
     exists retained : list (string * Claude.MessageUsage),
       map fst retained = firstSeen (map fst rows)
       /\ NoDup (map fst retained)
       /\ (forall id : string,
             In id (map fst retained) <-> In id (map fst rows))
       /\ Forall (fun r => firstMaximum (rowsOf (fst r) rows) (snd r)) retained
       /\ Claude.calculateTokenUsage lines
          = mkTokenUsage
              (sumOf Claude.input_tokens (map snd retained))
              (sumOf Claude.cache_creation_input_tokens (map snd retained))
              (sumOf Claude.cache_read_input_tokens (map snd retained))
              (sumOf Claude.output_tokens (map snd retained))
              (Z.of_nat (length retained))
              None)
  /\ (forall (rows : list Claude.MessageUsage) (u u' : Claude.MessageUsage),
        firstMaximum rows u -> firstMaximum rows u' -> u = u')
  /\ (forall (uuid1 uuid2 id : string) (content1 content2 : Claude.MessageContent)
             (u1 u2 : Claude.MessageUsage),
        id <> EmptyString ->
        Claude.output_tokens u1 = 10 ->
        Claude.output_tokens u2 = 50 ->
        let usage :=
          Claude.calculateTokenUsage
            [ Claude.mkTranscriptLine "assistant" uuid1
                (Some (Claude.mkMessage (Some id) (Some u1) content1));
              Claude.mkTranscriptLine "assistant" uuid2
                (Some (Claude.mkMessage (Some id) (Some u2) content2)) ] in
        apiCallCount usage = 1 /\ outputTokens usage = 50).
Proof.
  split; [|split; [exact firstMaximum_unique|]].
  - intros lines rows.
    destruct (keepLarger_invariant rows) as [Hkeys Hmax].
    exists (fold_left keepLarger rows []).
    set (m := fold_left keepLarger rows []) in *.
    assert (Hnd : NoDup (StringMap.keys m))
      by (rewrite Hkeys; apply firstSeen_NoDup).
    split; [exact Hkeys|]. split; [exact Hnd|]. split; [|split].
    + intro id. change (map fst m) with (StringMap.keys m).
      rewrite Hkeys. apply firstSeen_in.
    + apply Forall_forall. intros [id u] Hin. simpl.
      apply Hmax. now apply in_get.
    + unfold Claude.calculateTokenUsage.
      rewrite fold_recordUsage. fold rows. fold m.
      rewrite fold_addMessageUsage. unfold StringMap.size, StringMap.values.
      simpl. reflexivity.
  - intros uuid1 uuid2 id content1 content2 u1 u2 Hid H1 H2 usage.
    subst usage. unfold Claude.calculateTokenUsage.
    apply String.eqb_neq in Hid.
    rewrite fold_recordUsage. unfold usageRows, usageRow. simpl flat_map.
    cbn [Claude.line_type Claude.line_message Claude.msg_id Claude.msg_usage].
    change (String.eqb "assistant" Claude.MessageType.Assistant) with true.
    cbv iota. rewrite Hid. cbn [app fold_left keepLarger StringMap.get StringMap.set].
    rewrite String.eqb_refl, H1, H2. simpl.
    split; [reflexivity | exact H2].
Qed.

(** The two cases of the test suite. *)
Example claude_calculateTokenUsage_examples :
  let row uuid id (i o cc cr : Z) :=
    Claude.mkTranscriptLine "assistant" uuid
      (Some (Claude.mkMessage (Some id) (Some (Claude.mkMessageUsage i cc cr o))
               (Claude.ContentBlocks []))) in
  Claude.calculateTokenUsage
    [row "a1" "msg1" 100 50 10 5; row "a2" "msg2" 200 100 20 10]
  = mkTokenUsage 300 30 15 150 2 None
  /\ Claude.calculateTokenUsage
       [row "a1" "msg1" 100 10 0 0; row "a1-dup" "msg1" 100 50 0 0]
     = mkTokenUsage 100 0 0 50 1 None
  /\ Claude.calculateTokenUsage
       [row "a1" "msg1" 100 50 0 0; row "a1-dup" "msg1" 7 50 0 0;
        row "a1-old" "msg1" 9 20 0 0]
     = mkTokenUsage 100 0 0 50 1 None
  /\ Claude.calculateTokenUsage [] = mkTokenUsage 0 0 0 0 0 None.
Proof. repeat split; reflexivity. Qed.

(* ------------------------------------------------------------------ *)
(** ** parseFromString and parseFromStringAtLine *)

Section ClaudeParse.

Import Claude.

Variable JSON_parse : string -> option TranscriptLine.

Lemma nonBlankLines_cons (rawLine : string) (rest : list string) :
  nonBlankLines (rawLine :: rest)
  = match trim rawLine with
    | EmptyString => nonBlankLines rest
    | trimmed => trimmed :: nonBlankLines rest
    end.
Proof.
  unfold nonBlankLines. simpl. now destruct (trim rawLine).
Qed.

(** The loop of [parseFromStringAtLine], from any state. *)
Lemma fold_parseLineAt (startLine : Z) (rawLines : list string) :
  forall (lines : list TranscriptLine) (totalLines : Z),
    fold_left (parseLineAt JSON_parse startLine) rawLines (lines, totalLines)
    = ((lines ++ wellFormedRecords JSON_parse
                   (skipn (Z.to_nat (startLine - totalLines))
                      (nonBlankLines rawLines)))%list,
       totalLines + Z.of_nat (length (nonBlankLines rawLines))).
Proof.
  induction rawLines as [|rawLine rest IH]; intros lines totalLines.
  - simpl. rewrite skipn_nil. simpl. rewrite app_nil_r. f_equal. lia.
  - simpl fold_left. rewrite nonBlankLines_cons.
    destruct (trim rawLine) as [|c t] eqn:Htrim; [apply IH|].
    destruct (startLine <=? totalLines) eqn:Hstart.
    + apply Z.leb_le in Hstart.
      replace (Z.to_nat (startLine - totalLines)) with 0%nat by lia.
      assert (Hnext : Z.to_nat (startLine - (totalLines + 1)) = 0%nat) by lia.
      simpl skipn. unfold wellFormedRecords at 1. simpl flat_map.
      fold (wellFormedRecords JSON_parse (nonBlankLines rest)).
      destruct (JSON_parse (String c t)) as [parsed|];
        rewrite IH, Hnext; simpl skipn; simpl length;
        rewrite <- ?app_assoc; f_equal; lia.
    + apply Z.leb_gt in Hstart.
      replace (Z.to_nat (startLine - totalLines))
        with (S (Z.to_nat (startLine - (totalLines + 1)))) by lia.
      rewrite IH. simpl skipn. simpl length. f_equal. lia.
Qed.

Lemma fold_parseLine (rawLines : list string) :
  forall lines : list TranscriptLine,
    fold_left (parseLine JSON_parse) rawLines lines
    = (lines ++ wellFormedRecords JSON_parse (nonBlankLines rawLines))%list.
Proof.
  induction rawLines as [|rawLine rest IH]; intro lines.
  - simpl. now rewrite app_nil_r.
  - simpl fold_left. rewrite nonBlankLines_cons. unfold parseLine at 2.
    destruct (trim rawLine) as [|c t]; [apply IH|].
    unfold wellFormedRecords. simpl flat_map.
    destruct (JSON_parse (String c t)); rewrite IH;
      now rewrite <- ?app_assoc.
Qed.

End ClaudeParse.

(** C4 (as amended). For every content and every start line,
    [parseFromStringAtLine] returns as its total the number of lines that
    are not blank (a line that does not parse is counted, a blank line is
    not), and as its records exactly the well-formed records of the
    non-blank lines whose 0-indexed position among the non-blank lines is
    at least the start line. From start line 0 the records are those of
    [parseFromString]. *)
Theorem parseFromStringAtLine_counts_non_blank_lines
    (JSON_parse : string -> option Claude.TranscriptLine)
    (content : string) (startLine : Z) :
  let scanned := nonBlankLines (split_LF content) in
  Claude.parseFromStringAtLine JSON_parse content startLine
  = (wellFormedRecords JSON_parse (skipn (Z.to_nat startLine) scanned),
     Z.of_nat (length scanned))
  /\ fst (Claude.parseFromStringAtLine JSON_parse content 0)
     = Claude.parseFromString JSON_parse content.
Proof.
  intro scanned. unfold Claude.parseFromStringAtLine, Claude.parseFromString.
  rewrite !fold_parseLineAt, fold_parseLine. fold scanned.
  rewrite Z.sub_0_r. simpl. split; reflexivity.
Qed.

(** C4 as stated fails on a blank line: in a content made of an empty
    line and a well-formed record, the record is line 1 of 2, yet from
    start line 1 the function returns no record and the total 1. *)
Lemma parseFromStringAtLine_skips_blank_lines :
  let record :=
    "{" ++ DQs ++ "type" ++ DQs ++ ":" ++ DQs ++ "user" ++ DQs ++ ","
        ++ DQs ++ "uuid" ++ DQs ++ ":" ++ DQs ++ "u1" ++ DQs ++ "}" in
  let content := LFs ++ record in
  split_LF content = [EmptyString; record]
  /\ RefJSON.parseTranscriptLine record
     = Some (Claude.mkTranscriptLine "user" "u1" None)
  /\ Claude.parseFromStringAtLine RefJSON.parseTranscriptLine content 1
     = ([], 1)
  /\ Claude.parseFromStringAtLine RefJSON.parseTranscriptLine content 0
     = ([Claude.mkTranscriptLine "user" "u1" None], 1).
Proof. vm_compute. repeat split; reflexivity. Qed.

(* ------------------------------------------------------------------ *)
(** ** Token usage with subagent transcripts *)

Section SubagentUsage.

Import Claude.

Variable JSON_parse : string -> option (option TranscriptLine).
Variable loadSubagentTranscript : string -> option string.

Lemma set_keys_NoDup {V : Type} (m : StringMap.t V) (k : string) (v : V) :
  NoDup (StringMap.keys m) -> NoDup (StringMap.keys (StringMap.set k v m)).
Proof.
  intro Hnd. destruct (StringMap.get k m) as [v'|] eqn:Hget.
  - now erewrite keys_set_present by eassumption.
  - rewrite set_fresh by assumption. unfold StringMap.keys in *.
    rewrite map_app. apply NoDup_app; [assumption | repeat constructor; intros [] |].
    intros x Hx [<-|[]]. apply get_none_iff in Hget. contradiction.
Qed.

Lemma recordAgentId_NoDup (agentIds : StringMap.t string) (block : ContentBlock) :
  NoDup (StringMap.keys agentIds) ->
  NoDup (StringMap.keys (recordAgentId agentIds block)).
Proof.
  intro Hnd. unfold recordAgentId.
  destruct (negb (String.eqb (block_type block) ContentType.ToolResult));
    [assumption|].
  destruct (extractAgentIdFromText _) as [agentId|]; [|assumption].
  destruct (tool_use_id block) as [toolUseId|]; [|assumption].
  destruct (String.eqb toolUseId EmptyString); [assumption|].
  now apply set_keys_NoDup.
Qed.

Lemma fold_recordAgentId_NoDup (blocks : list ContentBlock) :
  forall agentIds : StringMap.t string,
    NoDup (StringMap.keys agentIds) ->
    NoDup (StringMap.keys (fold_left recordAgentId blocks agentIds)).
Proof.
  induction blocks as [|block rest IH]; intros agentIds Hnd; [assumption|].
  simpl. now apply IH, recordAgentId_NoDup.
Qed.

(** Every discovered identifier is discovered once. *)
Lemma extractSpawnedAgentIds_NoDup (lines : list TranscriptLine) :
  NoDup (StringMap.keys (extractSpawnedAgentIds lines)).
Proof.
  unfold extractSpawnedAgentIds.
  assert (H : forall agentIds : StringMap.t string,
             NoDup (StringMap.keys agentIds) ->
             NoDup (StringMap.keys (fold_left recordAgentIds lines agentIds))).
  { induction lines as [|line rest IH]; intros agentIds Hnd; [assumption|].
    simpl. apply IH. unfold recordAgentIds.
    destruct (negb (String.eqb (line_type line) MessageType.User));
      [assumption|].
    destruct (line_message line) as [msg|]; [|assumption].
    destruct (msg_content msg); try assumption.
    now apply fold_recordAgentId_NoDup. }
  apply H. constructor.
Qed.

Lemma calculateTokenUsage_no_subagent (lines : list TranscriptLine) :
  subagentTokens (calculateTokenUsage lines) = None.
Proof.
  unfold calculateTokenUsage. now rewrite fold_addMessageUsage.
Qed.

Local Abbreviation usagesOf :=
  (subagentUsages (checkedLine JSON_parse) loadSubagentTranscript).

(** The loop of [parseFromString] on unchecked values, from any state. *)
Lemma fold_uncheckedLine (rawLines : list string) :
  forall lines : list (option TranscriptLine),
    fold_left (Unchecked.parseLine JSON_parse) rawLines lines
    = (lines ++ wellFormedRecords JSON_parse (nonBlankLines rawLines))%list.
Proof.
  induction rawLines as [|rawLine rest IH]; intro lines.
  - simpl. now rewrite app_nil_r.
  - simpl fold_left. rewrite nonBlankLines_cons.
    unfold Unchecked.parseLine at 2.
    destruct (trim rawLine) as [|c t]; [apply IH|].
    unfold wellFormedRecords. simpl flat_map.
    destruct (JSON_parse (String c t)); rewrite IH;
      now rewrite <- ?app_assoc.
Qed.

(** The first loop of [calculateTokenUsage] on the values of some lines:
    it throws when one of them is [null], and otherwise goes through the
    lines as the typed loop does. *)
Lemma recordUsages_records (trimmedLines : list string) :
  forall usageByMessageId : StringMap.t MessageUsage,
    Unchecked.recordUsages usageByMessageId
      (wellFormedRecords JSON_parse trimmedLines)
    = if existsb
           (fun trimmed => match JSON_parse trimmed with
                           | Some None => true
                           | _ => false
                           end)
           trimmedLines
      then Thrown TypeError
      else Returned
             (fold_left recordUsage
                (wellFormedRecords (checkedLine JSON_parse) trimmedLines)
                usageByMessageId).
Proof.
  unfold wellFormedRecords, checkedLine.
  induction trimmedLines as [|trimmed rest IH]; intro usageByMessageId;
    [reflexivity|].
  cbn [flat_map existsb].
  destruct (JSON_parse trimmed) as [[line|]|]; cbn [app orb];
    [| reflexivity |]; apply IH.
Qed.

(** The usage of a delivered transcript. *)
Lemma calculateTokenUsage_unchecked (content : string) :
  Unchecked.calculateTokenUsage (Unchecked.parseFromString JSON_parse content)
  = if holdsNullLine JSON_parse content then Thrown TypeError
    else Returned
           (calculateTokenUsage
              (parseFromString (checkedLine JSON_parse) content)).
Proof.
  unfold Unchecked.calculateTokenUsage, Unchecked.parseFromString,
    holdsNullLine, calculateTokenUsage, parseFromString.
  rewrite fold_uncheckedLine, fold_parseLine. cbn [app].
  rewrite recordUsages_records.
  now destruct (existsb _ (nonBlankLines (split_LF content))).
Qed.

(** The loop of [calculateTotalTokenUsage], from any state. *)
Lemma addSubagents_outcome (agentIds : list string) :
  forall (subagentUsage : TokenUsage) (hasSubagentData : bool),
    addSubagents JSON_parse loadSubagentTranscript agentIds
      (subagentUsage, hasSubagentData)
    = if existsb (holdsNullLine JSON_parse)
           (loadedTranscripts loadSubagentTranscript agentIds)
      then Thrown TypeError
      else Returned
             (mkTokenUsage
                (inputTokens subagentUsage
                 + sumOf inputTokens (usagesOf agentIds))
                (cacheCreationTokens subagentUsage
                 + sumOf cacheCreationTokens (usagesOf agentIds))
                (cacheReadTokens subagentUsage
                 + sumOf cacheReadTokens (usagesOf agentIds))
                (outputTokens subagentUsage
                 + sumOf outputTokens (usagesOf agentIds))
                (apiCallCount subagentUsage
                 + sumOf apiCallCount (usagesOf agentIds))
                (subagentTokens subagentUsage),
              hasSubagentData
              || negb (Nat.eqb (length (loadedTranscripts
                                          loadSubagentTranscript agentIds)) 0)).
Proof.
  unfold subagentUsages, sumOf.
  induction agentIds as [|agentId rest IH]; intros subagentUsage hasSubagentData.
  - destruct subagentUsage. simpl. rewrite orb_false_r.
    f_equal. f_equal. f_equal; lia.
  - cbn [addSubagents]. unfold addSubagent.
    unfold loadedTranscripts. cbn [flat_map].
    fold (loadedTranscripts loadSubagentTranscript rest).
    destruct (loadSubagentTranscript agentId) as [[|c content]|];
      [apply IH | | apply IH].
    cbn [app existsb map]. rewrite calculateTokenUsage_unchecked.
    destruct (holdsNullLine JSON_parse (String c content)); [reflexivity|].
    cbn [orb]. rewrite IH.
    destruct (existsb _ (loadedTranscripts loadSubagentTranscript rest));
      [reflexivity|].
    cbn [inputTokens cacheCreationTokens cacheReadTokens
         outputTokens apiCallCount subagentTokens length Nat.eqb negb
         fold_right].
    rewrite orb_true_r. f_equal. f_equal. f_equal; lia.
Qed.

End SubagentUsage.




(** A transcript whose only line is [null] is delivered, parsed, and
    makes the call throw. *)
Example calculateTotalTokenUsage_null_line :
  let lines :=
    [ Claude.mkTranscriptLine "user" "u1"
        (Some (Claude.mkMessage None None
                 (Claude.ContentBlocks
                    [ Claude.mkContentBlock "tool_result" None (Some "tu_123")
                        (Claude.ResultString "agentId: sub1") ]))) ] in
  let loader := fun _ : string => Some "null" in
  Claude.Unchecked.parseFromString RefJSON.parseUncheckedLine "null" = [None]
  /\ Claude.calculateTotalTokenUsage RefJSON.parseUncheckedLine lines loader
     = Thrown TypeError.
Proof. vm_compute. split; reflexivity. Qed.

(** The case of the test suite: one subagent, whose transcript is one
    assistant row; a second identifier whose transcript is unavailable. *)
Example calculateTotalTokenUsage_example :
  let q := DQs in
  let lines :=
    [ Claude.mkTranscriptLine "assistant" "a1"
        (Some (Claude.mkMessage (Some "msg1")
                 (Some (Claude.mkMessageUsage 100 0 0 50))
                 (Claude.ContentBlocks [])));
      Claude.mkTranscriptLine "user" "u1"
        (Some (Claude.mkMessage None None
                 (Claude.ContentBlocks
                    [ Claude.mkContentBlock "tool_result" None (Some "tu_123")
                        (Claude.ResultString "agentId: sub1");
                      Claude.mkContentBlock "tool_result" None (Some "tu_124")
                        (Claude.ResultBlocks
                           [Claude.mkTextBlock "text" (Some "agentId: sub2")]) ]))) ] in
  let subTranscript :=
    "{" ++ q ++ "type" ++ q ++ ":" ++ q ++ "assistant" ++ q ++ ","
        ++ q ++ "uuid" ++ q ++ ":" ++ q ++ "sa1" ++ q ++ ","
        ++ q ++ "message" ++ q ++ ":{" ++ q ++ "id" ++ q ++ ":" ++ q ++ "sub_msg1" ++ q ++ ","
        ++ q ++ "content" ++ q ++ ":[],"
        ++ q ++ "usage" ++ q ++ ":{" ++ q ++ "input_tokens" ++ q ++ ":50,"
        ++ q ++ "output_tokens" ++ q ++ ":25,"
        ++ q ++ "cache_creation_input_tokens" ++ q ++ ":0,"
        ++ q ++ "cache_read_input_tokens" ++ q ++ ":0}}}" in
  let loader := fun agentId : string =>
    if String.eqb agentId "sub1" then Some subTranscript else None in
  Claude.extractSpawnedAgentIds lines = [("sub1", "tu_123"); ("sub2", "tu_124")]
  /\ Claude.calculateTotalTokenUsage RefJSON.parseUncheckedLine lines loader
     = Returned (mkTokenUsage 100 0 0 50 1 (Some (mkTokenUsage 50 0 0 25 1 None))).
Proof. vm_compute. repeat split; reflexivity. Qed.

(* ------------------------------------------------------------------ *)
(** ** chunkGeminiJSON and reassembleGeminiJSON *)

Section GeminiChunks.

Variable JSON_parse : string -> option json.
Variable JSON_stringify : json -> string.

Local Abbreviation seal := (fun group => JSON_stringify (wrapper group)).

(** The loop cuts the messages it is given, put after the accumulator,
    into groups that are not empty, and seals each group in order. *)
Lemma chunkGeminiJSON_loop_groups (maxSize : Z) (messages : list json) :
  forall (chunks : list string) (currentMessages : list json) (currentSize : Z),
  exists groups : list (list json),
    chunkGeminiJSON_loop JSON_stringify maxSize messages chunks
      currentMessages currentSize
    = (chunks ++ map seal groups)%list
    /\ concat groups = (currentMessages ++ messages)%list
    /\ Forall (fun group => group <> []) groups.
Proof.
  induction messages as [|msg rest IH]; intros chunks cur size.
  - simpl. destruct cur as [|m cur].
    + exists []. simpl. now rewrite app_nil_r.
    + exists [m :: cur]. simpl. rewrite !app_nil_r.
      repeat split. constructor; [discriminate | constructor].
  - cbn [chunkGeminiJSON_loop]. cbv zeta.
    destruct ((maxSize <? size + _) && (0 <? length cur)%nat) eqn:Hseal.
    + apply andb_true_iff in Hseal as [_ Hcur].
      destruct (IH (chunks ++ [seal cur])%list [msg]
                  (emptyWrapperLength
                   + (len (JSON_stringify msg)
                      + (if (0 <? length cur)%nat then 1 else 0))))
        as (groups & Hloop & Hconcat & Hne).
      exists (cur :: groups). rewrite Hloop. simpl.
      rewrite <- app_assoc, Hconcat. repeat split.
      constructor; [|assumption].
      destruct cur; [discriminate Hcur | discriminate].
    + destruct (IH chunks (cur ++ [msg])%list
                  (size + (len (JSON_stringify msg)
                           + (if (0 <? length cur)%nat then 1 else 0))))
        as (groups & Hloop & Hconcat & Hne).
      exists groups. rewrite Hloop, Hconcat, <- app_assoc.
      repeat split. assumption.
Qed.

Lemma wrapper_messages (group : list json) :
  member "messages" (wrapper group) = Some (JArray group).
Proof. reflexivity. Qed.

(** Reassembly reads back the groups that were sealed. *)
Lemma reassembleGeminiJSON_loop_groups (groups : list (list json)) :
  Forall (fun group => roundTrips JSON_parse JSON_stringify (wrapper group))
    groups ->
  forall allMessages : list json,
    reassembleGeminiJSON_loop JSON_parse (map seal groups) allMessages
    = Returned (allMessages ++ concat groups)%list.
Proof.
  induction 1 as [|group groups Hgroup _ IH]; intro allMessages; simpl.
  - now rewrite app_nil_r.
  - unfold roundTrips in Hgroup. rewrite Hgroup, wrapper_messages. simpl.
    rewrite IH. now rewrite <- app_assoc.
Qed.

Lemma in_concat_segment {A : Type} (groups : list (list A)) (group : list A) :
  In group groups -> segmentOf group (concat groups).
Proof.
  induction groups as [|g groups IH]; simpl; [tauto|].
  intros [->|Hin].
  - exists [], (concat groups). reflexivity.
  - destruct (IH Hin) as (before & after & Heq).
    exists (g ++ before)%list, after. rewrite Heq. now rewrite <- app_assoc.
Qed.

Lemma segmentOf_refl {A : Type} (l : list A) : segmentOf l l.
Proof. exists [], []. simpl. now rewrite app_nil_r. Qed.

Lemma segmentOf_nil {A : Type} (l : list A) : segmentOf [] l.
Proof. exists [], l. reflexivity. Qed.

Lemma prefixes_app {A : Type} (group after : list A) :
  In group (prefixes (group ++ after)).
Proof.
  induction group as [|x group IH]; simpl; [destruct after; now left|].
  right. now apply in_map.
Qed.

Lemma suffixes_app {A : Type} (before rest : list A) :
  In rest (suffixes (before ++ rest)).
Proof.
  induction before as [|x before IH]; simpl; [destruct rest; now left|].
  now right.
Qed.

(** Every run of consecutive elements is in the enumeration. *)
Lemma segmentOf_segments {A : Type} (group whole : list A) :
  segmentOf group whole -> In group (segments whole).
Proof.
  intros (before & after & ->). unfold segments.
  apply in_flat_map. exists (group ++ after)%list.
  split; [apply suffixes_app | apply prefixes_app].
Qed.

End GeminiChunks.

(** C3. Take a well-formed message-array content: it parses to a document
    whose [messages] member is an array, and the wrapper of any run of
    consecutive messages is given back by [JSON.stringify] followed by
    [JSON.parse], as JSON values are. Then, for every threshold,
    [chunkGeminiJSON] returns chunks, [reassembleGeminiJSON] of them
    returns a document, and the message list of that document is the
    message list of the content, element for element and in order,
    however many chunks there are. *)
Theorem gemini_chunks_reassemble_to_same_messages
    (JSON_parse : string -> option json) (JSON_stringify : json -> string)
    (content : string) (maxSize : Z) (msgs : list json) :
  messagesOf JSON_parse content = Some msgs ->
  (forall group : list json,
     segmentOf group msgs ->
     roundTrips JSON_parse JSON_stringify (wrapper group)) ->
  exists (chunks : list string) (reassembled : string),
    chunkGeminiJSON JSON_parse JSON_stringify content maxSize = Returned chunks
    /\ reassembleGeminiJSON JSON_parse JSON_stringify chunks
       = Returned reassembled
    /\ messagesOf JSON_parse reassembled = Some msgs.
Proof.
  intros Hcontent Hround.
  assert (Hwrapped : forall group : list json,
            segmentOf group msgs ->
            messagesOf JSON_parse (JSON_stringify (wrapper group)) = Some group).
  { intros group Hseg. unfold messagesOf.
    now rewrite (Hround group Hseg), wrapper_messages. }
  unfold chunkGeminiJSON.
  destruct (len content <=? maxSize).
  { exists [content], content. repeat split. exact Hcontent. }
  unfold messagesOf in Hcontent.
  destruct (JSON_parse content) as [parsed|]; [|discriminate].
  destruct (member "messages" parsed) as [[| | | |items|]|];
    try discriminate.
  injection Hcontent as ->. cbn [iterate].
  destruct (chunkGeminiJSON_loop_groups JSON_stringify maxSize msgs [] []
              emptyWrapperLength)
    as (groups & Hloop & Hconcat & Hne).
  simpl in Hloop, Hconcat. rewrite Hloop.
  assert (Hgroups : Forall (fun group =>
                              roundTrips JSON_parse JSON_stringify (wrapper group))
                      groups).
  { apply Forall_forall. intros group Hin. apply Hround.
    rewrite <- Hconcat. now apply in_concat_segment. }
  destruct groups as [|g1 [|g2 groups]].
  - (* no message, no chunk *)
    simpl in Hconcat. subst msgs.
    exists [], (JSON_stringify (wrapper [])). repeat split.
    apply Hwrapped, segmentOf_nil.
  - (* one chunk *)
    simpl in Hconcat. rewrite app_nil_r in Hconcat. subst g1.
    exists [JSON_stringify (wrapper msgs)], (JSON_stringify (wrapper msgs)).
    repeat split. apply Hwrapped, segmentOf_refl.
  - (* several chunks *)
    exists (map (fun group => JSON_stringify (wrapper group)) (g1 :: g2 :: groups)),
      (JSON_stringify (wrapper msgs)).
    split; [reflexivity|]. split; [|apply Hwrapped, segmentOf_refl].
    unfold reassembleGeminiJSON.
    rewrite (reassembleGeminiJSON_loop_groups JSON_parse JSON_stringify
               (g1 :: g2 :: groups) Hgroups []).
    cbn [app]. now rewrite Hconcat.
Qed.

(** A document of two messages, 38 characters long, under a threshold of
    30: two chunks of one message each, and the reassembled document has
    the two messages again. *)
Lemma gemini_chunks_reassemble_witness :
  let q := DQs in
  let content :=
    "{" ++ q ++ "messages" ++ q ++ ":[{" ++ q ++ "id" ++ q ++ ":" ++ q ++ "m1" ++ q
        ++ "},{" ++ q ++ "id" ++ q ++ ":" ++ q ++ "m2" ++ q ++ "}]}" in
  let msgs := [JObject [("id", JString "m1")]; JObject [("id", JString "m2")]] in
  messagesOf RefJSON.parse content = Some msgs
  /\ chunkGeminiJSON RefJSON.parse RefJSON.stringify content 30
     = Returned
         [ "{" ++ q ++ "messages" ++ q ++ ":[{" ++ q ++ "id" ++ q ++ ":" ++ q ++ "m1" ++ q ++ "}]}";
           "{" ++ q ++ "messages" ++ q ++ ":[{" ++ q ++ "id" ++ q ++ ":" ++ q ++ "m2" ++ q ++ "}]}" ]
  /\ exists (chunks : list string) (reassembled : string),
       chunkGeminiJSON RefJSON.parse RefJSON.stringify content 30
       = Returned chunks
       /\ reassembleGeminiJSON RefJSON.parse RefJSON.stringify chunks
          = Returned reassembled
       /\ messagesOf RefJSON.parse reassembled = Some msgs.
Proof.
  intros q content msgs.
  assert (Hmsgs : messagesOf RefJSON.parse content = Some msgs)
    by (vm_compute; reflexivity).
  split; [exact Hmsgs|]. split; [vm_compute; reflexivity|].
  apply (gemini_chunks_reassemble_to_same_messages
           RefJSON.parse RefJSON.stringify content 30 msgs Hmsgs).
  intros group Hseg. apply segmentOf_segments in Hseg.
  unfold roundTrips. simpl in Hseg.
  repeat (destruct Hseg as [<- | Hseg]; [vm_compute; reflexivity|]).
  destruct Hseg.
Defined.

(* ------------------------------------------------------------------ *)
(** ** The remaining cases of the test suite *)

(** Three lines of 40 characters under a limit of 50: one chunk per
    line, and the chunks joined give the content back. *)
Example chunkJSONL_boundary_example :
  let content :=
    repeatChar "a" 40 ++ LFs ++ repeatChar "b" 40 ++ LFs ++ repeatChar "c" 40 in
  chunkJSONL content 50
  = Returned [repeatChar "a" 40; repeatChar "b" 40; repeatChar "c" 40]
  /\ reassembleJSONL [repeatChar "a" 40; repeatChar "b" 40; repeatChar "c" 40]
     = content
  /\ reassembleJSONL ["line1" ++ LFs ++ "line2"; "line3" ++ LFs ++ "line4"]
     = "line1" ++ LFs ++ "line2" ++ LFs ++ "line3" ++ LFs ++ "line4".
Proof. vm_compute. repeat split; reflexivity. Qed.

Example trim_examples :
  trim "  ab  " = "ab"
  /\ trim (" " ++ LFs ++ " ") = EmptyString
  /\ trim "a b" = "a b"
  /\ trimStart "  {x " = "{x "
  /\ nonBlankLines (split_LF ("a" ++ LFs ++ LFs ++ "  " ++ LFs ++ " b")) = ["a"; "b"].
Proof. vm_compute. repeat split; reflexivity. Qed.

(** Four lines, the second malformed, read from line 1: the malformed
    line is counted and gives no record. *)
Example parseFromStringAtLine_example :
  let q := DQs in
  let record (t u : string) :=
    "{" ++ q ++ "type" ++ q ++ ":" ++ q ++ t ++ q ++ ","
        ++ q ++ "uuid" ++ q ++ ":" ++ q ++ u ++ q ++ "}" in
  let content :=
    record "user" "u1" ++ LFs ++ "invalid json line" ++ LFs
      ++ record "assistant" "a1" ++ LFs ++ record "user" "u2" in
  Claude.parseFromStringAtLine RefJSON.parseTranscriptLine content 1
  = ([Claude.mkTranscriptLine "assistant" "a1" None;
      Claude.mkTranscriptLine "user" "u2" None], 4)
  /\ Claude.parseFromStringAtLine RefJSON.parseTranscriptLine content 10
     = ([], 4)
  /\ Claude.parseFromString RefJSON.parseTranscriptLine content
     = [Claude.mkTranscriptLine "user" "u1" None;
        Claude.mkTranscriptLine "assistant" "a1" None;
        Claude.mkTranscriptLine "user" "u2" None]
  /\ Claude.parseFromString RefJSON.parseTranscriptLine ("  " ++ LFs ++ "  ")
     = [].
Proof. vm_compute. repeat split; reflexivity. Qed.

(** Four messages of 24 characters under a limit of 70: two chunks of
    two messages, each a document of its own, merged back in order. *)
Example chunkGeminiJSON_example :
  let q := DQs in
  let msg (i : string) := JObject [("id", JString i); ("c", JString "xxxxxx")] in
  let msgs := [msg "m0"; msg "m1"; msg "m2"; msg "m3"] in
  let content := RefJSON.stringify (wrapper msgs) in
  len content = 114
  /\ chunkGeminiJSON RefJSON.parse RefJSON.stringify content 70
     = Returned [RefJSON.stringify (wrapper [msg "m0"; msg "m1"]);
                 RefJSON.stringify (wrapper [msg "m2"; msg "m3"])]
  /\ reassembleGeminiJSON RefJSON.parse RefJSON.stringify
       [RefJSON.stringify (wrapper [msg "m0"; msg "m1"]);
        RefJSON.stringify (wrapper [msg "m2"; msg "m3"])]
     = Returned content
  /\ reassembleGeminiJSON RefJSON.parse RefJSON.stringify []
     = Returned ("{" ++ q ++ "messages" ++ q ++ ":[]}")
  /\ chunkGeminiJSON RefJSON.parse RefJSON.stringify "not json" 3
     = Thrown SyntaxError
  /\ chunkGeminiJSON RefJSON.parse RefJSON.stringify "{ }" 2
     = Thrown TypeError.
Proof. vm_compute. repeat split; reflexivity. Qed.

(* ================================================================== *)
(** * Further properties of the parsers and the extractors *)

(* ------------------------------------------------------------------ *)
(** ** Lines of a content *)

Section Lines.

Lemma split_LF_append (a b : string) :
  split_LF (a ++ LFs ++ b) = (split_LF a ++ split_LF b)%list.
Proof.
  induction a as [|c a IH].
  - reflexivity.
  - change ((String c a) ++ LFs ++ b) with (String c (a ++ LFs ++ b)).
    cbn [split_LF]. rewrite IH.
    destruct (Ascii.eqb c LF); [reflexivity|].
    pose proof (split_LF_nonempty a) as Hne.
    destruct (split_LF a) as [|l ls]; [contradiction | reflexivity].
Qed.

(** A piece of a split holds no line feed. *)
Lemma split_LF_pieces (s : string) :
  Forall (fun piece => split_LF piece = [piece]) (split_LF s).
Proof.
  induction s as [|c s IH]; [repeat constructor|].
  cbn [split_LF]. destruct (Ascii.eqb c LF) eqn:Hc.
  - constructor; [reflexivity | exact IH].
  - pose proof (split_LF_nonempty s) as Hne.
    destruct (split_LF s) as [|l ls]; [contradiction|].
    inversion IH as [|? ? Hl Hls]; subst.
    constructor; [|exact Hls].
    cbn [split_LF]. now rewrite Hc, Hl.
Qed.

Lemma split_LF_join (pieces : list string) :
  pieces <> [] ->
  Forall (fun piece => split_LF piece = [piece]) pieces ->
  split_LF (join_LF pieces) = pieces.
Proof.
  induction pieces as [|p rest IH]; [congruence|].
  intros _ Hall. inversion Hall as [|? ? Hp Hrest]; subst.
  destruct rest as [|q rest].
  - exact Hp.
  - rewrite join_LF_cons by discriminate.
    rewrite split_LF_append, Hp, IH by (assumption || discriminate).
    reflexivity.
Qed.

Lemma Forall_skipn {A : Type} (P : A -> Prop) (n : nat) (l : list A) :
  Forall P l -> Forall P (skipn n l).
Proof.
  revert l. induction n as [|n IH]; intros l Hall; [exact Hall|].
  destruct l as [|x l]; [constructor|].
  inversion Hall; subst. now apply IH.
Qed.

Lemma nonBlankLines_app (a b : list string) :
  nonBlankLines (a ++ b) = (nonBlankLines a ++ nonBlankLines b)%list.
Proof. unfold nonBlankLines. now rewrite map_app, filter_app. Qed.

Lemma wellFormedRecords_app {R : Type} (JSON_parse : string -> option R)
    (a b : list string) :
  wellFormedRecords JSON_parse (a ++ b)
  = (wellFormedRecords JSON_parse a ++ wellFormedRecords JSON_parse b)%list.
Proof. unfold wellFormedRecords. apply flat_map_app. Qed.

(** The non-blank lines of the join of some pieces of a split. *)
Lemma nonBlankLines_split_join (pieces : list string) :
  Forall (fun piece => split_LF piece = [piece]) pieces ->
  nonBlankLines (split_LF (join_LF pieces)) = nonBlankLines pieces.
Proof.
  intro Hall. destruct pieces as [|p rest]; [reflexivity|].
  now rewrite split_LF_join by (assumption || discriminate).
Qed.

Lemma nonBlankLines_skipn (n : nat) (rawLines : list string) :
  Forall (fun rawLine => trim rawLine <> EmptyString) (firstn n rawLines) ->
  nonBlankLines (skipn n rawLines) = skipn n (nonBlankLines rawLines).
Proof.
  revert rawLines. induction n as [|n IH]; intros rawLines Hall;
    [reflexivity|].
  destruct rawLines as [|rawLine rest]; [reflexivity|].
  cbn [firstn] in Hall. inversion Hall as [|? ? Hline Hrest]; subst.
  rewrite nonBlankLines_cons.
  destruct (trim rawLine) as [|c t]; [congruence|].
  cbn [skipn]. now apply IH.
Qed.

Lemma last_cons {A : Type} (x d : A) (l : list A) :
  last (x :: l) d = last l x.
Proof.
  revert x d. induction l as [|y l IH]; intros x d; [reflexivity|].
  change (last (x :: y :: l) d) with (last (y :: l) d).
  now rewrite !IH.
Qed.

End Lines.

(* ------------------------------------------------------------------ *)
(** ** parse.ts: joined contents, slices and positions *)

Section ClaudeSlices.

Import Claude.

Variable JSON_parse : string -> option TranscriptLine.

Lemma parseFromString_records (content : string) :
  parseFromString JSON_parse content
  = wellFormedRecords JSON_parse (nonBlankLines (split_LF content)).
Proof. unfold parseFromString. now rewrite fold_parseLine. Qed.

(** The loop of [sliceFromLine], from any line count up to the start
    line. *)
Lemma sliceFromLine_loop_skipn (startLine : Z) (allLines : list string) :
  forall lineCount : Z,
    lineCount <= startLine ->
    sliceFromLine_loop startLine allLines lineCount
    = join_LF (skipn (Z.to_nat (startLine - lineCount)) allLines).
Proof.
  induction allLines as [|line rest IH]; intros lineCount Hle.
  - now rewrite skipn_nil.
  - cbn [sliceFromLine_loop].
    destruct (lineCount =? startLine) eqn:Hat.
    + apply Z.eqb_eq in Hat. subst lineCount.
      now rewrite Z.sub_diag.
    + apply Z.eqb_neq in Hat.
      replace (Z.to_nat (startLine - lineCount))
        with (S (Z.to_nat (startLine - (lineCount + 1)))) by lia.
      cbn [skipn]. apply IH. lia.
Qed.

(** The uuids that [getTranscriptPosition] can retain: those that are
    not empty. *)
Lemma fold_recordPosition (rawLines : list string) :
  forall position : TranscriptPosition,
    fold_left (recordPosition JSON_parse) rawLines position
    = mkTranscriptPosition
        (last (retainedUUIDs
                 (wellFormedRecords JSON_parse (nonBlankLines rawLines)))
           (lastUUID position))
        (lineCount position + Z.of_nat (length (nonBlankLines rawLines))).
Proof.
  induction rawLines as [|rawLine rest IH]; intros [uuid count].
  - cbn. f_equal. lia.
  - cbn [fold_left]. rewrite nonBlankLines_cons. unfold recordPosition at 2.
    destruct (trim rawLine) as [|c t]; [apply IH|].
    unfold wellFormedRecords. cbn [flat_map].
    fold (wellFormedRecords JSON_parse (nonBlankLines rest)).
    destruct (JSON_parse (String c t)) as [line|]; cbn [app].
    + unfold retainedUUIDs. cbn [map filter].
      fold (retainedUUIDs (wellFormedRecords JSON_parse (nonBlankLines rest))).
      destruct (String.eqb (line_uuid line) EmptyString); cbn [negb];
        rewrite IH; cbn [lastUUID lineCount length]; rewrite ?last_cons;
        f_equal; lia.
    + rewrite IH. cbn [lastUUID lineCount length]. f_equal. lia.
Qed.

(** The records of a slice are those of the raw lines from the start
    line on. *)
Lemma parseFromString_sliceFromLine_records (content : string)
    (startLine : Z) :
  0 <= startLine ->
  parseFromString JSON_parse (sliceFromLine content startLine)
  = wellFormedRecords JSON_parse
      (nonBlankLines (skipn (Z.to_nat startLine) (split_LF content))).
Proof.
  intro Hstart. rewrite parseFromString_records.
  unfold sliceFromLine. destruct (startLine <=? 0) eqn:Hle.
  - apply Z.leb_le in Hle. replace startLine with 0 by lia.
    now destruct content.
  - apply Z.leb_gt in Hle. destruct content as [|c content].
    + replace (Z.to_nat startLine) with (S (Z.to_nat (startLine - 1))) by lia.
      cbn [split_LF skipn]. now rewrite skipn_nil.
    + rewrite sliceFromLine_loop_skipn by lia. rewrite Z.sub_0_r.
      now rewrite nonBlankLines_split_join
        by apply Forall_skipn, split_LF_pieces.
Qed.

End ClaudeSlices.

(** [sliceFromLine] in terms of the raw lines of the content. *)
Lemma sliceFromLine_lines (content : string) (startLine : Z) :
  Claude.sliceFromLine content startLine
  = if startLine <=? 0 then content
    else join_LF (skipn (Z.to_nat startLine) (split_LF content)).
Proof.
  unfold Claude.sliceFromLine. destruct content as [|c content].
  - destruct (startLine <=? 0) eqn:Hle; [reflexivity|].
    apply Z.leb_gt in Hle.
    replace (Z.to_nat startLine) with (S (Z.to_nat (startLine - 1))) by lia.
    cbn [split_LF skipn]. now rewrite skipn_nil.
  - destruct (startLine <=? 0) eqn:Hle; [reflexivity|].
    apply Z.leb_gt in Hle.
    rewrite sliceFromLine_loop_skipn by lia. now rewrite Z.sub_0_r.
Qed.

(** X1. Parsing is line by line: the records of two contents joined by a
    line feed are the records of the first followed by the records of
    the second, whatever the host's parser accepts. *)
Theorem parseFromString_of_joined_contents
    (JSON_parse : string -> option Claude.TranscriptLine) (a b : string) :
  Claude.parseFromString JSON_parse (a ++ LFs ++ b)
  = (Claude.parseFromString JSON_parse a
     ++ Claude.parseFromString JSON_parse b)%list.
Proof.
  rewrite !parseFromString_records, split_LF_append.
  now rewrite nonBlankLines_app, wellFormedRecords_app.
Qed.

(** X2. [sliceFromLine] counts raw lines, blank ones included: for a
    positive start line it returns the lines of the content from that
    0-indexed line on, joined by line feeds, which is the empty string
    when the content has no such line; for a start line of zero or less
    it returns the content itself. *)
Theorem sliceFromLine_drops_raw_lines (content : string) (startLine : Z) :
  Claude.sliceFromLine content startLine
  = if startLine <=? 0 then content
    else join_LF (skipn (Z.to_nat startLine) (split_LF content)).
Proof.
  unfold Claude.sliceFromLine. destruct content as [|c content].
  - destruct (startLine <=? 0) eqn:Hle; [reflexivity|].
    apply Z.leb_gt in Hle.
    replace (Z.to_nat startLine) with (S (Z.to_nat (startLine - 1))) by lia.
    cbn [split_LF skipn]. now rewrite skipn_nil.
  - destruct (startLine <=? 0) eqn:Hle; [reflexivity|].
    apply Z.leb_gt in Hle.
    rewrite sliceFromLine_loop_skipn by lia. now rewrite Z.sub_0_r.
Qed.

(** X3. Slicing and then parsing agrees with parsing from a line offset
    as long as no line before the offset is blank: [sliceFromLine]
    counts every raw line and [parseFromStringAtLine] only the lines
    that are not blank, so the two offsets mean the same line exactly
    when the lines skipped are all non-blank. *)
Theorem parseFromString_sliceFromLine
    (JSON_parse : string -> option Claude.TranscriptLine)
    (content : string) (startLine : Z) :
  0 <= startLine ->
  Forall (fun rawLine => trim rawLine <> EmptyString)
    (firstn (Z.to_nat startLine) (split_LF content)) ->
  Claude.parseFromString JSON_parse (Claude.sliceFromLine content startLine)
  = fst (Claude.parseFromStringAtLine JSON_parse content startLine).
Proof.
  intros Hstart Hnonblank.
  unfold Claude.parseFromStringAtLine. rewrite fold_parseLineAt.
  rewrite Z.sub_0_r. cbn [fst app].
  rewrite parseFromString_records, sliceFromLine_lines.
  destruct (startLine <=? 0) eqn:Hle.
  - apply Z.leb_le in Hle. replace startLine with 0 by lia. reflexivity.
  - rewrite nonBlankLines_split_join
      by apply Forall_skipn, split_LF_pieces.
    now rewrite nonBlankLines_skipn.
Qed.

(** Two records and the second of them, from line 1. *)
Lemma parseFromString_sliceFromLine_witness :
  let q := DQs in
  let record (t u : string) :=
    "{" ++ q ++ "type" ++ q ++ ":" ++ q ++ t ++ q ++ ","
        ++ q ++ "uuid" ++ q ++ ":" ++ q ++ u ++ q ++ "}" in
  let content := record "user" "u1" ++ LFs ++ record "assistant" "a1" in
  Claude.sliceFromLine content 1 = record "assistant" "a1"
  /\ Claude.parseFromString RefJSON.parseTranscriptLine
       (Claude.sliceFromLine content 1)
     = [Claude.mkTranscriptLine "assistant" "a1" None]
  /\ Claude.parseFromString RefJSON.parseTranscriptLine
       (Claude.sliceFromLine content 1)
     = fst (Claude.parseFromStringAtLine RefJSON.parseTranscriptLine content 1).
Proof.
  intros q record content.
  split; [vm_compute; reflexivity|]. split; [vm_compute; reflexivity|].
  apply (parseFromString_sliceFromLine RefJSON.parseTranscriptLine content 1).
  - lia.
  - vm_compute. repeat constructor; discriminate.
Defined.

(** X4. [getTranscriptPosition] agrees with the parsers: its line count
    is the total that [parseFromStringAtLine] returns, from any start
    line, hence the number of lines that are not blank; its last uuid
    is the last non-empty uuid among the records that [parseFromString]
    returns, and the empty string when there is none. *)
Theorem getTranscriptPosition_agrees_with_parsers
    (JSON_parse : string -> option Claude.TranscriptLine) (content : string) :
  let position := Claude.getTranscriptPosition JSON_parse content in
  (forall startLine : Z,
     Claude.lineCount position
     = snd (Claude.parseFromStringAtLine JSON_parse content startLine))
  /\ Claude.lineCount position
     = Z.of_nat (length (nonBlankLines (split_LF content)))
  /\ Claude.lastUUID position
     = last (retainedUUIDs (Claude.parseFromString JSON_parse content))
         EmptyString.
Proof.
  cbv zeta. unfold Claude.getTranscriptPosition.
  rewrite fold_recordPosition, parseFromString_records.
  cbn [Claude.lineCount Claude.lastUUID]. repeat split.
  intro startLine. unfold Claude.parseFromStringAtLine.
  now rewrite fold_parseLineAt.
Qed.

Section ClaudeSerialize.

Import Claude.

Variable JSON_parse : string -> option TranscriptLine.
Variable JSON_stringify : TranscriptLine -> string.

Lemma split_LF_final_LF (s : string) :
  split_LF (s ++ LFs) = (split_LF s ++ [EmptyString])%list.
Proof.
  rewrite <- (append_nil_r (s ++ LFs)), append_assoc.
  now rewrite split_LF_append.
Qed.

(** The non-blank lines of a serialized transcript are the printed
    records, trimmed. *)
Lemma nonBlankLines_serializeTranscript (lines : list TranscriptLine) :
  Forall (readsBack JSON_parse JSON_stringify) lines ->
  nonBlankLines (split_LF (serializeTranscript JSON_stringify lines))
  = map (fun line => trim (JSON_stringify line)) lines.
Proof.
  intro Hall. unfold serializeTranscript.
  rewrite split_LF_final_LF, nonBlankLines_app.
  rewrite nonBlankLines_split_join.
  - change (nonBlankLines [EmptyString]) with (@nil string).
    rewrite app_nil_r.
    induction Hall as [|line rest (_ & Hne & _) _ IH]; [reflexivity|].
    cbn [map]. rewrite nonBlankLines_cons, IH.
    destruct (trim (JSON_stringify line)); [congruence | reflexivity].
  - apply Forall_map. eapply Forall_impl; [|exact Hall].
    now intros line (Hone & _).
Qed.

Lemma nonBlankLines_printed (lines : list TranscriptLine) :
  Forall (readsBack JSON_parse JSON_stringify) lines ->
  nonBlankLines (map JSON_stringify lines)
  = map (fun line => trim (JSON_stringify line)) lines.
Proof.
  induction 1 as [|line rest (_ & Hne & _) _ IH]; [reflexivity|].
  cbn [map]. rewrite nonBlankLines_cons, IH.
  destruct (trim (JSON_stringify line)); [congruence | reflexivity].
Qed.

Lemma wellFormedRecords_printed (lines : list TranscriptLine) :
  Forall (readsBack JSON_parse JSON_stringify) lines ->
  wellFormedRecords JSON_parse
    (map (fun line => trim (JSON_stringify line)) lines)
  = lines.
Proof.
  induction 1 as [|line rest (_ & _ & Hparse) _ IH]; [reflexivity|].
  cbn [map]. unfold wellFormedRecords in *. cbn [flat_map].
  now rewrite Hparse, IH.
Qed.

(** The raw lines of a serialized transcript: the printed records and a
    last, empty line. *)
Lemma split_LF_serializeTranscript (lines : list TranscriptLine) :
  lines <> [] ->
  Forall (readsBack JSON_parse JSON_stringify) lines ->
  split_LF (serializeTranscript JSON_stringify lines)
  = (map JSON_stringify lines ++ [EmptyString])%list.
Proof.
  intros Hne Hall. unfold serializeTranscript.
  rewrite split_LF_final_LF, split_LF_join; [reflexivity | |].
  - destruct lines; [congruence | discriminate].
  - apply Forall_map. eapply Forall_impl; [|exact Hall].
    now intros line (Hone & _).
Qed.

(** The records of the raw lines of a serialized transcript from a line
    on are the lines of the transcript from that line on. *)
Lemma records_of_serialized_from (n : nat) (lines : list TranscriptLine) :
  Forall (readsBack JSON_parse JSON_stringify) lines ->
  wellFormedRecords JSON_parse
    (nonBlankLines
       (skipn n (split_LF (serializeTranscript JSON_stringify lines))))
  = skipn n lines.
Proof.
  intro Hall. destruct lines as [|line0 lines0] eqn:Hlines.
  - cbn. destruct n as [|[|[|n]]]; reflexivity.
  - rewrite <- Hlines in *.
    rewrite split_LF_serializeTranscript by (assumption || congruence).
    rewrite skipn_app, nonBlankLines_app, wellFormedRecords_app.
    rewrite skipn_map, nonBlankLines_printed, wellFormedRecords_printed
      by now apply Forall_skipn.
    replace (nonBlankLines
               (skipn (n - length (map JSON_stringify lines)) [EmptyString]))
      with (@nil string).
    + cbn. apply app_nil_r.
    + now destruct (n - length (map JSON_stringify lines))%nat as [|[|m]].
Qed.

End ClaudeSerialize.

(** X5. A serialized transcript parses back to the lines it was made
    from, provided the host prints each line as one JSON text (no line
    feed in it, not blank) that it reads back as that line. The
    position of the serialized transcript then counts one line per
    record. *)
Theorem serializeTranscript_roundtrip
    (JSON_parse : string -> option Claude.TranscriptLine)
    (JSON_stringify : Claude.TranscriptLine -> string)
    (lines : list Claude.TranscriptLine) :
  Forall (readsBack JSON_parse JSON_stringify) lines ->
  Claude.parseFromString JSON_parse
    (Claude.serializeTranscript JSON_stringify lines)
  = lines
  /\ Claude.lineCount
       (Claude.getTranscriptPosition JSON_parse
          (Claude.serializeTranscript JSON_stringify lines))
     = Z.of_nat (length lines).
Proof.
  intro Hall. split.
  - rewrite parseFromString_records.
    rewrite (nonBlankLines_serializeTranscript JSON_parse JSON_stringify
               lines Hall).
    induction Hall as [|line rest (_ & _ & Hparse) _ IH]; [reflexivity|].
    cbn [map]. unfold wellFormedRecords in *. cbn [flat_map].
    now rewrite Hparse, IH.
  - unfold Claude.getTranscriptPosition. rewrite fold_recordPosition.
    cbn [Claude.lineCount].
    rewrite (nonBlankLines_serializeTranscript JSON_parse JSON_stringify
               lines Hall).
    now rewrite length_map.
Qed.

(** A user line and an assistant line with a text block, printed and
    read back by the reference codec. *)
Lemma serializeTranscript_roundtrip_witness :
  let lines :=
    [ Claude.mkTranscriptLine "user" "u1"
        (Some (Claude.mkMessage None None (Claude.ContentString "hello")));
      Claude.mkTranscriptLine "assistant" "a1"
        (Some (Claude.mkMessage (Some "m1")
                 (Some (Claude.mkMessageUsage 10 0 0 5))
                 (Claude.ContentBlocks
                    [Claude.mkContentBlock "text" (Some "hi") None
                       Claude.ResultOther]))) ] in
  Forall (readsBack RefJSON.parseTranscriptLine RefJSON.stringifyTranscriptLine)
    lines
  /\ Claude.parseFromString RefJSON.parseTranscriptLine
       (Claude.serializeTranscript RefJSON.stringifyTranscriptLine lines)
     = lines
  /\ Claude.lineCount
       (Claude.getTranscriptPosition RefJSON.parseTranscriptLine
          (Claude.serializeTranscript RefJSON.stringifyTranscriptLine lines))
     = 2.
Proof.
  intro lines.
  assert (Hall : Forall (readsBack RefJSON.parseTranscriptLine
                           RefJSON.stringifyTranscriptLine) lines).
  { repeat constructor; vm_compute; (reflexivity || discriminate). }
  split; [exact Hall|].
  exact (serializeTranscript_roundtrip RefJSON.parseTranscriptLine
           RefJSON.stringifyTranscriptLine lines Hall).
Defined.

(* ------------------------------------------------------------------ *)
(** ** extract.ts: cutting a transcript at a uuid *)

Section ClaudeCuts.

Import Claude.

(** The first line with a given uuid. *)
Lemma first_with_uuid (uuid : string) (lines : list TranscriptLine) :
  In uuid (map line_uuid lines) ->
  exists (before : list TranscriptLine) (line : TranscriptLine)
         (after : list TranscriptLine),
    lines = (before ++ line :: after)%list
    /\ line_uuid line = uuid
    /\ ~ In uuid (map line_uuid before).
Proof.
  induction lines as [|l lines IH]; [intros []|].
  intro Hin. destruct (String.eqb (line_uuid l) uuid) eqn:Hl.
  - apply String.eqb_eq in Hl.
    exists [], l, lines. repeat split; [assumption | intros []].
  - apply String.eqb_neq in Hl.
    destruct Hin as [Heq|Hin]; [contradiction|].
    destruct (IH Hin) as (before & line & after & -> & Huuid & Hnot).
    exists (l :: before), line, after. repeat split; [assumption|].
    intros [Heq|Hin']; contradiction.
Qed.

Lemma cut_middle {A : Type} (pre post : list A) (x : A) :
  firstn (length pre + 1) (pre ++ x :: post) = (pre ++ [x])%list
  /\ skipn (length pre + 1) (pre ++ x :: post) = post.
Proof.
  replace (pre ++ x :: post)%list with ((pre ++ [x]) ++ post)%list
    by (now rewrite <- app_assoc).
  replace (length pre + 1)%nat with (length (pre ++ [x])%list)
    by (rewrite length_app; reflexivity).
  split.
  - rewrite firstn_app, Nat.sub_diag, firstn_all. cbn [firstn].
    apply app_nil_r.
  - rewrite skipn_app, Nat.sub_diag, skipn_all. reflexivity.
Qed.

(** The two loops, from the index of any line before the first one with
    the uuid. *)
Lemma cut_loops_found (uuid : string) (line : TranscriptLine)
    (after : list TranscriptLine) :
  line_uuid line = uuid ->
  forall before pre : list TranscriptLine,
    ~ In uuid (map line_uuid before) ->
    truncateAtUUID_loop (pre ++ before ++ line :: after)
      (before ++ line :: after) uuid (length pre)
    = (pre ++ before ++ [line])%list
    /\ filterAfterUUID_loop (pre ++ before ++ line :: after)
         (before ++ line :: after) uuid (length pre)
       = after.
Proof.
  intro Huuid. induction before as [|b before IH]; intros pre Hnot.
  - cbn [app truncateAtUUID_loop filterAfterUUID_loop].
    apply String.eqb_eq in Huuid. rewrite Huuid.
    apply cut_middle.
  - cbn [app truncateAtUUID_loop filterAfterUUID_loop].
    assert (Hb : String.eqb (line_uuid b) uuid = false).
    { apply String.eqb_neq. intro Heq. apply Hnot. now left. }
    rewrite Hb.
    specialize (IH (pre ++ [b])%list).
    rewrite length_app, <- !app_assoc in IH. cbn [length app] in IH.
    apply IH. intro Hin. apply Hnot. now right.
Qed.

Lemma cut_loops_absent (uuid : string) (lines rest : list TranscriptLine) :
  ~ In uuid (map line_uuid rest) ->
  forall i : nat,
    truncateAtUUID_loop lines rest uuid i = lines
    /\ filterAfterUUID_loop lines rest uuid i = lines.
Proof.
  induction rest as [|l rest IH]; intros Hnot i; [now split|].
  cbn [truncateAtUUID_loop filterAfterUUID_loop].
  assert (Hl : String.eqb (line_uuid l) uuid = false).
  { apply String.eqb_neq. intro Heq. apply Hnot. now left. }
  rewrite Hl. apply IH. intro Hin. apply Hnot. now right.
Qed.

(** Both functions, at the first line with a uuid that is not empty. *)
Lemma cut_at_first (uuid : string) (before after : list TranscriptLine)
    (line : TranscriptLine) :
  uuid <> EmptyString ->
  line_uuid line = uuid ->
  ~ In uuid (map line_uuid before) ->
  truncateAtUUID (before ++ line :: after) uuid = (before ++ [line])%list
  /\ filterAfterUUID (before ++ line :: after) uuid = after.
Proof.
  intros Hne Huuid Hnot. unfold truncateAtUUID, filterAfterUUID.
  apply String.eqb_neq in Hne. rewrite Hne.
  exact (cut_loops_found uuid line after Huuid before [] Hnot).
Qed.

(** [findCheckpointUUID] returns the uuid of the first line that carries
    the result. *)
Lemma findCheckpointUUID_find (toolUseId : string)
    (lines : list TranscriptLine) :
  findCheckpointUUID lines toolUseId
  = option_map line_uuid (find (answers toolUseId) lines).
Proof.
  induction lines as [|line rest IH]; [reflexivity|].
  cbn [findCheckpointUUID find]. unfold answers at 1.
  destruct (String.eqb (line_type line) MessageType.User);
    cbn [negb andb]; [|exact IH].
  destruct (line_message line) as [msg|]; [|exact IH].
  destruct (msg_content msg) as [s|blocks|]; try exact IH.
  destruct (existsb (isResultOf toolUseId) blocks); [reflexivity | exact IH].
Qed.

Lemma find_first {A : Type} (test : A -> bool) (l : list A) (x : A) :
  find test l = Some x ->
  exists before after : list A,
    l = (before ++ x :: after)%list
    /\ test x = true
    /\ Forall (fun y => test y = false) before.
Proof.
  induction l as [|y l IH]; [discriminate|].
  cbn [find]. destruct (test y) eqn:Hy.
  - intros [= ->]. exists [], l. repeat split; [assumption | constructor].
  - intro Hfind. destruct (IH Hfind) as (before & after & -> & Hx & Hbefore).
    exists (y :: before), after. repeat split; [assumption|].
    now constructor.
Qed.

End ClaudeCuts.

(** X6. Cutting at a uuid that occurs: [truncateAtUUID] returns the lines
    up to and including the first line with the uuid, [filterAfterUUID]
    the lines after that line, so that the two results put end to end
    are the transcript. *)
Theorem truncateAtUUID_filterAfterUUID_partition
    (lines : list Claude.TranscriptLine) (uuid : string) :
  uuid <> EmptyString ->
  In uuid (map Claude.line_uuid lines) ->
  (Claude.truncateAtUUID lines uuid ++ Claude.filterAfterUUID lines uuid)%list
  = lines
  /\ exists (before : list Claude.TranscriptLine) (line : Claude.TranscriptLine),
       Claude.truncateAtUUID lines uuid = (before ++ [line])%list
       /\ Claude.line_uuid line = uuid
       /\ ~ In uuid (map Claude.line_uuid before).
Proof.
  intros Hne Hin.
  destruct (first_with_uuid uuid lines Hin)
    as (before & line & after & -> & Huuid & Hnot).
  destruct (cut_at_first uuid before after line Hne Huuid Hnot)
    as [Htruncate Hfilter].
  rewrite Htruncate, Hfilter. split.
  - now rewrite <- app_assoc.
  - now exists before, line.
Qed.

(** Three lines cut at the second. *)
Lemma truncateAtUUID_filterAfterUUID_partition_witness :
  let line (u : string) := Claude.mkTranscriptLine "user" u None in
  let lines := [line "u1"; line "u2"; line "u3"] in
  Claude.truncateAtUUID lines "u2" = [line "u1"; line "u2"]
  /\ Claude.filterAfterUUID lines "u2" = [line "u3"]
  /\ (Claude.truncateAtUUID lines "u2" ++ Claude.filterAfterUUID lines "u2")%list
     = lines
  /\ exists (before : list Claude.TranscriptLine) (l : Claude.TranscriptLine),
       Claude.truncateAtUUID lines "u2" = (before ++ [l])%list
       /\ Claude.line_uuid l = "u2"
       /\ ~ In "u2" (map Claude.line_uuid before).
Proof.
  intros line lines.
  split; [reflexivity|]. split; [reflexivity|].
  apply (truncateAtUUID_filterAfterUUID_partition lines "u2").
  - discriminate.
  - cbn. tauto.
Defined.

(** X7. Cutting at a uuid that is empty, or that no line has, changes
    nothing: both [truncateAtUUID] and [filterAfterUUID] return the whole
    transcript. *)
Theorem truncateAtUUID_filterAfterUUID_unknown
    (lines : list Claude.TranscriptLine) (uuid : string) :
  uuid = EmptyString \/ ~ In uuid (map Claude.line_uuid lines) ->
  Claude.truncateAtUUID lines uuid = lines
  /\ Claude.filterAfterUUID lines uuid = lines.
Proof.
  intro Hcase. unfold Claude.truncateAtUUID, Claude.filterAfterUUID.
  destruct (String.eqb uuid EmptyString) eqn:Hempty; [now split|].
  destruct Hcase as [->|Hnot]; [discriminate|].
  now apply cut_loops_absent.
Qed.

Lemma truncateAtUUID_filterAfterUUID_unknown_witness :
  let line (u : string) := Claude.mkTranscriptLine "user" u None in
  let lines := [line "u1"; line "u2"] in
  Claude.truncateAtUUID lines "nonexistent" = lines
  /\ Claude.filterAfterUUID lines "nonexistent" = lines.
Proof.
  intros line lines.
  apply (truncateAtUUID_filterAfterUUID_unknown lines "nonexistent").
  right. cbn. intros [H|[H|[]]]; discriminate.
Defined.

(** X8. Truncating at a checkpoint. When the uuids of a transcript are
    distinct and [findCheckpointUUID] returns a uuid that is not empty,
    [truncateAtUUID] at that uuid keeps the transcript up to and
    including the first line that carries the result of the tool use
    (a user line with a tool result block for it), and
    [filterAfterUUID] keeps what follows that line. *)
Theorem truncateAtUUID_at_checkpoint
    (lines : list Claude.TranscriptLine) (toolUseId uuid : string) :
  NoDup (map Claude.line_uuid lines) ->
  Claude.findCheckpointUUID lines toolUseId = Some uuid ->
  uuid <> EmptyString ->
  exists (before : list Claude.TranscriptLine) (line : Claude.TranscriptLine)
         (after : list Claude.TranscriptLine),
    lines = (before ++ line :: after)%list
    /\ Claude.line_uuid line = uuid
    /\ answers toolUseId line = true
    /\ Forall (fun earlier => answers toolUseId earlier = false) before
    /\ Claude.truncateAtUUID lines uuid = (before ++ [line])%list
    /\ Claude.filterAfterUUID lines uuid = after.
Proof.
  intros Hnodup Hfind Hne. rewrite findCheckpointUUID_find in Hfind.
  destruct (find (answers toolUseId) lines) as [line|] eqn:Hline;
    [|discriminate].
  cbn in Hfind. injection Hfind as Huuid.
  destruct (find_first _ _ _ Hline) as (before & after & -> & Hanswers & Hbefore).
  assert (Hnot : ~ In uuid (map Claude.line_uuid before)).
  { rewrite map_app in Hnodup. cbn [map] in Hnodup.
    apply NoDup_remove_2 in Hnodup. rewrite Huuid in Hnodup.
    intro Hin. apply Hnodup. apply in_or_app. now left. }
  destruct (cut_at_first uuid before after line Hne Huuid Hnot)
    as [Htruncate Hfilter].
  exists before, line, after. repeat split; assumption.
Qed.

(** User, assistant, then the user line that carries the result of tool
    use [tu_1]: the checkpoint is that line, and the cut is after it. *)
Lemma truncateAtUUID_at_checkpoint_witness :
  let lines :=
    [ Claude.mkTranscriptLine "user" "u1"
        (Some (Claude.mkMessage None None (Claude.ContentString "prompt")));
      Claude.mkTranscriptLine "assistant" "a1" None;
      Claude.mkTranscriptLine "user" "u2"
        (Some (Claude.mkMessage None None
                 (Claude.ContentBlocks
                    [Claude.mkContentBlock "tool_result" None (Some "tu_1")
                       (Claude.ResultString "done")])));
      Claude.mkTranscriptLine "assistant" "a2" None ] in
  Claude.findCheckpointUUID lines "tu_1" = Some "u2"
  /\ Claude.truncateAtUUID lines "u2" = firstn 3 lines
  /\ exists (before : list Claude.TranscriptLine) (line : Claude.TranscriptLine)
            (after : list Claude.TranscriptLine),
       lines = (before ++ line :: after)%list
       /\ Claude.line_uuid line = "u2"
       /\ answers "tu_1" line = true
       /\ Forall (fun earlier => answers "tu_1" earlier = false) before
       /\ Claude.truncateAtUUID lines "u2" = (before ++ [line])%list
       /\ Claude.filterAfterUUID lines "u2" = after.
Proof.
  intro lines.
  split; [reflexivity|]. split; [reflexivity|].
  apply (truncateAtUUID_at_checkpoint lines "tu_1" "u2").
  - cbn. repeat constructor; cbn; intuition discriminate.
  - reflexivity.
  - discriminate.
Defined.

(* ------------------------------------------------------------------ *)
(** ** extract.ts: spawned agents and their checkpoints *)

Section ClaudeAgents.

Import Claude.

Lemma in_set {V : Type} (m : StringMap.t V) (k k' : string) (v v' : V) :
  In (k', v') (StringMap.set k v m) -> (k', v') = (k, v) \/ In (k', v') m.
Proof.
  induction m as [|[k0 v0] m IH]; cbn [StringMap.set].
  - intros [Heq|[]]. now left.
  - destruct (String.eqb k k0).
    + intros [Heq|Hin]; [now left | right; now right].
    + intros [Heq|Hin]; [right; now left|].
      destruct (IH Hin) as [Heq|Hin']; [now left | right; now right].
Qed.

Lemma extractAgentIdFromText_nonempty (text agentId : string) :
  extractAgentIdFromText text = Some agentId -> agentId <> EmptyString.
Proof.
  unfold extractAgentIdFromText.
  destruct (String.index 0 "agentId: " text) as [idx|]; [|discriminate].
  destruct (alphaNumericRun _) as [|c run]; [discriminate|].
  intros [= <-]. discriminate.
Qed.

(** What one block can add to the map: an identifier and a tool use,
    neither empty, of which the block is the result. *)
Lemma recordAgentId_entries (agentIds : StringMap.t string)
    (block : ContentBlock) (agentId toolUseId : string) :
  In (agentId, toolUseId) (recordAgentId agentIds block) ->
  In (agentId, toolUseId) agentIds
  \/ (agentId <> EmptyString /\ toolUseId <> EmptyString
      /\ isResultOf toolUseId block = true).
Proof.
  unfold recordAgentId, isResultOf.
  destruct (String.eqb (block_type block) ContentType.ToolResult);
    cbn [negb andb]; [|now left].
  destruct (extractAgentIdFromText _) as [found|] eqn:Hfound; [|now left].
  destruct (tool_use_id block) as [id|]; [|now left].
  destruct (String.eqb id EmptyString) eqn:Hid; [now left|].
  intro Hin. apply in_set in Hin as [[= -> ->]|Hin]; [right | now left].
  apply String.eqb_neq in Hid. repeat split.
  - eapply extractAgentIdFromText_nonempty, Hfound.
  - exact Hid.
  - apply String.eqb_refl.
Qed.

Lemma fold_recordAgentId_entries (blocks : list ContentBlock)
    (agentId toolUseId : string) :
  forall agentIds : StringMap.t string,
    In (agentId, toolUseId) (fold_left recordAgentId blocks agentIds) ->
    In (agentId, toolUseId) agentIds
    \/ (agentId <> EmptyString /\ toolUseId <> EmptyString
        /\ existsb (isResultOf toolUseId) blocks = true).
Proof.
  induction blocks as [|block rest IH]; intros agentIds Hin; [now left|].
  cbn [fold_left] in Hin. cbn [existsb].
  destruct (IH _ Hin) as [Hin'|(Ha & Ht & Hrest)].
  - destruct (recordAgentId_entries _ _ _ _ Hin') as [Hold|(Ha & Ht & Hblock)];
      [now left | right].
    now rewrite Hblock.
  - right. rewrite Hrest. now rewrite orb_true_r.
Qed.

Lemma fold_recordAgentIds_entries (lines : list TranscriptLine)
    (agentId toolUseId : string) :
  forall agentIds : StringMap.t string,
    In (agentId, toolUseId) (fold_left recordAgentIds lines agentIds) ->
    In (agentId, toolUseId) agentIds
    \/ (agentId <> EmptyString /\ toolUseId <> EmptyString
        /\ exists line : TranscriptLine,
             In line lines /\ answers toolUseId line = true).
Proof.
  induction lines as [|line rest IH]; intros agentIds Hin; [now left|].
  cbn [fold_left] in Hin.
  destruct (IH _ Hin) as [Hin'|(Ha & Ht & later & Hlater & Hanswers)].
  - unfold recordAgentIds in Hin'.
    destruct (String.eqb (line_type line) MessageType.User) eqn:Htype;
      cbn [negb] in Hin'; [|now left].
    destruct (line_message line) as [msg|] eqn:Hmsg; [|now left].
    destruct (msg_content msg) as [s|blocks|] eqn:Hcontent;
      try (now left).
    destruct (fold_recordAgentId_entries _ _ _ _ Hin')
      as [Hold|(Ha & Ht & Hblocks)]; [now left | right].
    repeat split; try assumption.
    exists line. split; [now left|].
    unfold answers. now rewrite Htype, Hmsg, Hcontent.
  - right. repeat split; try assumption.
    exists later. split; [now right | assumption].
Qed.

End ClaudeAgents.

(** X9. Every spawned agent has a checkpoint. An entry of the map that
    [extractSpawnedAgentIds] returns holds an agent identifier and a
    tool use identifier that are both not empty, and
    [findCheckpointUUID] for that tool use does not return [null]: it
    returns the uuid of a line of the transcript, the first user line
    that carries a tool result for it. *)
Theorem spawned_agent_has_checkpoint
    (lines : list Claude.TranscriptLine) (agentId toolUseId : string) :
  StringMap.get agentId (Claude.extractSpawnedAgentIds lines) = Some toolUseId ->
  agentId <> EmptyString
  /\ toolUseId <> EmptyString
  /\ exists (before : list Claude.TranscriptLine) (line : Claude.TranscriptLine)
            (after : list Claude.TranscriptLine),
       lines = (before ++ line :: after)%list
       /\ answers toolUseId line = true
       /\ Forall (fun earlier => answers toolUseId earlier = false) before
       /\ Claude.findCheckpointUUID lines toolUseId
          = Some (Claude.line_uuid line).
Proof.
  intro Hget. apply get_some_in in Hget.
  unfold Claude.extractSpawnedAgentIds in Hget.
  destruct (fold_recordAgentIds_entries _ _ _ _ Hget)
    as [[]|(Ha & Ht & carrier & Hcarrier & Hanswers)].
  split; [exact Ha|]. split; [exact Ht|].
  rewrite findCheckpointUUID_find.
  destruct (find (answers toolUseId) lines) as [line|] eqn:Hfind.
  - destruct (find_first _ _ _ Hfind) as (before & after & Hlines & Hline & Hbefore).
    now exists before, line, after.
  - rewrite (find_none _ _ Hfind carrier Hcarrier) in Hanswers. discriminate.
Qed.

(** The transcript of the test suite: agent [sub1] spawned by tool use
    [tu_123], whose result is in user line [u1]. *)
Lemma spawned_agent_has_checkpoint_witness :
  let lines :=
    [ Claude.mkTranscriptLine "assistant" "a1" None;
      Claude.mkTranscriptLine "user" "u1"
        (Some (Claude.mkMessage None None
                 (Claude.ContentBlocks
                    [ Claude.mkContentBlock "tool_result" None (Some "tu_123")
                        (Claude.ResultString "agentId: sub1") ]))) ] in
  StringMap.get "sub1" (Claude.extractSpawnedAgentIds lines) = Some "tu_123"
  /\ Claude.findCheckpointUUID lines "tu_123" = Some "u1"
  /\ ("sub1" <> EmptyString
      /\ "tu_123" <> EmptyString
      /\ exists (before : list Claude.TranscriptLine)
                (line : Claude.TranscriptLine)
                (after : list Claude.TranscriptLine),
           lines = (before ++ line :: after)%list
           /\ answers "tu_123" line = true
           /\ Forall (fun earlier => answers "tu_123" earlier = false) before
           /\ Claude.findCheckpointUUID lines "tu_123"
              = Some (Claude.line_uuid line)).
Proof.
  intro lines.
  split; [reflexivity|]. split; [reflexivity|].
  apply (spawned_agent_has_checkpoint lines "sub1" "tu_123").
  reflexivity.
Defined.

(* ------------------------------------------------------------------ *)
(** ** utils.ts *)

Section Deduplicate.

Import Utils.

(** The step of [firstSeen], which [deduplicateStep] runs on both of
    its lists. *)
Local Abbreviation seeStep :=
  (fun (seen : list string) (id : string) =>
     if existsb (String.eqb id) seen then seen else (seen ++ [id])%list).

Lemma fold_deduplicateStep (items : list string) :
  forall seen : list string,
    fold_left deduplicateStep items (seen, seen)
    = (fold_left seeStep items seen, fold_left seeStep items seen).
Proof.
  induction items as [|item rest IH]; intro seen; [reflexivity|].
  cbn [fold_left]. unfold deduplicateStep at 2.
  destruct (existsb (String.eqb item) seen); apply IH.
Qed.

Lemma deduplicateStrings_firstSeen (items : list string) :
  deduplicateStrings items = firstSeen items.
Proof.
  unfold deduplicateStrings, firstSeen. now rewrite fold_deduplicateStep.
Qed.

Lemma existsb_eqb_cons_other (x y : string) (acc : list string) :
  String.eqb y x = false ->
  existsb (String.eqb y) (x :: acc) = existsb (String.eqb y) acc.
Proof. intro Hyx. cbn [existsb]. now rewrite Hyx. Qed.

(** The first item stays in front, and its later occurrences are the
    only thing it removes. *)
Lemma fold_seeStep_cons (x : string) (items : list string) :
  forall acc : list string,
    fold_left seeStep items (x :: acc)
    = x :: fold_left seeStep
             (filter (fun y => negb (String.eqb y x)) items) acc.
Proof.
  induction items as [|y rest IH]; intro acc; [reflexivity|].
  cbn [fold_left filter]. destruct (String.eqb y x) eqn:Hyx; cbn [negb].
  - cbn [existsb]. rewrite Hyx. cbn [orb]. apply IH.
  - rewrite existsb_eqb_cons_other by assumption. cbn [fold_left].
    destruct (existsb (String.eqb y) acc); [apply IH|].
    change ((x :: acc) ++ [y])%list with (x :: (acc ++ [y]))%list.
    apply IH.
Qed.

End Deduplicate.

(** X10. [deduplicateStrings] returns a list without repetition that has
    exactly the members of its argument. *)
Theorem deduplicateStrings_distinct_same_members (items : list string) :
  NoDup (Utils.deduplicateStrings items)
  /\ forall item : string,
       In item (Utils.deduplicateStrings items) <-> In item items.
Proof.
  rewrite deduplicateStrings_firstSeen. split.
  - apply firstSeen_NoDup.
  - intro item. apply firstSeen_in.
Qed.

(** X11. [deduplicateStrings] keeps each string at its first occurrence:
    the first item of the argument is the first of the result, followed
    by what the function returns for the remaining items other than it.
    Hence a list without repetition is returned as it is, and applying
    the function twice is applying it once. *)
Theorem deduplicateStrings_keeps_first_occurrences :
  Utils.deduplicateStrings [] = []
  /\ (forall (item : string) (items : list string),
        Utils.deduplicateStrings (item :: items)
        = item :: Utils.deduplicateStrings
                    (filter (fun other => negb (String.eqb other item)) items))
  /\ (forall items : list string,
        NoDup items -> Utils.deduplicateStrings items = items)
  /\ (forall items : list string,
        Utils.deduplicateStrings (Utils.deduplicateStrings items)
        = Utils.deduplicateStrings items).
Proof.
  assert (Hcons : forall (item : string) (items : list string),
             Utils.deduplicateStrings (item :: items)
             = item :: Utils.deduplicateStrings
                         (filter (fun other => negb (String.eqb other item)) items)).
  { intros item items. rewrite !deduplicateStrings_firstSeen.
    unfold firstSeen. cbn [fold_left existsb app].
    apply fold_seeStep_cons. }
  assert (Hnodup : forall items : list string,
             NoDup items -> Utils.deduplicateStrings items = items).
  { induction 1 as [|item items Hnot _ IH]; [reflexivity|].
    rewrite Hcons. f_equal.
    replace (filter (fun other => negb (String.eqb other item)) items)
      with items; [exact IH|].
    symmetry. apply forallb_filter_id. apply forallb_forall.
    intros other Hin. apply negb_true_iff, String.eqb_neq.
    intros ->. contradiction. }
  split; [reflexivity|]. split; [exact Hcons|]. split; [exact Hnodup|].
  intro items. apply Hnodup.
  rewrite deduplicateStrings_firstSeen. apply firstSeen_NoDup.
Qed.

Example deduplicateStrings_examples :
  Utils.deduplicateStrings ["a"; "b"; "a"; "c"; "b"] = ["a"; "b"; "c"]
  /\ Utils.deduplicateStrings [] = []
  /\ Utils.deduplicateStrings ["a"; "b"; "c"] = ["a"; "b"; "c"].
Proof. repeat split; reflexivity. Qed.

(** The cases of the test suite of [stripIDEContextTags]. *)
Example stripIDEContextTags_examples :
  Utils.stripIDEContextTags
    "<ide_opened_file>file.go</ide_opened_file>Hello, world!"
  = "Hello, world!"
  /\ Utils.stripIDEContextTags
       "<ide_selection>const x = 1;</ide_selection>Fix this code please"
     = "Fix this code please"
  /\ Utils.stripIDEContextTags
       "<system-reminder>Remember to be helpful</system-reminder>Actual prompt"
     = "Actual prompt"
  /\ Utils.stripIDEContextTags
       "<local-command-caveat>caveat</local-command-caveat>Real content"
     = "Real content"
  /\ Utils.stripIDEContextTags
       "<ide_opened_file>f.ts</ide_opened_file><system-reminder>r</system-reminder>Clean text"
     = "Clean text"
  /\ Utils.stripIDEContextTags
       ("<ide_opened_file>" ++ LFs ++ "file1.ts" ++ LFs ++ "file2.ts" ++ LFs
        ++ "</ide_opened_file>Hello")
     = "Hello"
  /\ Utils.stripIDEContextTags "Hello world" = "Hello world"
  /\ Utils.stripIDEContextTags "  Hello  " = "Hello"
  /\ Utils.stripIDEContextTags "a <ide_x>1</ide_y> b <ide_z>2</ide_z> c" = "a  b  c"
  /\ Utils.stripIDEContextTags "<system-reminder>never closed" = "<system-reminder>never closed"
  /\ Utils.stripIDEContextTags "x <command-name attr>n</command-name> y </command-name> z"
     = "x  y </command-name> z".
Proof. vm_compute. repeat split; reflexivity. Qed.

Section StripTags.

Import Utils.

(** An expression whose OPEN text starts with [<] has no match at the
    head of a text that starts with another character. *)
Lemma matchAtHead_other_head (re : TagRegex) (o : string) (c : ascii)
    (s : string) :
  openText re = String "<"%char o ->
  c <> "<"%char ->
  matchAtHead re (String c s) = None.
Proof.
  intros Hopen Hc. unfold matchAtHead, startsWith. rewrite Hopen.
  cbn [String.prefix].
  destruct (ascii_dec "<"%char c) as [Heq|_]; [congruence | reflexivity].
Qed.

Lemma replaceWithEmpty_no_tag (re : TagRegex) (o : string) (s : string) :
  openText re = String "<"%char o ->
  ~ In "<"%char (list_ascii_of_string s) ->
  replaceWithEmpty re s = s.
Proof.
  intros Hopen. unfold replaceWithEmpty.
  induction s as [|c s IH]; intro Hnot; [reflexivity|].
  cbn [removeMatches].
  rewrite (matchAtHead_other_head re o c s Hopen).
  - f_equal. apply IH. intro Hin. apply Hnot. now right.
  - intros ->. apply Hnot. now left.
Qed.

Lemma trimEnd_idempotent (s : string) : trimEnd (trimEnd s) = trimEnd s.
Proof.
  induction s as [|c s IH]; [reflexivity|].
  cbn [trimEnd]. destruct (trimEnd s) as [|d t] eqn:Hs.
  - destruct (isWhiteSpace c) eqn:Hc; [reflexivity|].
    cbn [trimEnd]. now rewrite Hc.
  - change (trimEnd (String c (String d t)))
      with (match trimEnd (String d t) with
            | EmptyString =>
                if isWhiteSpace c then EmptyString else String c EmptyString
            | t' => String c t'
            end).
    now rewrite IH.
Qed.

Lemma trimEnd_head (c : ascii) (s : string) :
  isWhiteSpace c = false -> exists t : string, trimEnd (String c s) = String c t.
Proof.
  intro Hc. cbn [trimEnd]. destruct (trimEnd s) as [|d t].
  - rewrite Hc. now exists EmptyString.
  - now exists (String d t).
Qed.

(** What [trim] returns has no white space left to trim. *)
Lemma trim_idempotent (s : string) : trim (trim s) = trim s.
Proof.
  unfold trim. destruct (trimStart_spec s) as (_ & _ & _ & Hhead).
  destruct (trimStart s) as [|c u]; [reflexivity|].
  destruct (trimEnd_head c u Hhead) as (t & Ht). rewrite Ht.
  cbn [trimStart]. rewrite Hhead. rewrite <- Ht.
  apply trimEnd_idempotent.
Qed.

Lemma stripIDEContextTags_trimmed (text : string) :
  trim (Utils.stripIDEContextTags text) = Utils.stripIDEContextTags text.
Proof. unfold Utils.stripIDEContextTags. apply trim_idempotent. Qed.

End StripTags.

(** X12. A text in which the character [<] does not occur holds no tag:
    [stripIDEContextTags] returns it trimmed and otherwise unchanged. *)
Theorem stripIDEContextTags_without_tags (text : string) :
  ~ In "<"%char (list_ascii_of_string text) ->
  Utils.stripIDEContextTags text = trim text.
Proof.
  intro Hnot. unfold Utils.stripIDEContextTags.
  rewrite (replaceWithEmpty_no_tag Utils.IDE_CONTEXT_TAG_RE "ide_" text)
    by (reflexivity || assumption).
  unfold Utils.SYSTEM_TAG_REGEXES. cbn [fold_left].
  rewrite (replaceWithEmpty_no_tag _ "local-command-caveat" text)
    by (reflexivity || assumption).
  rewrite (replaceWithEmpty_no_tag _ "system-reminder" text)
    by (reflexivity || assumption).
  rewrite (replaceWithEmpty_no_tag _ "command-name" text)
    by (reflexivity || assumption).
  rewrite (replaceWithEmpty_no_tag _ "command-message" text)
    by (reflexivity || assumption).
  rewrite (replaceWithEmpty_no_tag _ "command-args" text)
    by (reflexivity || assumption).
  rewrite (replaceWithEmpty_no_tag _ "local-command-stdout" text)
    by (reflexivity || assumption).
  reflexivity.
Qed.

Lemma stripIDEContextTags_without_tags_witness :
  Utils.stripIDEContextTags "  Hello world  " = "Hello world"
  /\ Utils.stripIDEContextTags "  Hello world  " = trim "  Hello world  ".
Proof.
  split; [vm_compute; reflexivity|].
  apply (stripIDEContextTags_without_tags "  Hello world  ").
  cbn. intuition discriminate.
Defined.

(* ------------------------------------------------------------------ *)
(** ** extract.ts: prompts and responses *)

Section ClaudePrompts.

Import Claude.

Lemma pushPrompt_app (prompts : list string) (line : TranscriptLine) :
  pushPrompt prompts line = (prompts ++ pushPrompt [] line)%list.
Proof.
  unfold pushPrompt.
  destruct (negb (String.eqb (line_type line) MessageType.User));
    [now rewrite app_nil_r|].
  destruct (extractUserContent (line_message line));
    [now rewrite app_nil_r | reflexivity].
Qed.

Lemma fold_pushPrompt (lines : list TranscriptLine) :
  forall prompts : list string,
    fold_left pushPrompt lines prompts
    = (prompts ++ flat_map (pushPrompt []) lines)%list.
Proof.
  induction lines as [|line rest IH]; intro prompts.
  - cbn. now rewrite app_nil_r.
  - cbn [fold_left flat_map]. rewrite IH, (pushPrompt_app prompts line).
    now rewrite <- app_assoc.
Qed.

Lemma extractUserContent_trimmed (message : option Message) :
  trim (extractUserContent message) = extractUserContent message.
Proof.
  unfold extractUserContent. destruct message as [msg|]; [|reflexivity].
  destruct (msg_content msg) as [s|blocks|]; try reflexivity.
  - apply stripIDEContextTags_trimmed.
  - destruct (0 <? length (fold_left pushText blocks []))%nat;
      [apply stripIDEContextTags_trimmed | reflexivity].
Qed.

Lemma pushPrompt_nonempty (line : TranscriptLine) :
  Forall (fun prompt => prompt <> EmptyString /\ trim prompt = prompt)
    (pushPrompt [] line).
Proof.
  unfold pushPrompt.
  destruct (negb (String.eqb (line_type line) MessageType.User));
    [constructor|].
  pose proof (extractUserContent_trimmed (line_message line)) as Htrim.
  destruct (extractUserContent (line_message line));
    repeat constructor; [discriminate | exact Htrim].
Qed.

(** The backward loop returns the last prompt of the forward loop. *)
Lemma extractLastUserPrompt_loop_last (lines : list TranscriptLine) :
  extractLastUserPrompt_loop (rev lines)
  = last (flat_map (pushPrompt []) lines) EmptyString.
Proof.
  induction lines as [|line lines IH] using rev_ind; [reflexivity|].
  rewrite rev_app_distr, flat_map_app. cbn [rev app flat_map].
  rewrite app_nil_r. cbn [extractLastUserPrompt_loop]. unfold pushPrompt.
  destruct (negb (String.eqb (line_type line) MessageType.User)).
  - now rewrite app_nil_r.
  - destruct (extractUserContent (line_message line)) as [|c t].
    + now rewrite app_nil_r.
    + cbn [app]. now rewrite last_last.
Qed.

Lemma pushText_app (texts : list string) (block : ContentBlock) :
  pushText texts block = (texts ++ pushText [] block)%list.
Proof.
  unfold pushText.
  destruct (String.eqb (block_type block) ContentType.Text);
    [|now rewrite app_nil_r].
  destruct (block_text block) as [text|]; [|now rewrite app_nil_r].
  destruct (String.eqb text EmptyString);
    [now rewrite app_nil_r | reflexivity].
Qed.

Lemma fold_pushText (blocks : list ContentBlock) :
  forall texts : list string,
    fold_left pushText blocks texts
    = (texts ++ flat_map (pushText []) blocks)%list.
Proof.
  induction blocks as [|block rest IH]; intro texts.
  - cbn. now rewrite app_nil_r.
  - cbn [fold_left flat_map]. rewrite IH, (pushText_app texts block).
    now rewrite <- app_assoc.
Qed.

Lemma pushResponses_app (texts : list string) (line : TranscriptLine) :
  pushResponses texts line = (texts ++ pushResponses [] line)%list.
Proof.
  unfold pushResponses.
  destruct (negb (String.eqb (line_type line) MessageType.Assistant));
    [now rewrite app_nil_r|].
  destruct (line_message line) as [msg|]; [|now rewrite app_nil_r].
  destruct (msg_content msg) as [s|blocks|]; try (now rewrite app_nil_r).
  now rewrite (fold_pushText blocks texts), (fold_pushText blocks []).
Qed.

Lemma fold_pushResponses (lines : list TranscriptLine) :
  forall texts : list string,
    fold_left pushResponses lines texts
    = (texts ++ flat_map (pushResponses []) lines)%list.
Proof.
  induction lines as [|line rest IH]; intro texts.
  - cbn. now rewrite app_nil_r.
  - cbn [fold_left flat_map]. rewrite IH, (pushResponses_app texts line).
    now rewrite <- app_assoc.
Qed.

Lemma pushText_nonempty (block : ContentBlock) :
  Forall (fun text => text <> EmptyString) (pushText [] block).
Proof.
  unfold pushText.
  destruct (String.eqb (block_type block) ContentType.Text); [|constructor].
  destruct (block_text block) as [text|]; [|constructor].
  destruct (String.eqb text EmptyString) eqn:Htext; [constructor|].
  apply String.eqb_neq in Htext. now repeat constructor.
Qed.

Lemma Forall_flat_map_each {A B : Type} (P : B -> Prop) (f : A -> list B)
    (l : list A) :
  (forall x : A, Forall P (f x)) -> Forall P (flat_map f l).
Proof.
  intro Hf. induction l as [|x l IH]; [constructor|].
  cbn [flat_map]. apply Forall_app. split; [apply Hf | exact IH].
Qed.

End ClaudePrompts.

(** X13. The last prompt is the last of all prompts: for every
    transcript, [extractLastUserPrompt], which scans backwards, returns
    the last element of what [extractAllUserPrompts] returns, and the
    empty string exactly when that list is empty. No prompt in the list
    is empty, and none has white space at either end. *)
Theorem claude_extractLastUserPrompt_last_of_all
    (lines : list Claude.TranscriptLine) :
  Claude.extractLastUserPrompt lines
  = last (Claude.extractAllUserPrompts lines) EmptyString
  /\ Forall (fun prompt => prompt <> EmptyString /\ trim prompt = prompt)
       (Claude.extractAllUserPrompts lines)
  /\ (Claude.extractLastUserPrompt lines = EmptyString
      <-> Claude.extractAllUserPrompts lines = []).
Proof.
  unfold Claude.extractLastUserPrompt, Claude.extractAllUserPrompts.
  rewrite fold_pushPrompt, extractLastUserPrompt_loop_last. cbn [app].
  assert (Hall : Forall (fun prompt =>
                           prompt <> EmptyString /\ trim prompt = prompt)
                   (flat_map (Claude.pushPrompt []) lines))
    by apply Forall_flat_map_each, pushPrompt_nonempty.
  split; [reflexivity|]. split; [exact Hall|].
  destruct (flat_map (Claude.pushPrompt []) lines) as [|p ps] eqn:Hps
    using rev_ind.
  - split; reflexivity.
  - rewrite last_last. apply Forall_app in Hall as [_ Hp].
    inversion Hp as [|? ? [Hne _] _]; subst. split; [contradiction|].
    intro Hnil. destruct ps; discriminate.
Qed.

(** X14. [extractAssistantResponses] works line by line and keeps the
    order: the responses of two transcripts put end to end are the
    responses of the first followed by those of the second. No response
    is the empty string. *)
Theorem extractAssistantResponses_of_joined_transcripts
    (a b : list Claude.TranscriptLine) :
  Claude.extractAssistantResponses (a ++ b)
  = (Claude.extractAssistantResponses a
     ++ Claude.extractAssistantResponses b)%list
  /\ Forall (fun text => text <> EmptyString)
       (Claude.extractAssistantResponses a).
Proof.
  unfold Claude.extractAssistantResponses.
  rewrite !fold_pushResponses. cbn [app]. split; [apply flat_map_app|].
  apply Forall_flat_map_each. intro line. unfold Claude.pushResponses.
  destruct (negb (String.eqb (Claude.line_type line) Claude.MessageType.Assistant));
    [constructor|].
  destruct (Claude.line_message line) as [msg|]; [|constructor].
  destruct (Claude.msg_content msg) as [s|blocks|]; try constructor.
  rewrite fold_pushText. cbn [app].
  apply Forall_flat_map_each, pushText_nonempty.
Qed.

(* ------------------------------------------------------------------ *)
(** ** parsers/gemini/extract.ts: prompts and modified files *)

Section GeminiExtract.

Import Gemini.

Lemma fold_gemini_pushPrompt (msgs : list GeminiMessage) :
  forall prompts : list string,
    fold_left pushPrompt msgs prompts
    = (prompts ++ contentsOfType MessageType.User msgs)%list.
Proof.
  unfold contentsOfType.
  induction msgs as [|msg rest IH]; intro prompts.
  - cbn. now rewrite app_nil_r.
  - cbn [fold_left filter]. rewrite IH. unfold pushPrompt.
    destruct (String.eqb (msg_type msg) MessageType.User); cbn [andb map filter].
    + destruct (String.eqb (msg_content msg) EmptyString); cbn [negb].
      * reflexivity.
      * now rewrite <- app_assoc.
    + reflexivity.
Qed.

Lemma lastContent_loop_last (wanted : string) (msgs : list GeminiMessage) :
  lastContent_loop wanted (rev msgs)
  = last (contentsOfType wanted msgs) EmptyString.
Proof.
  unfold contentsOfType.
  induction msgs as [|msg msgs IH] using rev_ind; [reflexivity|].
  rewrite rev_app_distr, filter_app, map_app, filter_app.
  cbn [rev app lastContent_loop filter].
  destruct (String.eqb (msg_type msg) wanted); cbn [andb map filter].
  - destruct (String.eqb (msg_content msg) EmptyString); cbn [negb].
    + now rewrite app_nil_r.
    + now rewrite last_last.
  - now rewrite app_nil_r.
Qed.

Local Abbreviation seeStep :=
  (fun (seen : list string) (id : string) =>
     if existsb (String.eqb id) seen then seen else (seen ++ [id])%list).

Lemma recordFile_sees (toolCall : GeminiToolCall) (seen : list string) :
  recordFile (seen, seen) toolCall
  = (fold_left seeStep (writtenFile toolCall) seen,
     fold_left seeStep (writtenFile toolCall) seen).
Proof.
  unfold recordFile, writtenFile.
  destruct (existsb (String.eqb (call_name toolCall)) FileModificationTools);
    cbn [negb]; [|reflexivity].
  destruct (fileOf toolCall) as [|c file]; [reflexivity|].
  change (String.eqb (String c file) EmptyString) with false.
  cbn [negb andb fold_left].
  now destruct (existsb (String.eqb (String c file)) seen).
Qed.

Lemma fold_recordFile (calls : list GeminiToolCall) :
  forall seen : list string,
    fold_left recordFile calls (seen, seen)
    = (fold_left seeStep (flat_map writtenFile calls) seen,
       fold_left seeStep (flat_map writtenFile calls) seen).
Proof.
  induction calls as [|toolCall rest IH]; intro seen; [reflexivity|].
  cbn [fold_left flat_map]. rewrite recordFile_sees, IH.
  now rewrite fold_left_app.
Qed.

Lemma fold_recordFiles (msgs : list GeminiMessage) :
  forall seen : list string,
    fold_left recordFiles msgs (seen, seen)
    = (fold_left seeStep (writtenFiles msgs) seen,
       fold_left seeStep (writtenFiles msgs) seen).
Proof.
  unfold writtenFiles.
  induction msgs as [|msg rest IH]; intro seen; [reflexivity|].
  cbn [fold_left flat_map]. unfold recordFiles at 2.
  destruct (String.eqb (msg_type msg) MessageType.Gemini); cbn [negb].
  - destruct (toolCalls msg) as [calls|]; [|apply IH].
    rewrite fold_recordFile, IH. now rewrite fold_left_app.
  - apply IH.
Qed.

Lemma writtenFile_nonempty (toolCall : GeminiToolCall) :
  Forall (fun file => file <> EmptyString) (writtenFile toolCall).
Proof.
  unfold writtenFile.
  destruct (existsb _ FileModificationTools); [|constructor].
  destruct (fileOf toolCall); repeat constructor. discriminate.
Qed.

End GeminiExtract.

(** X15. In a Gemini transcript the last prompt is the last of all
    prompts: [extractAllUserPrompts] returns the non-empty contents of
    the user messages in order, [extractLastUserPrompt] the last of
    them, and [extractLastAssistantMessage] the last non-empty content
    of a gemini message; each of the two is the empty string when there
    is no such content. *)
Theorem gemini_extractLastUserPrompt_last_of_all
    (transcript : Gemini.GeminiTranscript) :
  Gemini.extractAllUserPrompts transcript
  = contentsOfType Gemini.MessageType.User (Gemini.messages transcript)
  /\ Gemini.extractLastUserPrompt transcript
     = last (Gemini.extractAllUserPrompts transcript) EmptyString
  /\ Gemini.extractLastAssistantMessage transcript
     = last (contentsOfType Gemini.MessageType.Gemini
               (Gemini.messages transcript))
         EmptyString.
Proof.
  unfold Gemini.extractAllUserPrompts, Gemini.extractLastUserPrompt,
    Gemini.extractLastAssistantMessage.
  rewrite fold_gemini_pushPrompt, !lastContent_loop_last.
  repeat split.
Qed.

(** X16. The modified files of a Gemini transcript are the files written
    by the tool calls of its gemini messages (calls of a file
    modification tool that name a file), each file once, at the place
    of its first occurrence: what [deduplicateStrings] makes of the
    list of written files. The result has no repetition and holds no
    empty name. *)
Theorem gemini_extractModifiedFiles_deduplicated
    (transcript : Gemini.GeminiTranscript) :
  Gemini.extractModifiedFiles transcript
  = Utils.deduplicateStrings (writtenFiles (Gemini.messages transcript))
  /\ NoDup (Gemini.extractModifiedFiles transcript)
  /\ (forall file : string,
        In file (Gemini.extractModifiedFiles transcript)
        <-> In file (writtenFiles (Gemini.messages transcript)))
  /\ ~ In EmptyString (Gemini.extractModifiedFiles transcript).
Proof.
  assert (Heq : Gemini.extractModifiedFiles transcript
                = firstSeen (writtenFiles (Gemini.messages transcript))).
  { unfold Gemini.extractModifiedFiles. now rewrite fold_recordFiles. }
  rewrite Heq, deduplicateStrings_firstSeen.
  split; [reflexivity|]. split; [apply firstSeen_NoDup|].
  split; [intro file; apply firstSeen_in|].
  rewrite firstSeen_in. unfold writtenFiles. rewrite in_flat_map.
  intros (msg & _ & Hin).
  destruct (String.eqb (Gemini.msg_type msg) Gemini.MessageType.Gemini);
    [|contradiction].
  destruct (Gemini.toolCalls msg) as [calls|]; [|contradiction].
  apply in_flat_map in Hin as (toolCall & _ & Hin).
  pose proof (writtenFile_nonempty toolCall) as Hne.
  rewrite Forall_forall in Hne. now apply (Hne EmptyString).
Qed.

(** The cases of the test suite of [parsers/gemini/extract.ts]. *)
Example gemini_extract_examples :
  let call (name : string) (args : list (string * json)) :=
    Gemini.mkGeminiToolCall "tc" name args None in
  let transcript :=
    Gemini.mkGeminiTranscript
      [ Gemini.mkGeminiMessage (Some "u1") "user" "first" None None;
        Gemini.mkGeminiMessage (Some "a1") "gemini" "answer"
          (Some [ call "write_file" [("file_path", JString "a.ts")];
                  call "read_file" [("file_path", JString "r.ts")];
                  call "edit_file" [("path", JString "b.ts")];
                  call "replace" [("file_path", JString "a.ts")];
                  call "save_file" [("filename", JString "c.ts")];
                  call "write_file" [] ])
          None;
        Gemini.mkGeminiMessage (Some "u2") "user" "second" None None;
        Gemini.mkGeminiMessage None "gemini" EmptyString None None ] in
  Gemini.extractModifiedFiles transcript = ["a.ts"; "b.ts"; "c.ts"]
  /\ Gemini.extractAllUserPrompts transcript = ["first"; "second"]
  /\ Gemini.extractLastUserPrompt transcript = "second"
  /\ Gemini.extractLastAssistantMessage transcript = "answer"
  /\ Gemini.extractLastUserPrompt (Gemini.mkGeminiTranscript []) = EmptyString.
Proof. vm_compute. repeat split; reflexivity. Qed.

(* ------------------------------------------------------------------ *)
(** ** chunking.ts: sizes of the chunks *)

Section ChunkSizes.

Variable maxSize : Z.

(** The loop of [chunkJSONL] seals a chunk only while it fits: the
    accumulator is empty or ends with a line feed and is no longer than
    the threshold. *)
Lemma chunkJSONL_loop_within (lines : list string) :
  forall (i : Z) (chunks : list string) (currentChunk : string)
         (cs : list string),
    currentChunk = EmptyString
    \/ (exists s : string, currentChunk = s ++ LFs)
       /\ len currentChunk <= maxSize ->
    Forall (fun chunk => len chunk + 1 <= maxSize) chunks ->
    chunkJSONL_loop maxSize lines i chunks currentChunk = Returned cs ->
    Forall (fun chunk => len chunk + 1 <= maxSize) cs.
Proof.
  assert (Hseal : forall (chunks : list string) (currentChunk : string),
             currentChunk = EmptyString
             \/ (exists s : string, currentChunk = s ++ LFs)
                /\ len currentChunk <= maxSize ->
             Forall (fun chunk => len chunk + 1 <= maxSize) chunks ->
             (0 <? len currentChunk) = true ->
             Forall (fun chunk => len chunk + 1 <= maxSize)
               (chunks ++ [strip_final_LF currentChunk])).
  { intros chunks cur Hcur Hchunks Hpos. apply Z.ltb_lt in Hpos.
    apply Forall_app. split; [assumption|].
    destruct Hcur as [->|[(s & ->) Hlen]]; [cbn in Hpos; lia|].
    rewrite strip_final_LF_append. repeat constructor.
    rewrite len_append, len_LFs in Hlen. lia. }
  induction lines as [|line rest IH]; intros i chunks cur cs Hcur Hchunks.
  - cbn [chunkJSONL_loop].
    destruct (0 <? len cur) eqn:Hpos; intros [= <-];
      [now apply Hseal | assumption].
  - cbn [chunkJSONL_loop]. cbv zeta.
    destruct (maxSize <? len (line ++ LFs)) eqn:Hline; [discriminate|].
    apply Z.ltb_ge in Hline.
    destruct ((maxSize <? len cur + len (line ++ LFs)) && (0 <? len cur))
      eqn:Hfull.
    + apply andb_true_iff in Hfull as [_ Hpos].
      apply IH; [|now apply Hseal].
      right. split; [now exists line | assumption].
    + apply IH; [|assumption].
      right. split.
      * exists (cur ++ line). now rewrite append_assoc.
      * rewrite len_append.
        apply andb_false_iff in Hfull as [Hfits|Hempty].
        -- apply Z.ltb_ge in Hfits. lia.
        -- apply Z.ltb_ge in Hempty. pose proof (len_nonneg cur). lia.
Qed.

End ChunkSizes.

(** X17. Every chunk that [chunkJSONL] returns is shorter than the
    threshold: its length plus one, for the line feed that ends its last
    line while the chunk is being filled, is at most [maxSize]. There is
    no chunk exactly when the content is empty. *)
Theorem chunkJSONL_chunks_within_limit
    (content : string) (maxSize : Z) (chunks : list string) :
  chunkJSONL content maxSize = Returned chunks ->
  Forall (fun chunk => len chunk + 1 <= maxSize) chunks
  /\ (chunks = [] <-> content = EmptyString).
Proof.
  intro Hchunks. split.
  - unfold chunkJSONL in Hchunks. destruct content as [|c content].
    + injection Hchunks as <-. constructor.
    + eapply chunkJSONL_loop_within; [| |exact Hchunks];
        [now left | constructor].
  - pose proof (chunkJSONL_reassembles maxSize content chunks Hchunks) as Hjoin.
    split.
    + intros ->. now rewrite <- Hjoin.
    + intros ->. cbn in Hchunks. now injection Hchunks as <-.
Qed.

(** Three lines of four characters under a threshold of six. *)
Lemma chunkJSONL_chunks_within_limit_witness :
  let content := "aaaa" ++ LFs ++ "bbbb" ++ LFs ++ "cccc" in
  chunkJSONL content 6 = Returned ["aaaa"; "bbbb"; "cccc"]
  /\ Forall (fun chunk => len chunk + 1 <= 6) ["aaaa"; "bbbb"; "cccc"]
  /\ (["aaaa"; "bbbb"; "cccc"] = [] <-> content = EmptyString).
Proof.
  intro content.
  assert (Hchunks : chunkJSONL content 6 = Returned ["aaaa"; "bbbb"; "cccc"])
    by reflexivity.
  split; [exact Hchunks|].
  exact (chunkJSONL_chunks_within_limit content 6 ["aaaa"; "bbbb"; "cccc"]
           Hchunks).
Defined.

(** X18. With the Claude Code hint, what [chunkTranscript] returns is put
    back together by [reassembleTranscript]: whenever the chunking
    returns chunks, whether one or several, the reassembly with the same
    hint returns the content, whatever the host's JSON functions are. *)
Theorem reassembleTranscript_chunkTranscript_jsonl
    (JSON_parse : string -> option json) (JSON_stringify : json -> string)
    (content : string) (maxSize : Z) (chunks : list string) :
  chunkTranscript JSON_parse JSON_stringify content (Some ClaudeCode) maxSize
  = Returned chunks ->
  reassembleTranscript JSON_parse JSON_stringify chunks (Some ClaudeCode)
  = Returned content.
Proof.
  unfold chunkTranscript, reassembleTranscript. cbn [detectedType].
  destruct (len content <=? maxSize); [now intros [= <-]|].
  intro Hchunks. apply chunkJSONL_reassembles in Hchunks.
  unfold reassembleJSONL in *.
  destruct chunks as [|chunk [|second rest]]; now rewrite <- Hchunks.
Qed.

Lemma reassembleTranscript_chunkTranscript_jsonl_witness :
  let content := "aaaa" ++ LFs ++ "bbbb" ++ LFs ++ "cccc" in
  chunkTranscript RefJSON.parse RefJSON.stringify content (Some ClaudeCode) 6
  = Returned ["aaaa"; "bbbb"; "cccc"]
  /\ reassembleTranscript RefJSON.parse RefJSON.stringify
       ["aaaa"; "bbbb"; "cccc"] (Some ClaudeCode)
     = Returned content.
Proof.
  intro content.
  assert (Hchunks : chunkTranscript RefJSON.parse RefJSON.stringify content
                      (Some ClaudeCode) 6
                    = Returned ["aaaa"; "bbbb"; "cccc"])
    by reflexivity.
  split; [exact Hchunks|].
  exact (reassembleTranscript_chunkTranscript_jsonl RefJSON.parse
           RefJSON.stringify content 6 ["aaaa"; "bbbb"; "cccc"] Hchunks).
Defined.

Section GeminiChunkSizes.

Variable JSON_stringify : json -> string.
Variable maxSize : Z.

Local Abbreviation seal := (fun group => JSON_stringify (wrapper group)).
Local Abbreviation sized := (wrappedSize JSON_stringify).

Lemma wrappedSize_snoc (group : list json) (msg : json) :
  group <> [] ->
  sized (group ++ [msg]) = sized group + len (JSON_stringify msg) + 1.
Proof.
  intros _. unfold wrappedSize, sumOf.
  rewrite map_app, fold_right_app, length_app. cbn [map fold_right length].
  assert (Hsum : forall (l : list Z) (z : Z),
             fold_right Z.add z l = fold_right Z.add 0 l + z).
  { induction l as [|x l IH]; intro z; cbn [fold_right]; [lia|].
    rewrite IH. lia. }
  rewrite (Hsum _ (len (JSON_stringify msg) + 0)). lia.
Qed.

Lemma wrappedSize_single (msg : json) :
  sized [msg] = emptyWrapperLength + len (JSON_stringify msg).
Proof. unfold wrappedSize, sumOf. cbn [map fold_right length]. lia. Qed.

(** The size that the loop of [chunkGeminiJSON] keeps is never under the
    size of the wrapped accumulator, and it is within the threshold as
    soon as the accumulator holds two messages. *)
Lemma chunkGeminiJSON_loop_sizes (messages : list json) :
  forall (chunks : list string) (currentMessages : list json)
         (currentSize : Z),
    (currentMessages = [] -> currentSize = emptyWrapperLength) ->
    (currentMessages <> [] -> sized currentMessages <= currentSize) ->
    ((2 <= length currentMessages)%nat -> currentSize <= maxSize) ->
    exists groups : list (list json),
      chunkGeminiJSON_loop JSON_stringify maxSize messages chunks
        currentMessages currentSize
      = (chunks ++ map seal groups)%list
      /\ concat groups = (currentMessages ++ messages)%list
      /\ Forall (fun group =>
                   group <> []
                   /\ (sized group <= maxSize \/ length group = 1%nat))
           groups.
Proof.
  assert (Hgroup : forall (cur : list json) (size : Z),
             cur <> [] ->
             (cur <> [] -> sized cur <= size) ->
             ((2 <= length cur)%nat -> size <= maxSize) ->
             cur <> [] /\ (sized cur <= maxSize \/ length cur = 1%nat)).
  { intros cur size Hne Hsized Hfits. split; [assumption|].
    destruct cur as [|m [|m' cur]]; [congruence | now right | left].
    specialize (Hsized Hne). cbn [length] in Hfits. lia. }
  induction messages as [|msg rest IH]; intros chunks cur size Hinit Hsized Hfits.
  - cbn [chunkGeminiJSON_loop]. destruct cur as [|m cur].
    + exists []. cbn. now rewrite app_nil_r.
    + exists [m :: cur]. cbn [length Nat.ltb Nat.leb map concat].
      rewrite !app_nil_r. repeat split; try discriminate.
      constructor; [|constructor]. apply (Hgroup _ size); trivial.
      discriminate.
  - cbn [chunkGeminiJSON_loop]. cbv zeta.
    destruct ((maxSize <? size + _) && (0 <? length cur)%nat) eqn:Hseal.
    + apply andb_true_iff in Hseal as [_ Hcur].
      assert (Hne : cur <> []) by (destruct cur; [discriminate Hcur | discriminate]).
      destruct (IH (chunks ++ [seal cur])%list [msg]
                  (emptyWrapperLength
                   + (len (JSON_stringify msg)
                      + (if (0 <? length cur)%nat then 1 else 0))))
        as (groups & Hloop & Hconcat & Hgroups).
      * discriminate.
      * intros _. rewrite wrappedSize_single.
        destruct (0 <? length cur)%nat; lia.
      * cbn [length]. lia.
      * exists (cur :: groups). rewrite Hloop. cbn [map concat].
        rewrite <- app_assoc, Hconcat. repeat split.
        constructor; [|assumption]. now apply (Hgroup _ size).
    + destruct (IH chunks (cur ++ [msg])%list
                  (size + (len (JSON_stringify msg)
                           + (if (0 <? length cur)%nat then 1 else 0))))
        as (groups & Hloop & Hconcat & Hgroups).
      * intro Hnil. destruct cur; discriminate.
      * intros _. destruct cur as [|m cur].
        -- cbn [app length Nat.ltb Nat.leb]. rewrite wrappedSize_single.
           rewrite (Hinit eq_refl). lia.
        -- rewrite wrappedSize_snoc by discriminate.
           cbn [length Nat.ltb Nat.leb].
           assert (Hm : sized (m :: cur) <= size) by (apply Hsized; discriminate).
           lia.
      * intro Htwo. rewrite length_app in Htwo. cbn [length] in Htwo.
        destruct cur as [|m cur]; [cbn in Htwo; lia|].
        cbn [length Nat.ltb Nat.leb andb] in Hseal |- *.
        rewrite andb_true_r in Hseal. apply Z.ltb_ge in Hseal. exact Hseal.
      * exists groups. rewrite Hloop, Hconcat, <- app_assoc.
        repeat split. assumption.
Qed.

End GeminiChunkSizes.

Section ReferenceCodecSizes.

Lemma stringify_array (items : list json) :
  RefJSON.stringify (JArray items)
  = "[" ++ RefJSON.elementsText items ++ "]".
Proof. reflexivity. Qed.

Lemma len_elementsText (group : list json) :
  group <> [] ->
  len (RefJSON.elementsText group)
  = sumOf (fun msg => len (RefJSON.stringify msg)) group
    + (Z.of_nat (length group) - 1).
Proof.
  induction group as [|x r IH]; [congruence|]. intros _.
  destruct r as [|y r].
  - unfold sumOf. cbn [RefJSON.elementsText map fold_right length]. lia.
  - change (RefJSON.elementsText (x :: y :: r))
      with (RefJSON.stringify x ++ "," ++ RefJSON.elementsText (y :: r)).
    rewrite !len_append, IH by discriminate.
    unfold sumOf. cbn [map fold_right length].
    change (len ",") with 1. lia.
Qed.

(** The reference codec prints a wrapped run without white space. *)
Lemma RefJSON_prints_compactly (group : list json) :
  group <> [] ->
  len (RefJSON.stringify (wrapper group))
  = wrappedSize RefJSON.stringify group.
Proof.
  intro Hne. unfold wrapper, wrappedSize.
  change (RefJSON.stringify (JObject [("messages", JArray group)]))
    with ("{" ++ (RefJSON.quote "messages" ++ ":"
                  ++ RefJSON.stringify (JArray group)) ++ "}").
  rewrite stringify_array, !len_append, len_elementsText by assumption.
  change (len "{") with 1. change (len "}") with 1.
  change (len "[") with 1. change (len "]") with 1.
  change (len ":") with 1.
  change (len (RefJSON.quote "messages")) with 10.
  change emptyWrapperLength with 15. lia.
Qed.

End ReferenceCodecSizes.

(** X19. Above the threshold, [chunkGeminiJSON] cuts the message list
    into runs of consecutive messages, none of them empty, and returns
    the document that wraps each run, in order: no message is lost,
    repeated or moved. When the host prints a wrapped run without white
    space, a chunk is longer than the threshold only if it holds a
    single message: a message too long for a chunk is not an error, it
    gets a chunk of its own. *)
Theorem chunkGeminiJSON_chunks_hold_runs
    (JSON_parse : string -> option json) (JSON_stringify : json -> string)
    (content : string) (maxSize : Z) (msgs : list json) :
  maxSize < len content ->
  messagesOf JSON_parse content = Some msgs ->
  exists groups : list (list json),
    chunkGeminiJSON JSON_parse JSON_stringify content maxSize
    = Returned (map (fun group => JSON_stringify (wrapper group)) groups)
    /\ concat groups = msgs
    /\ Forall (fun group => group <> []) groups
    /\ ((forall group : list json,
           segmentOf group msgs -> group <> [] ->
           len (JSON_stringify (wrapper group))
           = wrappedSize JSON_stringify group) ->
        Forall (fun group =>
                  len (JSON_stringify (wrapper group)) <= maxSize
                  \/ exists msg : json, group = [msg])
          groups).
Proof.
  intros Hover Hcontent. unfold chunkGeminiJSON.
  apply Z.leb_gt in Hover. rewrite Hover.
  unfold messagesOf in Hcontent.
  destruct (JSON_parse content) as [parsed|]; [|discriminate].
  destruct (member "messages" parsed) as [[| | | |items|]|];
    try discriminate.
  injection Hcontent as ->. cbn [iterate].
  destruct (chunkGeminiJSON_loop_sizes JSON_stringify maxSize msgs [] []
              emptyWrapperLength)
    as (groups & Hloop & Hconcat & Hgroups); try congruence.
  { cbn [length]. lia. }
  cbn [app] in Hloop, Hconcat.
  exists groups. rewrite Hloop. split; [reflexivity|].
  split; [exact Hconcat|]. split.
  - eapply Forall_impl; [|exact Hgroups]. now intros group [Hne _].
  - intro Hcompact. apply Forall_forall. intros group Hin.
    rewrite Forall_forall in Hgroups.
    destruct (Hgroups group Hin) as [Hne [Hfits|Hone]].
    + left. rewrite Hcompact; [exact Hfits | | exact Hne].
      rewrite <- Hconcat. now apply in_concat_segment.
    + right. destruct group as [|msg [|msg' group]]; try discriminate.
      now exists msg.
Qed.

(** Four messages of 24 characters under a threshold of 70: two chunks
    of two messages. *)
Lemma chunkGeminiJSON_chunks_hold_runs_witness :
  let msg (i : string) := JObject [("id", JString i); ("c", JString "xxxxxx")] in
  let msgs := [msg "m0"; msg "m1"; msg "m2"; msg "m3"] in
  let content := RefJSON.stringify (wrapper msgs) in
  chunkGeminiJSON RefJSON.parse RefJSON.stringify content 70
  = Returned [RefJSON.stringify (wrapper [msg "m0"; msg "m1"]);
              RefJSON.stringify (wrapper [msg "m2"; msg "m3"])]
  /\ exists groups : list (list json),
       chunkGeminiJSON RefJSON.parse RefJSON.stringify content 70
       = Returned (map (fun group => RefJSON.stringify (wrapper group)) groups)
       /\ concat groups = msgs
       /\ Forall (fun group => group <> []) groups
       /\ Forall (fun group =>
                    len (RefJSON.stringify (wrapper group)) <= 70
                    \/ exists m : json, group = [m])
            groups.
Proof.
  intros msg msgs content.
  split; [vm_compute; reflexivity|].
  destruct (chunkGeminiJSON_chunks_hold_runs RefJSON.parse RefJSON.stringify
              content 70 msgs)
    as (groups & Hchunks & Hconcat & Hne & Hsizes).
  - vm_compute. reflexivity.
  - vm_compute. reflexivity.
  - exists groups. split; [exact Hchunks|]. split; [exact Hconcat|].
    split; [exact Hne|]. apply Hsizes.
    intros group _. apply RefJSON_prints_compactly.
Defined.

(* ------------------------------------------------------------------ *)
(** ** chunking.ts: the order of chunk files *)

Section SortByKey.

Variable key : string -> Z.

Local Abbreviation compare := (fun a b : string => key a - key b).
Local Abbreviation ordered := (fun a b : string => key a <= key b).

Lemma sortInsert_Permutation (a : string) (sorted : list string) :
  Permutation (sortInsert compare a sorted) (a :: sorted).
Proof.
  induction sorted as [|b rest IH]; [reflexivity|].
  cbn [sortInsert]. destruct (key a - key b <=? 0); [reflexivity|].
  rewrite IH. apply perm_swap.
Qed.

Lemma sortWith_Permutation (items : list string) :
  Permutation (sortWith compare items) items.
Proof.
  induction items as [|a rest IH]; [reflexivity|].
  cbn [sortWith fold_right]. fold (sortWith compare rest).
  rewrite sortInsert_Permutation. now constructor.
Qed.

Lemma sortInsert_StronglySorted (a : string) (sorted : list string) :
  StronglySorted ordered sorted ->
  StronglySorted ordered (sortInsert compare a sorted).
Proof.
  induction 1 as [|b rest Hrest IH Hb]; [repeat constructor|].
  cbn [sortInsert]. destruct (key a - key b <=? 0) eqn:Hab.
  - apply Z.leb_le in Hab. constructor; [now constructor|].
    constructor; [lia|].
    eapply Forall_impl; [|exact Hb]. cbn. intros c Hc. lia.
  - apply Z.leb_gt in Hab. constructor; [exact IH|].
    eapply Permutation_Forall.
    + symmetry. apply sortInsert_Permutation.
    + constructor; [lia | exact Hb].
Qed.

Lemma sortWith_StronglySorted (items : list string) :
  StronglySorted ordered (sortWith compare items).
Proof.
  induction items as [|a rest IH]; [constructor|].
  cbn [sortWith fold_right]. now apply sortInsert_StronglySorted.
Qed.

(** Items of equal key keep their order. *)
Lemma sortInsert_stable (k : Z) (a : string) (sorted : list string) :
  filter (fun item => key item =? k) (sortInsert compare a sorted)
  = filter (fun item => key item =? k) (a :: sorted).
Proof.
  induction sorted as [|b rest IH]; [reflexivity|].
  cbn [sortInsert]. destruct (key a - key b <=? 0) eqn:Hab; [reflexivity|].
  apply Z.leb_gt in Hab. cbn [filter] in *. rewrite IH.
  destruct (key a =? k) eqn:Ha; [|reflexivity].
  destruct (key b =? k) eqn:Hb; [|reflexivity].
  apply Z.eqb_eq in Ha, Hb. lia.
Qed.

Lemma sortWith_stable (k : Z) (items : list string) :
  filter (fun item => key item =? k) (sortWith compare items)
  = filter (fun item => key item =? k) items.
Proof.
  induction items as [|a rest IH]; [reflexivity|].
  cbn [sortWith fold_right]. fold (sortWith compare rest).
  rewrite sortInsert_stable. cbn [filter]. now rewrite IH.
Qed.

(** A list in strictly increasing order of key is the only arrangement
    of its items in order of key. *)
Lemma sorted_arrangement_unique (target : list string) :
  StronglySorted (fun a b => key a < key b) target ->
  forall items : list string,
    Permutation items target ->
    StronglySorted ordered items ->
    items = target.
Proof.
  induction 1 as [|x target Htarget IH Hx]; intros items Hperm Hsorted.
  - now apply Permutation_nil, Permutation_sym.
  - destruct items as [|y items].
    + apply Permutation_nil in Hperm. discriminate.
    + assert (Hyx : y = x).
      { inversion Hsorted as [|? ? _ Hy]; subst.
        assert (Hin_y : In y (x :: target))
          by (eapply Permutation_in; [exact Hperm | now left]).
        assert (Hin_x : In x (y :: items))
          by (eapply Permutation_in; [symmetry; exact Hperm | now left]).
        destruct Hin_y as [Heq|Hin_y]; [now symmetry|].
        destruct Hin_x as [Heq|Hin_x]; [assumption|].
        rewrite Forall_forall in Hx, Hy.
        specialize (Hx y Hin_y). specialize (Hy x Hin_x). cbn in Hy. lia. }
      subst y. f_equal. apply IH.
      * eapply Permutation_cons_inv. exact Hperm.
      * now inversion Hsorted.
Qed.

End SortByKey.

Section ChunkFileOrder.

Variable baseName : string.

Lemma parseChunkIndex_of_chunkFileName (n : Z) :
  0 <= n -> parseChunkIndex (chunkFileName baseName n) baseName = n.
Proof.
  intro Hn. unfold chunkFileName, parseChunkIndex.
  destruct (n =? 0) eqn:E.
  - apply Z.eqb_eq in E. subst n. now rewrite String.eqb_refl.
  - apply Z.eqb_neq in E. destruct n as [|p|p]; try lia.
    unfold CHUNK_SUFFIX_FORMAT.
    set (digits := padStart0 3 (numToString (Zpos p))).
    assert (Hne : String.eqb (baseName ++ "." ++ digits) baseName = false).
    { apply String.eqb_neq, append_not_self. discriminate. }
    rewrite Hne. unfold startsWith.
    rewrite <- (append_assoc baseName "." digits).
    rewrite prefix_append. simpl negb. cbv iota.
    replace (String.length baseName + 1)%nat
      with (String.length (baseName ++ "."))
      by (rewrite length_append; reflexivity).
    rewrite slice_from_append. unfold digits.
    now rewrite parseInt10_suffix.
Qed.

(** The names of the chunks [from], [from + 1], ... are in strictly
    increasing order of index. *)
Lemma chunkFileNames_increasing (count from : nat) :
  StronglySorted
    (fun a b => parseChunkIndex a baseName < parseChunkIndex b baseName)
    (chunkFileNames baseName from count).
Proof.
  revert from. induction count as [|count IH]; intro from; [constructor|].
  cbn [chunkFileNames seq map]. constructor; [apply IH|].
  apply Forall_forall. intros name Hin.
  unfold chunkFileNames in Hin.
  apply in_map_iff in Hin as (i & <- & Hi). apply in_seq in Hi.
  rewrite !parseChunkIndex_of_chunkFileName by lia. lia.
Qed.

End ChunkFileOrder.

(** X20. [sortChunkFiles] returns the files it is given, each as many
    times as it was given, in ascending order of [parseChunkIndex], and
    files of the same index in the order they were given. *)
Theorem sortChunkFiles_sorts_by_index (files : list string) (baseName : string) :
  Permutation (sortChunkFiles files baseName) files
  /\ StronglySorted
       (fun a b => parseChunkIndex a baseName <= parseChunkIndex b baseName)
       (sortChunkFiles files baseName)
  /\ forall index : Z,
       filter (fun file => parseChunkIndex file baseName =? index)
         (sortChunkFiles files baseName)
       = filter (fun file => parseChunkIndex file baseName =? index) files.
Proof.
  unfold sortChunkFiles. split; [|split].
  - apply (sortWith_Permutation (fun file => parseChunkIndex file baseName)).
  - apply (sortWith_StronglySorted (fun file => parseChunkIndex file baseName)).
  - intro index.
    apply (sortWith_stable (fun file => parseChunkIndex file baseName)).
Qed.

(** X21. Given the chunk files of a transcript in any order, that is any
    arrangement of the names that [chunkFileName] gives to the chunks 0
    to [count - 1], [sortChunkFiles] returns them in chunk order: the
    base file first, then the chunks 1, 2, ... *)
Theorem sortChunkFiles_restores_chunk_order
    (files : list string) (baseName : string) (count : nat) :
  Permutation files (chunkFileNames baseName 0 count) ->
  sortChunkFiles files baseName = chunkFileNames baseName 0 count.
Proof.
  intro Hperm.
  apply (sorted_arrangement_unique (fun file => parseChunkIndex file baseName)).
  - apply chunkFileNames_increasing.
  - rewrite <- Hperm. unfold sortChunkFiles.
    apply (sortWith_Permutation (fun file => parseChunkIndex file baseName)).
  - unfold sortChunkFiles.
    apply (sortWith_StronglySorted (fun file => parseChunkIndex file baseName)).
Qed.

(** The case of the test suite. *)
Lemma sortChunkFiles_restores_chunk_order_witness :
  let files :=
    [ "transcript.jsonl.003"; "transcript.jsonl"; "transcript.jsonl.001";
      "transcript.jsonl.002" ] in
  chunkFileNames "transcript.jsonl" 0 4
  = [ "transcript.jsonl"; "transcript.jsonl.001"; "transcript.jsonl.002";
      "transcript.jsonl.003" ]
  /\ sortChunkFiles files "transcript.jsonl"
     = chunkFileNames "transcript.jsonl" 0 4.
Proof.
  intro files. split; [vm_compute; reflexivity|].
  apply (sortChunkFiles_restores_chunk_order files "transcript.jsonl" 4).
  change (chunkFileNames "transcript.jsonl" 0 4)
    with [ "transcript.jsonl"; "transcript.jsonl.001"; "transcript.jsonl.002";
           "transcript.jsonl.003" ].
  unfold files.
  apply (@Permutation_cons_app string
           ["transcript.jsonl"; "transcript.jsonl.001"; "transcript.jsonl.002"]
           ["transcript.jsonl"; "transcript.jsonl.001"; "transcript.jsonl.002"]
           [] "transcript.jsonl.003").
  reflexivity.
Defined.

(* ------------------------------------------------------------------ *)
(** ** parsers/gemini/extract.ts: usage from a message index *)

(** X22. The usage of a Gemini transcript splits at any message index:
    for every index [k >= 0], each total of the whole transcript is the
    total of its first [k] messages plus the total counted from index
    [k] on, so that usage can be accumulated in steps. From an index at
    or past the end the usage is the empty usage. *)
Theorem gemini_calculateTokenUsage_splits_at_index
    (transcript : Gemini.GeminiTranscript) (k : Z) :
  0 <= k ->
  exists whole head tail : TokenUsage,
    Gemini.calculateTokenUsage transcript 0 = Returned whole
    /\ Gemini.calculateTokenUsage
         (Gemini.mkGeminiTranscript
            (firstn (Z.to_nat k) (Gemini.messages transcript))) 0
       = Returned head
    /\ Gemini.calculateTokenUsage transcript k = Returned tail
    /\ inputTokens whole = inputTokens head + inputTokens tail
    /\ outputTokens whole = outputTokens head + outputTokens tail
    /\ cacheReadTokens whole = cacheReadTokens head + cacheReadTokens tail
    /\ cacheCreationTokens whole = 0
    /\ apiCallCount whole = apiCallCount head + apiCallCount tail
    /\ (Z.of_nat (length (Gemini.messages transcript)) <= k ->
        tail = emptyTokenUsage).
Proof.
  intro Hk. unfold Gemini.calculateTokenUsage.
  assert (Hstart : (k <? 0) = false) by now apply Z.ltb_ge.
  rewrite Hstart. cbn [Z.ltb Z.compare Z.to_nat skipn Gemini.messages].
  do 3 eexists. split; [reflexivity|]. split; [reflexivity|].
  split; [reflexivity|].
  rewrite !fold_addMessage. cbn [inputTokens outputTokens cacheReadTokens
    cacheCreationTokens apiCallCount emptyTokenUsage].
  set (msgs := Gemini.messages transcript).
  assert (Hsplit : countedTokens msgs
                   = (countedTokens (firstn (Z.to_nat k) msgs)
                      ++ countedTokens (skipn (Z.to_nat k) msgs))%list).
  { unfold countedTokens. rewrite <- flat_map_app.
    now rewrite firstn_skipn. }
  assert (Hsum : forall (field : Gemini.GeminiMessageTokens -> Z)
                        (a b : list Gemini.GeminiMessageTokens),
             sumOf field (a ++ b) = sumOf field a + sumOf field b).
  { intros field a b. unfold sumOf. rewrite map_app.
    induction (map field a) as [|x l IH]; cbn [app fold_right]; lia. }
  rewrite Hsplit, !Hsum, length_app.
  repeat split; try lia.
  intro Hend. rewrite skipn_all2 by (fold msgs; lia). reflexivity.
Qed.

Lemma gemini_calculateTokenUsage_splits_at_index_witness :
  let transcript :=
    Gemini.mkGeminiTranscript
      [ Gemini.mkGeminiMessage (Some "a0") "gemini" "zero" None
          (Some (Gemini.mkGeminiMessageTokens 10 20 1 0 0 31));
        Gemini.mkGeminiMessage (Some "u1") "user" "hello" None None;
        Gemini.mkGeminiMessage (Some "a1") "gemini" "hi" None
          (Some (Gemini.mkGeminiMessageTokens 100 50 5 7 3 165)) ] in
  Gemini.calculateTokenUsage transcript 0
  = Returned (mkTokenUsage 110 0 6 70 2 None)
  /\ Gemini.calculateTokenUsage transcript 1
     = Returned (mkTokenUsage 100 0 5 50 1 None)
  /\ exists whole head tail : TokenUsage,
       Gemini.calculateTokenUsage transcript 0 = Returned whole
       /\ Gemini.calculateTokenUsage
            (Gemini.mkGeminiTranscript
               (firstn (Z.to_nat 1) (Gemini.messages transcript))) 0
          = Returned head
       /\ Gemini.calculateTokenUsage transcript 1 = Returned tail
       /\ inputTokens whole = inputTokens head + inputTokens tail
       /\ outputTokens whole = outputTokens head + outputTokens tail
       /\ cacheReadTokens whole = cacheReadTokens head + cacheReadTokens tail
       /\ cacheCreationTokens whole = 0
       /\ apiCallCount whole = apiCallCount head + apiCallCount tail
       /\ (Z.of_nat (length (Gemini.messages transcript)) <= 1 ->
           tail = emptyTokenUsage).
Proof.
  intro transcript.
  split; [reflexivity|]. split; [reflexivity|].
  apply (gemini_calculateTokenUsage_splits_at_index transcript 1). lia.
Defined.

(* ------------------------------------------------------------------ *)
(** ** chunking.ts: a message-array transcript without a hint *)

Section AutoDetected.

Variable JSON_parse : string -> option json.
Variable JSON_stringify : json -> string.

Lemma trimStart_brace (s : string) :
  startsWith s "{" = true -> trimStart s = s.
Proof.
  destruct s as [|c s]; [discriminate|].
  unfold startsWith. cbn [String.prefix].
  destruct (ascii_dec "{"%char c) as [<-|]; [reflexivity | discriminate].
Qed.

(** A document that starts with a brace and holds a message is detected
    as a Gemini transcript. *)
Lemma detectAgentTypeFromContent_document (content : string)
    (first : json) (others : list json) :
  startsWith content "{" = true ->
  messagesOf JSON_parse content = Some (first :: others) ->
  detectAgentTypeFromContent JSON_parse content = Some GeminiCLI.
Proof.
  intros Hbrace Hmsgs. unfold detectAgentTypeFromContent, messagesOf in *.
  rewrite trimStart_brace by assumption. rewrite Hbrace. cbn [negb].
  destruct (JSON_parse content) as [parsed|]; [|discriminate].
  destruct (member "messages" parsed) as [[| | | |items|]|];
    try discriminate.
  now injection Hmsgs as ->.
Qed.

End AutoDetected.

(** X23. A message-array transcript goes through [chunkTranscript] and
    [reassembleTranscript] without any hint. Take a content that starts
    with a brace and parses to a document with at least one message,
    and a host that prints the wrapper of each non-empty run of its
    messages as a text that starts with a brace and parses back to that
    wrapper. Then, for every threshold, the chunking detects the
    format and returns chunks, the reassembly detects it again from the
    first chunk and returns a document, and that document has the
    messages of the content, in order. *)
Theorem gemini_transcript_roundtrip_autodetected
    (JSON_parse : string -> option json) (JSON_stringify : json -> string)
    (content : string) (maxSize : Z) (first : json) (others : list json) :
  startsWith content "{" = true ->
  messagesOf JSON_parse content = Some (first :: others) ->
  (forall group : list json,
     segmentOf group (first :: others) -> group <> [] ->
     roundTrips JSON_parse JSON_stringify (wrapper group)
     /\ startsWith (JSON_stringify (wrapper group)) "{" = true) ->
  exists (chunks : list string) (reassembled : string),
    chunkTranscript JSON_parse JSON_stringify content None maxSize
    = Returned chunks
    /\ reassembleTranscript JSON_parse JSON_stringify chunks None
       = Returned reassembled
    /\ messagesOf JSON_parse reassembled = Some (first :: others).
Proof.
  intros Hbrace Hcontent Hhost.
  set (msgs := first :: others) in *.
  assert (Hwrapped : forall group : list json,
            segmentOf group msgs -> group <> [] ->
            messagesOf JSON_parse (JSON_stringify (wrapper group)) = Some group).
  { intros group Hseg Hne. unfold messagesOf.
    destruct (Hhost group Hseg Hne) as [Hround _].
    unfold roundTrips in Hround. now rewrite Hround, wrapper_messages. }
  unfold chunkTranscript.
  destruct (len content <=? maxSize) eqn:Hsmall.
  { exists [content], content. repeat split. exact Hcontent. }
  cbn [detectedType].
  rewrite (detectAgentTypeFromContent_document JSON_parse content first others)
    by assumption.
  unfold chunkGeminiJSON. rewrite Hsmall.
  pose proof Hcontent as Hparsed. unfold messagesOf in Hparsed.
  destruct (JSON_parse content) as [parsed|]; [|discriminate].
  destruct (member "messages" parsed) as [[| | | |items|]|];
    try discriminate.
  injection Hparsed as ->. cbn [iterate].
  destruct (chunkGeminiJSON_loop_groups JSON_stringify maxSize msgs [] []
              emptyWrapperLength)
    as (groups & Hloop & Hconcat & Hne).
  cbn [app] in Hloop, Hconcat. rewrite Hloop.
  assert (Hsegments : forall group : list json,
             In group groups -> segmentOf group msgs /\ group <> []).
  { intros group Hin. split.
    - rewrite <- Hconcat. now apply in_concat_segment.
    - rewrite Forall_forall in Hne. now apply Hne. }
  assert (Hgroups : Forall (fun group =>
                              roundTrips JSON_parse JSON_stringify (wrapper group))
                      groups).
  { apply Forall_forall. intros group Hin.
    destruct (Hsegments group Hin) as [Hseg Hgroup].
    now apply Hhost. }
  destruct groups as [|g1 [|g2 groups]].
  - discriminate Hconcat.
  - cbn [concat] in Hconcat. rewrite app_nil_r in Hconcat. subst g1.
    exists [JSON_stringify (wrapper msgs)], (JSON_stringify (wrapper msgs)).
    repeat split. apply Hwrapped; [apply segmentOf_refl | discriminate].
  - exists (map (fun group => JSON_stringify (wrapper group)) (g1 :: g2 :: groups)),
      (JSON_stringify (wrapper msgs)).
    split; [reflexivity|].
    split; [|apply Hwrapped; [apply segmentOf_refl | discriminate]].
    destruct (Hsegments g1 (or_introl eq_refl)) as [Hseg1 Hne1].
    destruct (Hhost g1 Hseg1 Hne1) as [Hround1 Hbrace1].
    cbn [map]. unfold reassembleTranscript. cbn [detectedType].
    assert (Hdetect : detectAgentTypeFromContent JSON_parse
                        (JSON_stringify (wrapper g1))
                      = Some GeminiCLI).
    { destruct g1 as [|m1 g1]; [congruence|].
      apply (detectAgentTypeFromContent_document JSON_parse _ m1 g1);
        [exact Hbrace1|].
      apply Hwrapped; [exact Hseg1 | discriminate]. }
    rewrite Hdetect. unfold reassembleGeminiJSON.
    change (JSON_stringify (wrapper g1) :: JSON_stringify (wrapper g2)
            :: map (fun group => JSON_stringify (wrapper group)) groups)
      with (map (fun group => JSON_stringify (wrapper group))
              (g1 :: g2 :: groups)).
    rewrite (reassembleGeminiJSON_loop_groups JSON_parse JSON_stringify
               (g1 :: g2 :: groups) Hgroups []).
    cbn [app]. now rewrite Hconcat.
Qed.

(** A document of two messages under a threshold of 30: two chunks, the
    format detected from the content and again from the first chunk. *)
Lemma gemini_transcript_roundtrip_autodetected_witness :
  let q := DQs in
  let content :=
    "{" ++ q ++ "messages" ++ q ++ ":[{" ++ q ++ "id" ++ q ++ ":" ++ q ++ "m1" ++ q
        ++ "},{" ++ q ++ "id" ++ q ++ ":" ++ q ++ "m2" ++ q ++ "}]}" in
  let m1 := JObject [("id", JString "m1")] in
  let m2 := JObject [("id", JString "m2")] in
  chunkTranscript RefJSON.parse RefJSON.stringify content None 30
  = Returned [RefJSON.stringify (wrapper [m1]); RefJSON.stringify (wrapper [m2])]
  /\ reassembleTranscript RefJSON.parse RefJSON.stringify
       [RefJSON.stringify (wrapper [m1]); RefJSON.stringify (wrapper [m2])] None
     = Returned content
  /\ exists (chunks : list string) (reassembled : string),
       chunkTranscript RefJSON.parse RefJSON.stringify content None 30
       = Returned chunks
       /\ reassembleTranscript RefJSON.parse RefJSON.stringify chunks None
          = Returned reassembled
       /\ messagesOf RefJSON.parse reassembled = Some [m1; m2].
Proof.
  intros q content m1 m2.
  split; [vm_compute; reflexivity|]. split; [vm_compute; reflexivity|].
  apply (gemini_transcript_roundtrip_autodetected RefJSON.parse
           RefJSON.stringify content 30 m1 [m2]).
  - vm_compute. reflexivity.
  - vm_compute. reflexivity.
  - intros group Hseg _. apply segmentOf_segments in Hseg.
    unfold roundTrips. simpl in Hseg.
    repeat (destruct Hseg as [<- | Hseg];
            [split; vm_compute; reflexivity|]).
    destruct Hseg.
Defined.

(* ------------------------------------------------------------------ *)
(** ** Occurrences of a text in a string *)

Section Occurrences.

Lemma prefix_split (p s : string) :
  String.prefix p s = true -> s = p ++ slice_from (String.length p) s.
Proof.
  revert s. induction p as [|a p IH]; intros s Hp; [reflexivity|].
  destruct s as [|b s]; [discriminate|].
  cbn [String.prefix] in Hp.
  destruct (ascii_dec a b) as [<-|]; [|discriminate].
  cbn [String.length slice_from append]. f_equal. now apply IH.
Qed.

(** [String.index 0 p s] is where [p] first occurs in [s]. *)
Lemma index_split (p s : string) (n : nat) :
  String.index 0 p s = Some n ->
  exists before : string,
    String.length before = n
    /\ s = before ++ p ++ slice_from (n + String.length p) s.
Proof.
  revert n. induction s as [|b s IH]; intros n Hn.
  - cbn [String.index] in Hn. destruct p; [|discriminate].
    injection Hn as <-. now exists EmptyString.
  - cbn [String.index] in Hn.
    destruct (String.prefix p (String b s)) eqn:Hp.
    + injection Hn as <-. exists EmptyString. split; [reflexivity|].
      now apply prefix_split.
    + destruct (String.index 0 p s) as [m|]; [|discriminate].
      injection Hn as <-. destruct (IH m eq_refl) as (before & Hlen & Hs).
      exists (String b before). split; [cbn; now rewrite Hlen|].
      cbn [Nat.add slice_from append]. now f_equal.
Qed.

End Occurrences.

Section AgentIds.

Import Claude.

(** The run that [extractAgentIdFromText] slices out is alphanumeric and
    stops at the end of the text or in front of another character. *)
Lemma alphaNumericRun_split (s : string) :
  Forall (fun c => isAlphaNumeric c = true)
    (list_ascii_of_string (alphaNumericRun s))
  /\ exists after : string,
       s = alphaNumericRun s ++ after
       /\ match after with
          | String c _ => isAlphaNumeric c = false
          | EmptyString => True
          end.
Proof.
  induction s as [|c s [IHall (after & IHs & IHafter)]].
  - split; [constructor | now exists EmptyString].
  - cbn [alphaNumericRun]. destruct (isAlphaNumeric c) eqn:Hc.
    + split; [now constructor|]. exists after.
      split; [cbn [append]; now f_equal | exact IHafter].
    + split; [constructor|]. exists (String c s).
      split; [reflexivity | exact Hc].
Qed.

End AgentIds.

(** X24. The agent identifier that [extractAgentIdFromText] returns is
    never empty and is made of letters and digits only; it stands in the
    text right after the first occurrence of the marker [agentId: ] and
    is followed by the end of the text or by a character that is not a
    letter or a digit. A text without the marker has no identifier. *)
Theorem extractAgentIdFromText_reads_alphanumeric_id (text : string) :
  (forall agentId : string,
     Claude.extractAgentIdFromText text = Some agentId ->
     agentId <> EmptyString
     /\ Forall (fun c => Claude.isAlphaNumeric c = true)
          (list_ascii_of_string agentId)
     /\ exists before after : string,
          text = before ++ "agentId: " ++ agentId ++ after
          /\ String.index 0 "agentId: " text = Some (String.length before)
          /\ match after with
             | String c _ => Claude.isAlphaNumeric c = false
             | EmptyString => True
             end)
  /\ ((forall before after : string, text <> before ++ "agentId: " ++ after) ->
      Claude.extractAgentIdFromText text = None).
Proof.
  unfold Claude.extractAgentIdFromText. split.
  - intros agentId Hid.
    destruct (String.index 0 "agentId: " text) as [idx|] eqn:Hidx;
      [|discriminate].
    destruct (index_split _ _ _ Hidx) as (before & Hlen & Htext).
    destruct (alphaNumericRun_split
                (slice_from (idx + String.length "agentId: ") text))
      as (Hall & after & Hrun & Hafter).
    destruct (Claude.alphaNumericRun
                (slice_from (idx + String.length "agentId: ") text))
      as [|c run] eqn:Hfound; [discriminate|].
    injection Hid as <-.
    split; [discriminate|]. split; [exact Hall|].
    exists before, after. split; [|split; [now rewrite Hlen | exact Hafter]].
    rewrite Htext at 1. now rewrite Hrun.
  - intro Hnone.
    destruct (String.index 0 "agentId: " text) as [idx|] eqn:Hidx;
      [|reflexivity].
    destruct (index_split _ _ _ Hidx) as (before & _ & Htext).
    now apply Hnone in Htext.
Qed.

(* ------------------------------------------------------------------ *)
(** ** utils.ts: a complete tag is removed *)

Section TagBlocks.

Import Utils.

Lemma index_skip (a p s : string) (n : nat) :
  String.index (String.length a + n) p (a ++ s)
  = option_map (Nat.add (String.length a)) (String.index n p s).
Proof.
  induction a as [|x a IH].
  - cbn. now destruct (String.index n p s).
  - cbn [String.length Nat.add append String.index]. rewrite IH.
    now destruct (String.index n p s).
Qed.

(** The first occurrence of a text after a string that does not hold
    its first character. *)
Lemma index_first (b p' r : string) (c : ascii) :
  without c b ->
  String.index 0 (String c p') (b ++ String c p' ++ r)
  = Some (String.length b).
Proof.
  unfold without. induction b as [|x b IH]; intro Hnot.
  - change (EmptyString ++ String c p' ++ r) with (String c (p' ++ r)).
    cbn [String.index].
    change (String c (p' ++ r)) with (String c p' ++ r).
    now rewrite prefix_append.
  - change (String x b ++ String c p' ++ r)
      with (String x (b ++ String c p' ++ r)).
    cbn [String.index String.prefix].
    destruct (ascii_dec c x) as [->|_]; [exfalso; apply Hnot; now left|].
    rewrite IH; [reflexivity|]. intro Hin. apply Hnot. now right.
Qed.

Lemma removeMatches_skip (re : TagRegex) (a t : string) :
  removeMatches re (String.length a) (a ++ t) = removeMatches re 0 t.
Proof. induction a as [|x a IH]; [reflexivity | exact IH]. Qed.

Lemma open_head (re : TagRegex) :
  startsWith (openText re) "<" = true ->
  openText re = String "<"%char (slice_from 1 (openText re)).
Proof.
  unfold startsWith. destruct (openText re) as [|c o]; [discriminate|].
  cbn [String.prefix slice_from].
  destruct (ascii_dec "<"%char c) as [<-|]; [reflexivity | discriminate].
Qed.

(** The expression matches a complete tag of its own, whole. *)
Lemma matchAtHead_tagBlock (re : TagRegex) (attrs body closeAttrs rest : string) :
  startsWith (closeText re) "<" = true ->
  without ">"%char attrs ->
  without "<"%char body ->
  without ">"%char closeAttrs ->
  matchAtHead re (tagBlock re attrs body closeAttrs ++ rest)
  = Some (String.length (tagBlock re attrs body closeAttrs)).
Proof.
  intros Hclose Hattrs Hbody HcloseAttrs.
  unfold startsWith in Hclose.
  destruct (closeText re) as [|c closing] eqn:Hc; [discriminate|].
  cbn [String.prefix] in Hclose.
  destruct (ascii_dec "<"%char c) as [<-|]; [|discriminate]. clear Hclose.
  set (opening := openText re).
  set (tail := if closeTail re then closeAttrs ++ ">" else EmptyString).
  assert (Htext : tagBlock re attrs body closeAttrs ++ rest
                  = opening ++ attrs ++ ">" ++ body ++ String "<"%char closing
                      ++ tail ++ rest).
  { unfold tagBlock. rewrite Hc. fold opening. fold tail.
    now rewrite !append_assoc. }
  assert (Hlen : String.length (tagBlock re attrs body closeAttrs)
                 = (String.length opening + String.length attrs + 1
                    + String.length body
                    + String.length (String "<"%char closing)
                    + String.length tail)%nat).
  { unfold tagBlock. rewrite Hc. fold opening. fold tail.
    rewrite !length_append. cbn [String.length]. lia. }
  rewrite Htext, Hlen. unfold matchAtHead. fold opening. rewrite Hc.
  unfold startsWith. rewrite prefix_append. cbn [negb].
  (* the first [>] after OPEN *)
  rewrite <- (Nat.add_0_r (String.length opening)) at 1.
  rewrite index_skip.
  rewrite (index_first attrs EmptyString _ ">"%char Hattrs).
  cbn [option_map].
  (* the first CLOSE after it *)
  replace (opening ++ attrs ++ ">" ++ body ++ String "<"%char closing
           ++ tail ++ rest)
    with ((opening ++ attrs ++ ">")
          ++ body ++ String "<"%char closing ++ tail ++ rest)
    by (now rewrite !append_assoc).
  replace (S (String.length opening + String.length attrs))
    with (String.length (opening ++ attrs ++ ">") + 0)%nat
    by (rewrite !length_append; cbn [String.length]; lia).
  rewrite index_skip.
  rewrite (index_first body closing _ "<"%char Hbody).
  cbn [option_map].
  unfold tail. destruct (closeTail re).
  - (* the first [>] after CLOSE *)
    replace ((opening ++ attrs ++ ">")
             ++ body ++ String "<"%char closing ++ (closeAttrs ++ ">") ++ rest)
      with (((opening ++ attrs ++ ">") ++ body ++ String "<"%char closing)
            ++ closeAttrs ++ ">" ++ rest)
      by (now rewrite !append_assoc).
    replace (String.length (opening ++ attrs ++ ">") + String.length body
             + String.length (String "<"%char closing))%nat
      with (String.length ((opening ++ attrs ++ ">") ++ body
                           ++ String "<"%char closing) + 0)%nat
      by (rewrite !length_append; lia).
    rewrite index_skip.
    rewrite (index_first closeAttrs EmptyString _ ">"%char HcloseAttrs).
    cbn [option_map]. f_equal. rewrite !length_append.
    cbn [String.length]. lia.
  - f_equal. rewrite !length_append. cbn [String.length]. lia.
Qed.

Lemma removeMatches_tagBlock (re : TagRegex) (attrs body closeAttrs rest : string) :
  startsWith (openText re) "<" = true ->
  startsWith (closeText re) "<" = true ->
  without ">"%char attrs ->
  without "<"%char body ->
  without ">"%char closeAttrs ->
  replaceWithEmpty re (tagBlock re attrs body closeAttrs ++ rest)
  = replaceWithEmpty re rest.
Proof.
  intros Hopen Hclose Hattrs Hbody HcloseAttrs. unfold replaceWithEmpty.
  pose proof (matchAtHead_tagBlock re attrs body closeAttrs rest
                Hclose Hattrs Hbody HcloseAttrs) as Hmatch.
  assert (Hblock : exists block' : string,
             tagBlock re attrs body closeAttrs = String "<"%char block').
  { unfold tagBlock. rewrite (open_head re Hopen). cbn [append]. eauto. }
  destruct Hblock as (block' & Hblock). rewrite Hblock in *.
  cbn [append removeMatches String.length] in *.
  rewrite Hmatch. apply removeMatches_skip.
Qed.

(** Characters other than [<] go through any of the expressions. *)
Lemma removeMatches_plain (re : TagRegex) (a t : string) :
  startsWith (openText re) "<" = true ->
  without "<"%char a ->
  removeMatches re 0 (a ++ t) = a ++ removeMatches re 0 t.
Proof.
  intros Hopen. unfold without.
  induction a as [|c a IH]; intro Hnot; [reflexivity|].
  cbn [append removeMatches].
  rewrite (matchAtHead_other_head re _ c (a ++ t) (open_head re Hopen)).
  - f_equal. apply IH. intro Hin. apply Hnot. now right.
  - intros ->. apply Hnot. now left.
Qed.

(** A text that starts like none of the OPEN texts goes through too. *)
Lemma removeMatches_other_text (re : TagRegex) (a t : string) :
  startsWith (openText re) "<" = true ->
  (forall t' : string, startsWith (a ++ t') (openText re) = false) ->
  without "<"%char (slice_from 1 a) ->
  removeMatches re 0 (a ++ t) = a ++ removeMatches re 0 t.
Proof.
  intros Hopen Hother Hplain. destruct a as [|c a]; [reflexivity|].
  cbn [slice_from] in Hplain. cbn [append removeMatches].
  assert (Hnone : matchAtHead re (String c (a ++ t)) = None).
  { unfold matchAtHead.
    change (String c (a ++ t)) with (String c a ++ t).
    now rewrite Hother. }
  rewrite Hnone. f_equal. now apply removeMatches_plain.
Qed.

(** A complete tag of one expression goes through another expression
    unchanged. *)
Lemma removeMatches_foreign_tagBlock (re other : TagRegex)
    (attrs body closeAttrs rest : string) :
  startsWith (openText re) "<" = true ->
  (forall t : string, startsWith (openText other ++ t) (openText re) = false) ->
  (forall t : string, startsWith (closeText other ++ t) (openText re) = false) ->
  without "<"%char (slice_from 1 (openText other)) ->
  without "<"%char (slice_from 1 (closeText other)) ->
  without "<"%char attrs ->
  without "<"%char body ->
  without "<"%char closeAttrs ->
  replaceWithEmpty re (tagBlock other attrs body closeAttrs ++ rest)
  = tagBlock other attrs body closeAttrs ++ replaceWithEmpty re rest.
Proof.
  intros Hopen Hotheropen Hotherclose Hop Hcl Hattrs Hbody HcloseAttrs.
  unfold replaceWithEmpty, tagBlock. rewrite !append_assoc.
  rewrite (removeMatches_other_text re (openText other)) by assumption.
  rewrite (removeMatches_plain re attrs) by assumption.
  rewrite (removeMatches_plain re ">")
    by (assumption || (unfold without; cbn; intuition discriminate)).
  rewrite (removeMatches_plain re body) by assumption.
  rewrite (removeMatches_other_text re (closeText other)) by assumption.
  destruct (closeTail other).
  - rewrite !append_assoc.
    rewrite (removeMatches_plain re closeAttrs) by assumption.
    rewrite (removeMatches_plain re ">")
      by (assumption || (unfold without; cbn; intuition discriminate)).
    reflexivity.
  - reflexivity.
Qed.

End TagBlocks.

Section StripTagBlocks.

Import Utils.

Lemma without_check (c : ascii) (s : string) :
  forallb (fun x => negb (Ascii.eqb x c)) (list_ascii_of_string s) = true ->
  without c s.
Proof.
  intros Hall Hin. rewrite forallb_forall in Hall.
  specialize (Hall c Hin). now rewrite Ascii.eqb_refl in Hall.
Qed.

End StripTagBlocks.

Ltac tag_side :=
  first [ assumption
        | reflexivity
        | (intro; reflexivity)
        | (apply without_check; reflexivity) ].

Ltac through_foreign re other :=
  rewrite (removeMatches_foreign_tagBlock re other) by tag_side.

(** X25. A complete tag at the head of a text is removed. For each of the
    seven tag expressions: a tag made of the opening text, attributes
    without [<] or [>], a [>], a body without [<], and the closing text
    (for the [ide_] tags followed by more characters without [<] or
    [>] and a final [>]) is stripped whole, whatever follows it:
    [stripIDEContextTags] of the tag followed by a text is
    [stripIDEContextTags] of that text. *)
Theorem stripIDEContextTags_removes_complete_tag
    (re : Utils.TagRegex) (attrs body closeAttrs rest : string) :
  In re (Utils.IDE_CONTEXT_TAG_RE :: Utils.SYSTEM_TAG_REGEXES) ->
  without "<"%char attrs -> without ">"%char attrs ->
  without "<"%char body ->
  without "<"%char closeAttrs -> without ">"%char closeAttrs ->
  Utils.stripIDEContextTags (tagBlock re attrs body closeAttrs ++ rest)
  = Utils.stripIDEContextTags rest.
Proof.
  intros Hre Hattrs Hattrs' Hbody HcloseAttrs HcloseAttrs'.
  unfold Utils.stripIDEContextTags, Utils.SYSTEM_TAG_REGEXES.
  cbn [fold_left].
  set (ide := Utils.IDE_CONTEXT_TAG_RE).
  set (caveat := Utils.mkTagRegex "<local-command-caveat"
                   "</local-command-caveat>" false).
  set (reminder := Utils.mkTagRegex "<system-reminder"
                     "</system-reminder>" false).
  set (name := Utils.mkTagRegex "<command-name" "</command-name>" false).
  set (message := Utils.mkTagRegex "<command-message"
                    "</command-message>" false).
  set (args := Utils.mkTagRegex "<command-args" "</command-args>" false).
  set (stdout := Utils.mkTagRegex "<local-command-stdout"
                   "</local-command-stdout>" false).
  unfold Utils.SYSTEM_TAG_REGEXES in Hre.
  fold ide caveat reminder name message args stdout in Hre.
  destruct Hre as [<-|[<-|[<-|[<-|[<-|[<-|[<-|[]]]]]]]].
  - rewrite (removeMatches_tagBlock ide) by tag_side. reflexivity.
  - through_foreign ide caveat.
    rewrite (removeMatches_tagBlock caveat) by tag_side. reflexivity.
  - through_foreign ide reminder. through_foreign caveat reminder.
    rewrite (removeMatches_tagBlock reminder) by tag_side. reflexivity.
  - through_foreign ide name. through_foreign caveat name.
    through_foreign reminder name.
    rewrite (removeMatches_tagBlock name) by tag_side. reflexivity.
  - through_foreign ide message. through_foreign caveat message.
    through_foreign reminder message. through_foreign name message.
    rewrite (removeMatches_tagBlock message) by tag_side. reflexivity.
  - through_foreign ide args. through_foreign caveat args.
    through_foreign reminder args. through_foreign name args.
    through_foreign message args.
    rewrite (removeMatches_tagBlock args) by tag_side. reflexivity.
  - through_foreign ide stdout. through_foreign caveat stdout.
    through_foreign reminder stdout. through_foreign name stdout.
    through_foreign message stdout. through_foreign args stdout.
    rewrite (removeMatches_tagBlock stdout) by tag_side. reflexivity.
Qed.

(** The first case of the test suite. *)
Lemma stripIDEContextTags_removes_complete_tag_witness :
  tagBlock Utils.IDE_CONTEXT_TAG_RE "opened_file" "file.go" "opened_file"
  = "<ide_opened_file>file.go</ide_opened_file>"
  /\ Utils.stripIDEContextTags "Hello, world!" = "Hello, world!"
  /\ Utils.stripIDEContextTags
       (tagBlock Utils.IDE_CONTEXT_TAG_RE "opened_file" "file.go" "opened_file"
        ++ "Hello, world!")
     = Utils.stripIDEContextTags "Hello, world!".
Proof.
  split; [reflexivity|]. split; [vm_compute; reflexivity|].
  apply (stripIDEContextTags_removes_complete_tag Utils.IDE_CONTEXT_TAG_RE
           "opened_file" "file.go" "opened_file" "Hello, world!");
    [now left | apply without_check; reflexivity ..].
Defined.

(* ------------------------------------------------------------------ *)
(** ** parse.ts: reading a serialized transcript from a line on *)

(** X26. Reading a serialized transcript from a line on gives the lines
    of the transcript from that line on. With a host that prints each
    line as one JSON text and reads it back, for every start line
    [k >= 0]: [parseFromStringAtLine] on the serialized transcript
    returns the lines from index [k] on together with the number of
    lines, and [parseFromString] on what [sliceFromLine] keeps of it
    returns the same lines. *)
Theorem serialized_transcript_from_line
    (JSON_parse : string -> option Claude.TranscriptLine)
    (JSON_stringify : Claude.TranscriptLine -> string)
    (lines : list Claude.TranscriptLine) (startLine : Z) :
  Forall (readsBack JSON_parse JSON_stringify) lines ->
  0 <= startLine ->
  Claude.parseFromStringAtLine JSON_parse
    (Claude.serializeTranscript JSON_stringify lines) startLine
  = (skipn (Z.to_nat startLine) lines, Z.of_nat (length lines))
  /\ Claude.parseFromString JSON_parse
       (Claude.sliceFromLine
          (Claude.serializeTranscript JSON_stringify lines) startLine)
     = skipn (Z.to_nat startLine) lines.
Proof.
  intros Hall Hstart. split.
  - unfold Claude.parseFromStringAtLine. rewrite fold_parseLineAt.
    rewrite (nonBlankLines_serializeTranscript JSON_parse JSON_stringify
               lines Hall).
    rewrite Z.sub_0_r, skipn_map, length_map. cbn [app Z.add].
    now rewrite (wellFormedRecords_printed JSON_parse JSON_stringify)
      by now apply Forall_skipn.
  - rewrite parseFromString_sliceFromLine_records by assumption.
    now apply records_of_serialized_from.
Qed.

Lemma serialized_transcript_from_line_witness :
  let lines :=
    [ Claude.mkTranscriptLine "user" "u1"
        (Some (Claude.mkMessage None None (Claude.ContentString "hello")));
      Claude.mkTranscriptLine "assistant" "a1" None;
      Claude.mkTranscriptLine "user" "u2"
        (Some (Claude.mkMessage None None (Claude.ContentString "bye"))) ] in
  let content :=
    Claude.serializeTranscript RefJSON.stringifyTranscriptLine lines in
  Claude.parseFromStringAtLine RefJSON.parseTranscriptLine content 1
  = (skipn (Z.to_nat 1) lines, Z.of_nat (length lines))
  /\ Claude.parseFromString RefJSON.parseTranscriptLine
       (Claude.sliceFromLine content 1)
     = skipn (Z.to_nat 1) lines.
Proof.
  intros lines content.
  apply (serialized_transcript_from_line RefJSON.parseTranscriptLine
           RefJSON.stringifyTranscriptLine lines 1).
  - repeat constructor; vm_compute; (reflexivity || discriminate).
  - lia.
Defined.

(* ------------------------------------------------------------------ *)
(** ** chunking.ts: chunks of whole lines, filled greedily *)

Section GreedyChunks.

Variable maxSize : Z.

(** The loop of [chunkJSONL] cuts the lines it is given, put after the
    lines of the accumulator, into groups; a group is sealed only when
    the next line does not fit. *)
Lemma chunkJSONL_loop_greedy (lines : list string) :
  forall (i : Z) (chunks : list string) (group : list string)
         (cs : list string),
    chunkJSONL_loop maxSize lines i chunks (linesWithLF group) = Returned cs ->
    exists groups : list (list string),
      cs = (chunks ++ map join_LF groups)%list
      /\ concat groups = (group ++ lines)%list
      /\ Forall (fun g => g <> []) groups
      /\ greedy maxSize groups
      /\ (group <> [] ->
          exists (more : list string) (rest : list (list string)),
            groups = (group ++ more)%list :: rest).
Proof.
  induction lines as [|line rest IH]; intros i chunks group cs.
  - cbn [chunkJSONL_loop].
    destruct (0 <? len (linesWithLF group)) eqn:Hpos; intros [= <-].
    + assert (Hne : group <> []).
      { intros ->. discriminate Hpos. }
      exists [group]. rewrite linesWithLF_join, strip_final_LF_append
        by assumption.
      cbn [map concat greedy]. rewrite !app_nil_r.
      repeat split; [now repeat constructor|].
      intros _. exists [], []. now rewrite app_nil_r.
    + assert (Hnil : group = []).
      { apply linesWithLF_empty_iff. apply Z.ltb_ge in Hpos.
        pose proof (len_nonneg (linesWithLF group)) as Hnonneg.
        destruct (linesWithLF group); [reflexivity|].
        unfold len in Hpos. cbn [String.length] in Hpos. lia. }
      subst group. exists []. cbn. rewrite app_nil_r.
      repeat split; [constructor | congruence].
  - cbn [chunkJSONL_loop]. cbv zeta.
    destruct (maxSize <? len (line ++ LFs)) eqn:Hline; [discriminate|].
    destruct ((maxSize <? len (linesWithLF group) + len (line ++ LFs))
              && (0 <? len (linesWithLF group))) eqn:Hfull.
    + apply andb_true_iff in Hfull as [Hover Hpos].
      apply Z.ltb_lt in Hover.
      assert (Hne : group <> []).
      { intros ->. discriminate Hpos. }
      rewrite linesWithLF_join, strip_final_LF_append by assumption.
      change (line ++ LFs) with (linesWithLF [line]).
      intro Hcs.
      destruct (IH _ _ [line] cs Hcs)
        as (groups & -> & Hconcat & Hgroups & Hgreedy & Hfirst).
      destruct (Hfirst ltac:(discriminate)) as (more & others & ->).
      exists (group :: ([line] ++ more)%list :: others).
      rewrite <- app_assoc. cbn [map app concat] in *.
      split; [reflexivity|]. split; [now rewrite Hconcat|].
      split; [now constructor|]. split.
      * split; [|exact Hgreedy].
        rewrite len_append, len_LFs in Hover. lia.
      * intros _. exists [], (([line] ++ more)%list :: others).
        now rewrite app_nil_r.
    + replace (linesWithLF group ++ line ++ LFs)
        with (linesWithLF (group ++ [line]))
        by (rewrite linesWithLF_app; cbn [linesWithLF];
            now rewrite append_nil_r).
      intro Hcs.
      destruct (IH _ _ (group ++ [line])%list cs Hcs)
        as (groups & -> & Hconcat & Hgroups & Hgreedy & Hfirst).
      exists groups. rewrite <- app_assoc in Hconcat.
      repeat split; try assumption.
      intros _.
      destruct (Hfirst ltac:(now destruct group)) as (more & others & ->).
      exists ([line] ++ more)%list, others. now rewrite <- app_assoc.
Qed.

End GreedyChunks.

(** X27. The chunks of [chunkJSONL] are made of whole lines and filled
    greedily. Whenever the function returns, the lines of the content
    are cut into consecutive groups, none empty, each chunk is the
    lines of one group joined by line feeds, in order, and a group is
    followed by another only if the first line of the next one did not
    fit: the lines of the group with their line feeds, plus that line
    and its line feed, go over the threshold. *)
Theorem chunkJSONL_chunks_filled_greedily
    (content : string) (maxSize : Z) (chunks : list string) :
  chunkJSONL content maxSize = Returned chunks ->
  exists groups : list (list string),
    chunks = map join_LF groups
    /\ concat groups = scannedLines content
    /\ Forall (fun group => group <> []) groups
    /\ greedy maxSize groups.
Proof.
  unfold chunkJSONL, scannedLines. destruct content as [|c content].
  - intros [= <-]. exists []. repeat split. constructor.
  - intro Hchunks.
    destruct (chunkJSONL_loop_greedy maxSize _ 0 [] [] chunks Hchunks)
      as (groups & -> & Hconcat & Hgroups & Hgreedy & _).
    now exists groups.
Qed.

(** Five lines of two characters under a threshold of seven: groups of
    two, two and one. *)
Lemma chunkJSONL_chunks_filled_greedily_witness :
  let content :=
    "aa" ++ LFs ++ "bb" ++ LFs ++ "cc" ++ LFs ++ "dd" ++ LFs ++ "ee" in
  chunkJSONL content 7
  = Returned ["aa" ++ LFs ++ "bb"; "cc" ++ LFs ++ "dd"; "ee"]
  /\ exists groups : list (list string),
       ["aa" ++ LFs ++ "bb"; "cc" ++ LFs ++ "dd"; "ee"] = map join_LF groups
       /\ concat groups = scannedLines content
       /\ Forall (fun group => group <> []) groups
       /\ greedy 7 groups.
Proof.
  intro content.
  assert (Hchunks : chunkJSONL content 7
                    = Returned ["aa" ++ LFs ++ "bb"; "cc" ++ LFs ++ "dd"; "ee"])
    by reflexivity.
  split; [exact Hchunks|].
  exact (chunkJSONL_chunks_filled_greedily content 7
           ["aa" ++ LFs ++ "bb"; "cc" ++ LFs ++ "dd"; "ee"] Hchunks).
Defined.

(* ------------------------------------------------------------------ *)
(** ** parsers/gemini/parse.ts *)

Section GeminiParse.

Import Gemini.

Variable JSON_parse : string -> option json.
Variable JSON_stringify : json -> string.

Lemma contentOf_textParts (texts : list string) :
  Forall (fun text => text <> EmptyString) texts ->
  contentOf (Some (textParts texts)) = join_LF texts.
Proof.
  intro Hall. unfold contentOf, textParts, join_LF. f_equal.
  induction Hall as [|text rest Hne _ IH]; [reflexivity|].
  cbn [map flat_map].
  change (textOfPart (JObject [("text", JString text)]))
    with (if negb (String.eqb text EmptyString) then [JString text] else []).
  apply String.eqb_neq in Hne. rewrite Hne.
  cbn [negb app map toString]. now f_equal.
Qed.

(** What the callback makes of a raw message. *)
Lemma convertMessage_normalizedFrom (rawMsg msg : json) :
  convertMessage rawMsg = Returned msg -> normalizedFrom rawMsg msg.
Proof.
  unfold convertMessage, normalizedFrom.
  assert (Hmsg : forall content : string,
             let made :=
               JObject
                 (definedMember "id" (member "id" rawMsg)
                  ++ definedMember "type" (member "type" rawMsg)
                  ++ [("content", JString content)]
                  ++ definedMember "toolCalls" (member "toolCalls" rawMsg)
                  ++ definedMember "tokens" (member "tokens" rawMsg))%list in
             member "id" made = member "id" rawMsg
             /\ member "type" made = member "type" rawMsg
             /\ member "toolCalls" made = member "toolCalls" rawMsg
             /\ member "tokens" made = member "tokens" rawMsg
             /\ member "content" made = Some (JString content)).
  { intro content.
    destruct (member "id" rawMsg), (member "type" rawMsg),
      (member "toolCalls" rawMsg), (member "tokens" rawMsg);
      repeat split; reflexivity. }
  intro Hconvert.
  assert (Hmade : msg
                  = JObject
                      (definedMember "id" (member "id" rawMsg)
                       ++ definedMember "type" (member "type" rawMsg)
                       ++ [("content",
                            JString (contentOf (member "content" rawMsg)))]
                       ++ definedMember "toolCalls" (member "toolCalls" rawMsg)
                       ++ definedMember "tokens" (member "tokens" rawMsg))%list).
  { destruct rawMsg; (discriminate || now injection Hconvert as <-). }
  destruct (Hmsg (contentOf (member "content" rawMsg)))
    as (Hid & Htype & Hcalls & Htokens & Hcontent).
  rewrite Hmade. repeat split; try assumption.
  exists (contentOf (member "content" rawMsg)).
  split; [assumption|]. split; [|split].
  - intros c Hc. now rewrite Hc.
  - intros texts Htexts Hall. rewrite Htexts.
    now apply contentOf_textParts.
  - intro Hnone. now rewrite Hnone.
Qed.

(** A converted message is converted to itself. *)
Lemma convertMessage_idempotent (rawMsg msg : json) :
  convertMessage rawMsg = Returned msg -> convertMessage msg = Returned msg.
Proof.
  intro Hconvert. unfold convertMessage in Hconvert.
  assert (Hmade : msg
                  = JObject
                      (definedMember "id" (member "id" rawMsg)
                       ++ definedMember "type" (member "type" rawMsg)
                       ++ [("content",
                            JString (contentOf (member "content" rawMsg)))]
                       ++ definedMember "toolCalls" (member "toolCalls" rawMsg)
                       ++ definedMember "tokens" (member "tokens" rawMsg))%list).
  { destruct rawMsg; (discriminate || now injection Hconvert as <-). }
  rewrite Hmade.
  destruct (member "id" rawMsg), (member "type" rawMsg),
    (member "toolCalls" rawMsg), (member "tokens" rawMsg); reflexivity.
Qed.

Lemma convertMessages_normalizedFrom (rawMsgs : list json) :
  ~ In JNull rawMsgs ->
  exists msgs : list json,
    convertMessages rawMsgs = Returned msgs
    /\ Forall2 normalizedFrom rawMsgs msgs.
Proof.
  induction rawMsgs as [|rawMsg rest IH]; intro Hnot.
  - exists []. split; [reflexivity | constructor].
  - destruct IH as (msgs & Hrest & Hall).
    { intro Hin. apply Hnot. now right. }
    assert (Hmsg : exists msg : json, convertMessage rawMsg = Returned msg).
    { destruct rawMsg; try (eexists; reflexivity).
      exfalso. apply Hnot. now left. }
    destruct Hmsg as (msg & Hmsg).
    exists (msg :: msgs). cbn [convertMessages]. rewrite Hmsg, Hrest.
    split; [reflexivity|].
    constructor; [now apply convertMessage_normalizedFrom | assumption].
Qed.

Lemma convertMessages_idempotent (rawMsgs msgs : list json) :
  convertMessages rawMsgs = Returned msgs ->
  convertMessages msgs = Returned msgs.
Proof.
  revert msgs. induction rawMsgs as [|rawMsg rest IH]; intros msgs.
  - now intros [= <-].
  - cbn [convertMessages].
    destruct (convertMessage rawMsg) as [msg|] eqn:Hmsg; [|discriminate].
    destruct (convertMessages rest) as [others|]; [|discriminate].
    intros [= <-]. cbn [convertMessages].
    now rewrite (convertMessage_idempotent rawMsg msg Hmsg), (IH others eq_refl).
Qed.

(** The messages that [parseTranscript] returns are converted to
    themselves. *)
Lemma parseTranscript_converted (data : string) (msgs : list json) :
  parseTranscript JSON_parse data = Returned msgs ->
  convertMessages msgs = Returned msgs.
Proof.
  unfold parseTranscript.
  destruct (JSON_parse data) as [raw|]; [|discriminate].
  assert (Hmessages :
            match member "messages" raw with
            | Some rawMessages =>
                if truthy rawMessages
                then match rawMessages with
                     | JArray rawMsgs => convertMessages rawMsgs
                     | _ => Thrown TypeError
                     end
                else Returned []
            | None => Returned []
            end = Returned msgs ->
            convertMessages msgs = Returned msgs).
  { destruct (member "messages" raw) as [rawMessages|]; [|now intros [= <-]].
    destruct (truthy rawMessages); [|now intros [= <-]].
    destruct rawMessages; try discriminate.
    apply convertMessages_idempotent. }
  destruct raw; (discriminate || exact Hmessages).
Qed.

(** Parsing what the host reads back as the wrapper of some converted
    messages. *)
Lemma parseTranscript_wrapper (text : string) (msgs : list json) :
  JSON_parse text = Some (wrapper msgs) ->
  convertMessages msgs = Returned msgs ->
  parseTranscript JSON_parse text = Returned msgs.
Proof.
  intros Hparse Hconverted. unfold parseTranscript. rewrite Hparse.
  unfold wrapper. cbn [member lookup String.eqb truthy].
  change (lookup "messages" [("messages", JArray msgs)])
    with (Some (JArray msgs)).
  exact Hconverted.
Qed.

End GeminiParse.



(** X29. A parsed transcript survives serialization: when
    [parseTranscript] returns a transcript and the host reads back what
    it prints for it, [parseTranscript] of [serializeTranscript] of
    that transcript returns it again. The normalization of the
    contents is done once and for all. *)
Theorem gemini_parseTranscript_serializeTranscript
    (JSON_parse : string -> option json) (JSON_stringify : json -> string)
    (data : string) (msgs : list json) :
  Gemini.parseTranscript JSON_parse data = Returned msgs ->
  roundTrips JSON_parse JSON_stringify (wrapper msgs) ->
  Gemini.parseTranscript JSON_parse
    (Gemini.serializeTranscript JSON_stringify msgs)
  = Returned msgs.
Proof.
  intros Hparsed Hround. apply parseTranscript_wrapper; [exact Hround|].
  exact (parseTranscript_converted JSON_parse data msgs Hparsed).
Qed.

Lemma gemini_parseTranscript_serializeTranscript_witness :
  let q := DQs in
  let data :=
    "{" ++ q ++ "messages" ++ q ++ ":[{" ++ q ++ "id" ++ q ++ ":" ++ q ++ "u1" ++ q
        ++ "," ++ q ++ "content" ++ q ++ ":[{" ++ q ++ "text" ++ q ++ ":" ++ q ++ "first" ++ q
        ++ "},{" ++ q ++ "text" ++ q ++ ":" ++ q ++ "second" ++ q ++ "}]}]}" in
  let msgs :=
    [ JObject [("id", JString "u1");
               ("content", JString ("first" ++ LFs ++ "second"))] ] in
  Gemini.parseTranscript RefJSON.parse data = Returned msgs
  /\ Gemini.parseTranscript RefJSON.parse
       (Gemini.serializeTranscript RefJSON.stringify msgs)
     = Returned msgs.
Proof.
  intros q data msgs.
  assert (Hparsed : Gemini.parseTranscript RefJSON.parse data = Returned msgs)
    by (vm_compute; reflexivity).
  split; [exact Hparsed|].
  apply (gemini_parseTranscript_serializeTranscript RefJSON.parse
           RefJSON.stringify data msgs Hparsed).
  vm_compute. reflexivity.
Defined.

(** X30. Slicing and then parsing is parsing and then dropping messages.
    When [parseTranscript] returns the messages of a non-empty data,
    for every index [k >= 0] such that the host reads back what it
    prints for the messages from [k] on, [sliceFromMessage] returns a
    text whose [parseTranscript] is exactly those messages: none when
    [k] is at or past the end, all of them when [k] is zero. *)
Theorem gemini_sliceFromMessage_drops_messages
    (JSON_parse : string -> option json) (JSON_stringify : json -> string)
    (data : string) (startMessageIndex : Z) (msgs : list json) :
  data <> EmptyString ->
  0 <= startMessageIndex ->
  Gemini.parseTranscript JSON_parse data = Returned msgs ->
  roundTrips JSON_parse JSON_stringify
    (wrapper (skipn (Z.to_nat startMessageIndex) msgs)) ->
  exists sliced : string,
    Gemini.sliceFromMessage JSON_parse JSON_stringify data startMessageIndex
    = Returned sliced
    /\ Gemini.parseTranscript JSON_parse sliced
       = Returned (skipn (Z.to_nat startMessageIndex) msgs).
Proof.
  intros Hdata Hstart Hparsed Hround.
  unfold Gemini.sliceFromMessage.
  destruct data as [|c data]; [congruence|].
  destruct (startMessageIndex <=? 0) eqn:Hle.
  - apply Z.leb_le in Hle. replace startMessageIndex with 0 by lia.
    exists (String c data). now split.
  - rewrite Hparsed.
    assert (Hconverted : Gemini.convertMessages
                           (skipn (Z.to_nat startMessageIndex) msgs)
                         = Returned (skipn (Z.to_nat startMessageIndex) msgs)).
    { pose proof (parseTranscript_converted JSON_parse _ msgs Hparsed) as Hall.
      clear - Hall. revert Hall.
      generalize (Z.to_nat startMessageIndex) as n.
      induction msgs as [|msg msgs IH]; intros n Hall.
      - now rewrite skipn_nil.
      - destruct n as [|n]; [exact Hall|]. cbn [skipn]. apply IH.
        cbn [Gemini.convertMessages] in Hall.
        destruct (Gemini.convertMessage msg) as [m|]; [|discriminate].
        destruct (Gemini.convertMessages msgs) as [ms|]; [|discriminate].
        now injection Hall as _ ->. }
    destruct (Z.of_nat (length msgs) <=? startMessageIndex) eqn:Hend.
    + apply Z.leb_le in Hend.
      assert (Hnone : skipn (Z.to_nat startMessageIndex) msgs = [])
        by (apply skipn_all2; lia).
      rewrite Hnone in *. eexists. split; [reflexivity|].
      now apply parseTranscript_wrapper.
    + eexists. split; [reflexivity|].
      now apply parseTranscript_wrapper.
Qed.

(** The case of the test suite: four messages sliced from index 2. *)
Lemma gemini_sliceFromMessage_drops_messages_witness :
  let q := DQs in
  let message (i t : string) :=
    JObject [("id", JString i); ("type", JString t); ("content", JString "x")] in
  let msgs :=
    [message "m1" "user"; message "m2" "gemini"; message "m3" "user";
     message "m4" "gemini"] in
  let data := RefJSON.stringify (wrapper msgs) in
  Gemini.parseTranscript RefJSON.parse data = Returned msgs
  /\ exists sliced : string,
       Gemini.sliceFromMessage RefJSON.parse RefJSON.stringify data 2
       = Returned sliced
       /\ Gemini.parseTranscript RefJSON.parse sliced
          = Returned (skipn (Z.to_nat 2) msgs).
Proof.
  intros q message msgs data.
  assert (Hparsed : Gemini.parseTranscript RefJSON.parse data = Returned msgs)
    by (vm_compute; reflexivity).
  split; [exact Hparsed|].
  apply (gemini_sliceFromMessage_drops_messages RefJSON.parse
           RefJSON.stringify data 2 msgs).
  - vm_compute. discriminate.
  - lia.
  - exact Hparsed.
  - vm_compute. reflexivity.
Defined.

(** The cases of the test suite of [parsers/gemini/parse.ts], and the
    inputs that make [parseTranscript] throw. *)
Example gemini_parseTranscript_examples :
  let q := DQs in
  Gemini.parseTranscript RefJSON.parse ("{" ++ q ++ "messages" ++ q ++ ":[]}")
  = Returned []
  /\ Gemini.parseTranscript RefJSON.parse "{}" = Returned []
  /\ Gemini.parseTranscript RefJSON.parse ("{" ++ q ++ "messages" ++ q ++ ":null}")
     = Returned []
  /\ Gemini.parseTranscript RefJSON.parse "[1,2]" = Returned []
  /\ Gemini.parseTranscript RefJSON.parse "not json" = Thrown SyntaxError
  /\ Gemini.parseTranscript RefJSON.parse "null" = Thrown TypeError
  /\ Gemini.parseTranscript RefJSON.parse ("{" ++ q ++ "messages" ++ q ++ ":7}")
     = Thrown TypeError
  /\ Gemini.parseTranscript RefJSON.parse
       ("{" ++ q ++ "messages" ++ q ++ ":[null]}")
     = Thrown TypeError
  /\ Gemini.parseTranscript RefJSON.parse
       ("{" ++ q ++ "messages" ++ q ++ ":[{" ++ q ++ "id" ++ q ++ ":" ++ q ++ "u1" ++ q ++ "}]}")
     = Returned [JObject [("id", JString "u1"); ("content", JString EmptyString)]]
  /\ Gemini.contentOf
       (Some (JArray [JObject [("text", JNumber 5)]; JNull; JString "x";
                      JObject [("text", JArray [JNumber 1; JNull; JArray [JBool true]])];
                      JObject [("text", JString EmptyString)];
                      JObject [("other", JString "y")]]))
     = "5" ++ LFs ++ "1,,true"
  /\ Gemini.sliceFromMessage RefJSON.parse RefJSON.stringify EmptyString 3
     = Returned EmptyString
  /\ Gemini.sliceFromMessage RefJSON.parse RefJSON.stringify "not json" 1
     = Thrown SyntaxError
  /\ Gemini.sliceFromMessage RefJSON.parse RefJSON.stringify "not json" 0
     = Returned "not json".
Proof. vm_compute. repeat split; reflexivity. Qed.
